(** * ai-project-planner: the server-side request-shaping layer

    A shallow embedding of the sanitizer ([app/lib/utils.ts]), the in-memory
    rate limiter ([lib.server/rate-limit.ts]), the configuration reader
    ([lib.server/config.ts]), the zod schemas ([app/lib/schema.ts]) and the
    two route actions ([api.plans.generate.ts], [api.plans.explain.ts]);
    of the client, [stripMarkdown], the saved plan of the page
    ([routes/_index.tsx]), the request and the cooldown of the explanation
    hook ([hooks/use-explain-plan.ts]) and the handlers of the plan view
    ([components/project-plan-view.tsx]); followed by the properties
    established about them.

    Conventions.
    - A JavaScript string is the list of its UTF-16 code units.
    - Epoch milliseconds, request budgets and window lengths are integers
      ([Z]); [Date.now()] is an explicit argument of every function that
      reads the clock, one argument per read.
    - The module-level [Map] of the rate limiter and [lastCleanup] form an
      explicit state that is threaded through the calls.
    - A [throw] is a value of type [exn] returned on the error side.
    - The calls of the logger change no result; they are recorded only in
      the recovery step, whose raw-text log the specification speaks of. *)

From Stdlib Require Import ZArith NArith QArith List String Ascii DecimalString Lia.
From stdpp Require Import base option list gmap.
Close Scope Q_scope.
Open Scope Z_scope.

(** ** JavaScript strings *)

Module JsString.

Abbreviation jsstring := (list N).

(** An ASCII literal as a JavaScript string. *)
Definition js (s : string) : jsstring :=
  map N_of_ascii (list_ascii_of_string s).

(** A literal in which the apostrophe stands for the double quote, for
    writing JSON texts. *)
Definition jsq (s : string) : jsstring :=
  map (fun c => if (c =? 39)%N then 34%N else c) (js s).

Arguments js : simpl never.
Arguments jsq : simpl never.

(** [WhiteSpace] and [LineTerminator] of ECMAScript: what [\s] matches and
    what [String.prototype.trim] strips. *)
Definition isWhiteSpace (c : N) : bool :=
  ((9 <=? c) && (c <=? 13) || (c =? 32) || (c =? 160) || (c =? 5760)
   || (8192 <=? c) && (c <=? 8202) || (c =? 8232) || (c =? 8233)
   || (c =? 8239) || (c =? 8287) || (c =? 12288) || (c =? 65279))%N.

Fixpoint dropWhile (p : N -> bool) (s : jsstring) : jsstring :=
  match s with
  | [] => []
  | c :: s' => if p c then dropWhile p s' else s
  end.

Definition trimStart (s : jsstring) : jsstring := dropWhile isWhiteSpace s.
Definition trimEnd (s : jsstring) : jsstring :=
  rev (dropWhile isWhiteSpace (rev s)).
Definition trim (s : jsstring) : jsstring := trimEnd (trimStart s).

(** [s.slice(0, n)] for an integer [n]: a negative [n] counts from the end
    of the string. *)
Definition slice0 (s : jsstring) (n : Z) : jsstring :=
  if n <? 0
  then take (Z.to_nat (Z.max (Z.of_nat (length s) + n) 0)) s
  else take (Z.to_nat n) s.

(** [s.replace(/[class]/g, empty)]: every code unit of the class goes. *)
Definition removeAll (p : N -> bool) (s : jsstring) : jsstring :=
  filter (fun c => p c = false) s.

(** [s.replace(/\s+/g, space)]: [inRun] tells that the previous code unit
    belonged to the whitespace run being replaced. *)
Fixpoint collapseFrom (inRun : bool) (s : jsstring) : jsstring :=
  match s with
  | [] => []
  | c :: s' =>
      if isWhiteSpace c
      then (if inRun then collapseFrom true s' else 32%N :: collapseFrom true s')
      else c :: collapseFrom false s'
  end.

Definition collapseWhitespace (s : jsstring) : jsstring := collapseFrom false s.

Fixpoint startsWith (p s : jsstring) : bool :=
  match p, s with
  | [], _ => true
  | _ :: _, [] => false
  | a :: p', b :: s' => (a =? b)%N && startsWith p' s'
  end.

End JsString.
Export JsString.

(** ** [app/lib/constants.ts] *)

Module Constants.

Definition MAX_PHASES : nat := 5.
Definition MAX_TASKS_PER_PHASE : nat := 5.

Module RATE_LIMIT.
Module GENERATE_PLAN.
Definition MAX : Z := 5.
Definition WINDOW_MS : Z := 2 * 60 * 1000.
End GENERATE_PLAN.
Module EXPLAIN_PLAN.
Definition MAX : Z := 10.
Definition WINDOW_MS : Z := 5 * 60 * 1000.
End EXPLAIN_PLAN.
End RATE_LIMIT.

Definition CLEANUP_INTERVAL : Z := 60000.

End Constants.
Export Constants.

(** ** [sanitizeString] of [app/lib/utils.ts] *)

Module Sanitize.

(** Step 2's class: the code units 0x00-0x1F and 0x7F. *)
Definition isControl (c : N) : bool := ((c <=? 31) || (c =? 127))%N.

(** Step 3's class: less-than, greater-than, apostrophe, double quote,
    backtick, semicolon, the braces, the square brackets and backslash. *)
Definition isDangerous (c : N) : bool :=
  ((c =? 60) || (c =? 62) || (c =? 39) || (c =? 34) || (c =? 96)
   || (c =? 59) || (c =? 123) || (c =? 125) || (c =? 91) || (c =? 93)
   || (c =? 92))%N.

(** Step 5's class: U+200B to U+200D and U+FEFF. *)
Definition isZeroWidth (c : N) : bool :=
  ((8203 <=? c) && (c <=? 8205) || (c =? 65279))%N.

Definition sanitizeString (input : jsstring) (maxLength : Z) : jsstring :=
  (* 1. trim and limit the length *)
  let sanitized := slice0 (trim input) maxLength in
  (* 2. control characters *)
  let sanitized := removeAll isControl sanitized in
  (* 3. characters usable for prompt and JSON injection *)
  let sanitized := removeAll isDangerous sanitized in
  (* 4. collapse whitespace *)
  let sanitized := collapseWhitespace sanitized in
  (* 5. zero-width characters *)
  let sanitized := removeAll isZeroWidth sanitized in
  trim sanitized.

(** The default of the [maxLength] parameter. *)
Definition defaultMaxLength : Z := 500.

End Sanitize.
Export Sanitize.

(** ** [lib.server/rate-limit.ts] *)

Module RateLimit.

Record RateLimitRecord := { count : Z; resetAt : Z }.

(** The module-level variables [rateLimitMap] and [lastCleanup]. *)
Record State := {
  rateLimitMap : gmap jsstring RateLimitRecord;
  lastCleanup : Z
}.

(** The state right after the module is loaded at time [t0]. *)
Definition initialState (t0 : Z) : State :=
  {| rateLimitMap := ∅; lastCleanup := t0 |}.

Module RateLimitResult.
Record t := mk {
  allowed : bool;
  remaining : Z;
  resetAt : Z;
  resetIn : Z
}.
End RateLimitResult.
Abbreviation RateLimitResult := RateLimitResult.t.

(** [Math.ceil(ms / 1000)] for an integer [ms]. *)
Definition ceilSeconds (ms : Z) : Z := - ((- ms) / 1000).

(** The first loop of [cleanupExpiredRecords]: the keys of the records
    whose [resetAt] lies before [now]. *)
Definition expiredKeys (now : Z) (m : gmap jsstring RateLimitRecord)
  : list jsstring :=
  (map_to_list (filter (fun kr => resetAt kr.2 < now) m)).*1.

(** [now] is this function's own [Date.now()]. *)
Definition cleanupExpiredRecords (now : Z) (st : State) : State :=
  if now - lastCleanup st <? CLEANUP_INTERVAL then st
  else
    {| rateLimitMap :=
         foldr delete (rateLimitMap st) (expiredKeys now (rateLimitMap st));
       lastCleanup := now |}.

(** [record.count++] on the object that [rateLimitMap.get] returned: the
    map sees the new count exactly when it still holds that object. *)
Definition incrementCount (identifier : jsstring)
    (m : gmap jsstring RateLimitRecord) : gmap jsstring RateLimitRecord :=
  alter (fun r => {| count := count r + 1; resetAt := resetAt r |})
        identifier m.

(** [now] is the clock read of [checkRateLimit], [nowCleanup] the later one
    of the [cleanupExpiredRecords] it calls. *)
Definition checkRateLimit (identifier : jsstring) (maxRequests windowMs : Z)
    (now nowCleanup : Z) (st : State) : RateLimitResult * State :=
  let record := rateLimitMap st !! identifier in
  let st := cleanupExpiredRecords nowCleanup st in
  match record with
  | Some record =>
      if resetAt record <? now then
        let resetAt := now + windowMs in
        (RateLimitResult.mk true (maxRequests - 1) resetAt (ceilSeconds windowMs),
         {| rateLimitMap :=
              <[identifier := {| count := 1; resetAt := resetAt |}]> (rateLimitMap st);
            lastCleanup := lastCleanup st |})
      else if count record >=? maxRequests then
        (RateLimitResult.mk false 0 (resetAt record)
           (ceilSeconds (resetAt record - now)),
         st)
      else
        (RateLimitResult.mk true (maxRequests - (count record + 1)) (resetAt record)
           (ceilSeconds (resetAt record - now)),
         {| rateLimitMap := incrementCount identifier (rateLimitMap st);
            lastCleanup := lastCleanup st |})
  | None =>
      let resetAt := now + windowMs in
      (RateLimitResult.mk true (maxRequests - 1) resetAt (ceilSeconds windowMs),
       {| rateLimitMap :=
            <[identifier := {| count := 1; resetAt := resetAt |}]> (rateLimitMap st);
          lastCleanup := lastCleanup st |})
  end.

(** The defaults of [maxRequests] and [windowMs]; both handlers pass their
    own values. *)
Definition defaultMaxRequests : Z := 10.
Definition defaultWindowMs : Z := CLEANUP_INTERVAL.

(** [checkRateLimit] with the call of [cleanupExpiredRecords] taken out:
    the limiter that never sweeps, against which the sweep is compared. *)
Definition checkRateLimitNoSweep (identifier : jsstring)
    (maxRequests windowMs : Z) (now : Z) (st : State)
  : RateLimitResult * State :=
  match rateLimitMap st !! identifier with
  | Some record =>
      if resetAt record <? now then
        let resetAt := now + windowMs in
        (RateLimitResult.mk true (maxRequests - 1) resetAt (ceilSeconds windowMs),
         {| rateLimitMap :=
              <[identifier := {| count := 1; resetAt := resetAt |}]> (rateLimitMap st);
            lastCleanup := lastCleanup st |})
      else if count record >=? maxRequests then
        (RateLimitResult.mk false 0 (resetAt record)
           (ceilSeconds (resetAt record - now)),
         st)
      else
        (RateLimitResult.mk true (maxRequests - (count record + 1)) (resetAt record)
           (ceilSeconds (resetAt record - now)),
         {| rateLimitMap := incrementCount identifier (rateLimitMap st);
            lastCleanup := lastCleanup st |})
  | None =>
      let resetAt := now + windowMs in
      (RateLimitResult.mk true (maxRequests - 1) resetAt (ceilSeconds windowMs),
       {| rateLimitMap :=
            <[identifier := {| count := 1; resetAt := resetAt |}]> (rateLimitMap st);
          lastCleanup := lastCleanup st |})
  end.

(** One call of [checkRateLimit] with its two clock reads. *)
Record Call := {
  identifier : jsstring;
  maxRequests : Z;
  windowMs : Z;
  now : Z;
  nowCleanup : Z
}.

Definition call (c : Call) (st : State) : RateLimitResult * State :=
  checkRateLimit (identifier c) (maxRequests c) (windowMs c)
                 (now c) (nowCleanup c) st.

Definition callNoSweep (c : Call) (st : State) : RateLimitResult * State :=
  checkRateLimitNoSweep (identifier c) (maxRequests c) (windowMs c) (now c) st.

(** A sequence of calls, each starting from the state the previous one
    left. *)
Fixpoint runWith (f : Call -> State -> RateLimitResult * State)
    (cs : list Call) (st : State) : list RateLimitResult * State :=
  match cs with
  | [] => ([], st)
  | c :: cs' =>
      let '(r, st1) := f c st in
      let '(rs, st2) := runWith f cs' st1 in
      (r :: rs, st2)
  end.

Definition run := runWith call.
Definition runNoSweep := runWith callNoSweep.

(** The clock reads of a sequence of calls never go back, starting from
    the read [t]. *)
Fixpoint clockMonotone (t : Z) (cs : list Call) : Prop :=
  match cs with
  | [] => True
  | c :: cs' => t <= now c /\ now c <= nowCleanup c /\ clockMonotone (nowCleanup c) cs'
  end.

(** [getClientIdentifier] reads the request through [headers.get]. *)
Definition truthy (h : option jsstring) : option jsstring :=
  match h with
  | Some (c :: s) => Some (c :: s)
  | _ => None
  end.

(** [s.split(comma)[0]] *)
Fixpoint beforeComma (s : jsstring) : jsstring :=
  match s with
  | [] => []
  | c :: s' => if (c =? 44)%N then [] else c :: beforeComma s'
  end.

Definition getClientIdentifier (headers_get : jsstring -> option jsstring)
  : jsstring :=
  match truthy (headers_get (js "x-forwarded-for")) with
  | Some xForwardedFor => trim (beforeComma xForwardedFor)
  | None =>
      match truthy (headers_get (js "x-real-ip")) with
      | Some xRealIp => xRealIp
      | None =>
          match truthy (headers_get (js "cf-connecting-ip")) with
          | Some cfConnectingIp => cfConnectingIp
          | None => js "unknown"
          end
      end
  end.

End RateLimit.
Export RateLimit.

(** ** JSON values, as [JSON.parse] and [request.json()] deliver them *)

Module Json.

(** A JSON number is kept as a rational: every finite double is one. *)
Abbreviation number := Q.

#[local] Set Warnings "-register-all".
Inductive json :=
| JNull
| JBool (b : bool)
| JNumber (n : number)
| JString (s : jsstring)
| JArray (items : list json)
| JObject (members : list (jsstring * json)).

(** [o[key]]: [None] is [undefined]. *)
Fixpoint member (key : jsstring) (members : list (jsstring * json))
  : option json :=
  match members with
  | [] => None
  | (k, v) :: rest => if decide (k = key) then Some v else member key rest
  end.

(** What a failing computation throws or hands back. *)
Inductive result (E A : Type) :=
| Ok (a : A)
| Err (e : E).
Arguments Ok {E A} a.
Arguments Err {E A} e.

End Json.
Export Json.

(** ** The part of zod that [app/lib/schema.ts] uses *)

Module Zod.

Inductive PathSegment := Key (k : jsstring) | Index (i : nat).

Inductive IssueCode := invalid_type | invalid_enum_value | too_small.

Record ZodIssue := { code : IssueCode; path : list PathSegment }.

(** [schema.safeParse]: the parsed value or every issue found. *)
Definition Parsed (A : Type) := result (list ZodIssue) A.

Definition issues {A} (p : Parsed A) : list ZodIssue :=
  match p with Ok _ => [] | Err l => l end.

(** An object schema checks every field and reports all their issues. *)
Definition ap {A B} (f : Parsed (A -> B)) (x : Parsed A) : Parsed B :=
  match f, x with
  | Ok g, Ok a => Ok (g a)
  | _, _ => Err (issues f ++ issues x)
  end.

Definition Schema (A : Type) := list PathSegment -> option json -> Parsed A.

Definition string_ : Schema jsstring := fun path v =>
  match v with
  | Some (JString s) => Ok s
  | _ => Err [ {| code := invalid_type; path := path |} ]
  end.

(** [z.string().trim().min(1, ...)] *)
Definition trimmedNonEmpty : Schema jsstring := fun path v =>
  match string_ path v with
  | Ok s =>
      match trim s with
      | [] => Err [ {| code := too_small; path := path |} ]
      | t => Ok t
      end
  | Err l => Err l
  end.

Definition number_ : Schema number := fun path v =>
  match v with
  | Some (JNumber n) => Ok n
  | _ => Err [ {| code := invalid_type; path := path |} ]
  end.

Definition boolean_ : Schema bool := fun path v =>
  match v with
  | Some (JBool b) => Ok b
  | _ => Err [ {| code := invalid_type; path := path |} ]
  end.

Fixpoint lookupOption {A} (s : jsstring) (options : list (jsstring * A))
  : option A :=
  match options with
  | [] => None
  | (k, a) :: rest => if decide (k = s) then Some a else lookupOption s rest
  end.

Definition enum_ {A} (options : list (jsstring * A)) : Schema A := fun path v =>
  match v with
  | Some (JString s) =>
      match lookupOption s options with
      | Some a => Ok a
      | None => Err [ {| code := invalid_enum_value; path := path |} ]
      end
  | _ => Err [ {| code := invalid_type; path := path |} ]
  end.

Definition optional {A} (inner : Schema A) : Schema (option A) := fun path v =>
  match v with
  | None => Ok None
  | Some _ => ap (Ok Some) (inner path v)
  end.

Fixpoint elements {A} (inner : Schema A) (path : list PathSegment)
    (i : nat) (items : list json) : Parsed (list A) :=
  match items with
  | [] => Ok []
  | x :: rest =>
      ap (ap (Ok cons) (inner (path ++ [Index i]) (Some x)))
         (elements inner path (S i) rest)
  end.

Definition array {A} (inner : Schema A) : Schema (list A) := fun path v =>
  match v with
  | Some (JArray items) => elements inner path 0%nat items
  | _ => Err [ {| code := invalid_type; path := path |} ]
  end.

(** The field [key] of an object schema. *)
Definition field {A} (inner : Schema A) (path : list PathSegment)
    (members : list (jsstring * json)) (key : string) : Parsed A :=
  inner (path ++ [Key (js key)]) (member (js key) members).

End Zod.
Export Zod.

(** ** [app/lib/schema.ts] *)

Module Schema.

Inductive ExperienceLevel := beginner | intermediate | advanced.
Inductive TimeAvailability := hours_3_5 | hours_5_10 | hours_10_plus.

Record GeneratePlanPayload := {
  projectGoal : jsstring;
  experienceLevel : ExperienceLevel;
  timeAvailability : TimeAvailability;
  deadline : option jsstring;
  regenerate : option bool
}.

Definition generatePlanPayloadSchema : Schema GeneratePlanPayload :=
  fun path v =>
    match v with
    | Some (JObject o) =>
        ap (ap (ap (ap (ap (Ok Build_GeneratePlanPayload)
          (field trimmedNonEmpty path o "projectGoal"))
          (field (enum_ [(js "beginner", beginner);
                         (js "intermediate", intermediate);
                         (js "advanced", advanced)]) path o "experienceLevel"))
          (field (enum_ [(js "3-5", hours_3_5);
                         (js "5-10", hours_5_10);
                         (js "10+", hours_10_plus)]) path o "timeAvailability"))
          (field (optional string_) path o "deadline"))
          (field (optional boolean_) path o "regenerate")
    | _ => Err [ {| code := invalid_type; path := path |} ]
    end.

Inductive TaskStatus := not_started | in_progress | completed.

Definition taskStatusSchema : Schema TaskStatus :=
  enum_ [(js "not_started", not_started);
         (js "in_progress", in_progress);
         (js "completed", completed)].

Module Task.
Record t := mk {
  id : number;
  title : jsstring;
  status : TaskStatus;
  serial : number
}.
End Task.

Definition taskSchema : Schema Task.t := fun path v =>
  match v with
  | Some (JObject o) =>
      ap (ap (ap (ap (Ok Task.mk)
        (field number_ path o "id"))
        (field string_ path o "title"))
        (field taskStatusSchema path o "status"))
        (field number_ path o "serial")
  | _ => Err [ {| code := invalid_type; path := path |} ]
  end.

Module Phase.
Record t := mk {
  name : jsstring;
  tasks : list Task.t;
  serial : number
}.
End Phase.

Definition phaseSchema : Schema Phase.t := fun path v =>
  match v with
  | Some (JObject o) =>
      ap (ap (ap (Ok Phase.mk)
        (field string_ path o "name"))
        (field (array taskSchema) path o "tasks"))
        (field number_ path o "serial")
  | _ => Err [ {| code := invalid_type; path := path |} ]
  end.

Record ProjectPlan := {
  goal : jsstring;
  phases : list Phase.t
}.

Definition projectPlanSchema : Schema ProjectPlan := fun path v =>
  match v with
  | Some (JObject o) =>
      ap (ap (Ok Build_ProjectPlan)
        (field string_ path o "goal"))
        (field (array phaseSchema) path o "phases")
    | _ => Err [ {| code := invalid_type; path := path |} ]
  end.

(** [requestSchema] of [api.plans.explain.ts]. *)
Record ExplainRequest := {
  query : GeneratePlanPayload;
  plan : ProjectPlan
}.

Definition requestSchema : Schema ExplainRequest := fun path v =>
  match v with
  | Some (JObject o) =>
      ap (ap (Ok Build_ExplainRequest)
        (field generatePlanPayloadSchema path o "query"))
        (field projectPlanSchema path o "plan")
  | _ => Err [ {| code := invalid_type; path := path |} ]
  end.

(** [schema.parse(value)]: the root has the empty path. *)
Definition parse {A} (schema : Schema A) (value : json) : Parsed A :=
  schema [] (Some value).

End Schema.
Export Schema.

(** ** The normalization step of [api.plans.generate.ts] *)

Module Normalize.

(** [index + 1] on an array index. *)
Definition indexPlusOne (index : nat) : number :=
  inject_Z (Z.of_nat index + 1).

Definition normalizeTask (taskIndex : nat) (task : Task.t) : Task.t :=
  {| Task.id := Task.id task;
     Task.title := Task.title task;
     Task.serial := indexPlusOne taskIndex;
     Task.status := not_started |}.

Definition normalizePhase (phaseIndex : nat) (phase : Phase.t) : Phase.t :=
  {| Phase.name := Phase.name phase;
     Phase.serial := indexPlusOne phaseIndex;
     Phase.tasks :=
       imap normalizeTask (take MAX_TASKS_PER_PHASE (Phase.tasks phase)) |}.

(** [plan.phases = plan.phases.slice(0, MAX_PHASES).map(...)]. *)
Definition normalizePlan (plan : ProjectPlan) : ProjectPlan :=
  {| goal := goal plan;
     phases := imap normalizePhase (take MAX_PHASES (phases plan)) |}.

End Normalize.
Export Normalize.

(** ** What the handlers take from the platform and from their libraries *)

Module Platform.

(** Thrown values, by what the [catch] blocks tell apart. *)
Inductive exn :=
| ZodError (issues : list ZodIssue)
    (* [instanceof ZodError] *)
| StatusError (status : option Z) (message : option jsstring)
    (* an object with a [status] property: the errors of the OpenAI client *)
| Error (message : jsstring).
    (* any other [Error]: [SyntaxError], [RangeError], [new Error(...)] *)

Inductive Model := gpt_3_5_turbo | gpt_4 | gpt_4o | gpt_4o_mini.

(** The values that the generation prompt interpolates into its fixed
    text. *)
Record GeneratePrompt := {
  rawUserGoal : jsstring;
  promptExperienceLevel : ExperienceLevel;
  promptTimeAvailability : TimeAvailability;
  promptDeadline : jsstring
}.

(** An event of the streamed response: [delta] is the text of a
    [response.output_text.delta] event, [None] for every other type. *)
Record StreamEvent := { delta : option jsstring }.

Record Platform := {
  (** [JSON.parse]: the value, or the message of the [SyntaxError]. *)
  JSON_parse : jsstring -> result jsstring json;
  (** [error.message] of a [ZodError]. *)
  ZodError_message : list ZodIssue -> jsstring;
  (** [new Date(s).toISOString()]; [None] when it throws [RangeError]. *)
  Date_toISOString : jsstring -> option jsstring;
  (** [new OpenAI({ apiKey, timeout: 30000, maxRetries: 2 })]: what the
      constructor throws for the key, [None] when it builds the client,
      through which the two calls below go. *)
  new_OpenAI : jsstring -> option exn;
  (** [client.responses.create] without streaming: [output_text], or the
      error thrown once the retries are used up. *)
  responses_create : Model -> GeneratePrompt -> result exn jsstring;
  (** [client.responses.create] with [stream: true]: the events received
      and the error that ended the iteration, if one did. *)
  responses_stream :
    Model -> ExplainRequest -> result exn (list StreamEvent * option exn)
}.

(** [String(n)] for an integer. *)
Definition String_ (n : Z) : jsstring := js (NilZero.string_of_int (Z.to_int n)).

(** A request, as far as the handlers read it. *)
Record Request := {
  method : jsstring;
  headers_get : jsstring -> option jsstring;
  requestBody : jsstring
}.

Inductive Body :=
| PlanBody (plan : ProjectPlan)
    (* the plan as JSON *)
| FailureBody (message : jsstring) (errors : option (list ZodIssue))
    (* [{ success: false, message }], with [errors] when given *)
| StreamBody (chunks : list jsstring) (error : option exn).
    (* the chunks enqueued, then [close()] or [error(e)] *)

Record Response := {
  status : Z;
  headers : list (jsstring * jsstring);
  body : Body
}.

(** How a call of a handler ends. *)
Inductive Outcome :=
| Returned (response : Response)
| Thrown (error : exn).

Definition bind {E A B} (x : result E A) (f : A -> result E B) : result E B :=
  match x with
  | Ok a => f a
  | Err e => Err e
  end.

Definition mapErr {E F A} (f : E -> F) (x : result E A) : result F A :=
  match x with
  | Ok a => Ok a
  | Err e => Err (f e)
  end.

End Platform.
Export Platform.

Notation "x <- e1 ;; e2" := (Platform.bind e1 (fun x => e2))
  (at level 100, e1 at next level, right associativity).

(** ** [lib.server/config.ts] *)

Module Config.

(** [process.env], as the object that [envSchema] inspects. *)
Definition processEnvObject (env : list (jsstring * jsstring)) : json :=
  JObject (map (fun kv => (kv.1, JString kv.2)) env).

Record Env := { OPENAI_API_KEY : jsstring; OPENAI_MODEL : Model }.

Definition envSchema : Schema Env := fun path v =>
  match v with
  | Some (JObject o) =>
      ap (ap (Ok Build_Env)
        (field string_ path o "OPENAI_API_KEY"))
        (field (enum_ [(js "gpt-3.5-turbo", gpt_3_5_turbo);
                       (js "gpt-4", gpt_4);
                       (js "gpt-4o", gpt_4o);
                       (js "gpt-4o-mini", gpt_4o_mini)]) path o "OPENAI_MODEL")
  | _ => Err [ {| code := invalid_type; path := path |} ]
  end.

Definition getConfig (P : Platform) (env : list (jsstring * jsstring))
  : result exn Env :=
  match parse envSchema (processEnvObject env) with
  | Ok data => Ok data
  | Err issues =>
      Err (Error (js "Invalid environment variables: " ++ ZodError_message P issues))
  end.

End Config.
Export Config.

(** ** Response recovery of [api.plans.generate.ts] *)

Module Recovery.

Definition fence : jsstring := [96; 96; 96]%N.

(** [.replace(/^```(?:json)?\s*\n?/, empty)] *)
Definition stripOpeningFence (s : jsstring) : jsstring :=
  if startsWith fence s then
    let s := drop 3 s in
    let s := if startsWith (js "json") s then drop 4 s else s in
    dropWhile isWhiteSpace s
  else s.

(** The three backticks, then whitespace up to the end of the input. *)
Definition fenceToEnd (s : jsstring) : bool :=
  startsWith fence s && forallb isWhiteSpace (drop 3 s).

(** Whether [/\n?```\s*$/] matches at the start of [s]. *)
Definition closingFenceHere (s : jsstring) : bool :=
  match s with
  | 10%N :: s' => fenceToEnd s'
  | _ => fenceToEnd s
  end.

(** [.replace(/\n?```\s*$/, empty)]: the leftmost match goes. *)
Fixpoint stripClosingFence (s : jsstring) : jsstring :=
  if closingFenceHere s then []
  else
    match s with
    | [] => []
    | c :: s' => c :: stripClosingFence s'
    end.

Definition cleanResponse (aiResponse : jsstring) : jsstring :=
  trim (stripClosingFence (stripOpeningFence (trim aiResponse))).

(** The calls of the logger in this step. *)
Inductive LogEntry :=
| WarnDirectParseFailed
| InfoRecoveredFromMarkdown
| ErrorParseFailedAfterFallback (parseError : jsstring)
| ErrorRawAiResponse (aiResponse : jsstring).

Definition parseAiResponse (P : Platform) (aiResponse : jsstring)
  : list LogEntry * result exn json :=
  match JSON_parse P aiResponse with
  | Ok parsedResponse => ([], Ok parsedResponse)
  | Err parseError =>
      match JSON_parse P (cleanResponse aiResponse) with
      | Ok parsedResponse =>
          ([WarnDirectParseFailed; InfoRecoveredFromMarkdown], Ok parsedResponse)
      | Err _ =>
          ([WarnDirectParseFailed;
            ErrorParseFailedAfterFallback parseError;
            ErrorRawAiResponse aiResponse],
           Err (Error (js "Failed to parse AI response as JSON: " ++ parseError)))
      end
  end.

End Recovery.
Export Recovery.

(** ** [app/routes/api.plans.generate.ts] *)

Module Generate.

Definition rateLimitedResponse (rateLimit : RateLimitResult) : Response :=
  {| status := 429;
     headers :=
       [(js "Retry-After", String_ (RateLimitResult.resetIn rateLimit));
        (js "X-RateLimit-Limit", String_ RATE_LIMIT.GENERATE_PLAN.MAX);
        (js "X-RateLimit-Remaining", js "0");
        (js "X-RateLimit-Reset", String_ (RateLimitResult.resetAt rateLimit / 1000))];
     body :=
       FailureBody
         (js "Too many requests. Please try again in "
            ++ String_ (RateLimitResult.resetIn rateLimit) ++ js " seconds.")
         None |}.

Definition methodNotAllowed : Response :=
  {| status := 405; headers := [];
     body := FailureBody (js "Method not allowed") None |}.

(** The [Deadline] line of the prompt. *)
Definition deadlineText (P : Platform) (deadline : option jsstring)
  : result exn jsstring :=
  match deadline with
  | Some (c :: d) =>
      match Date_toISOString P (c :: d) with
      | Some iso => Ok iso
      | None => Err (Error (js "Invalid time value"))
      end
  | _ => Ok (js "No deadline")
  end.

(** The body of the [try] block: the normalized plan, or what it throws. *)
Definition tryBlock (P : Platform) (request : Request) (config : Env)
  : result exn ProjectPlan :=
  payload <- mapErr Error (JSON_parse P (requestBody request)) ;;
  validatedData <- mapErr ZodError (parse generatePlanPayloadSchema payload) ;;
  let sanitizedGoal := sanitizeString (projectGoal validatedData) defaultMaxLength in
  deadline <- deadlineText P (deadline validatedData) ;;
  let prompt :=
    {| rawUserGoal := sanitizedGoal;
       promptExperienceLevel := experienceLevel validatedData;
       promptTimeAvailability := timeAvailability validatedData;
       promptDeadline := deadline |} in
  aiResponse <- responses_create P (OPENAI_MODEL config) prompt ;;
  match aiResponse with
  | [] => Err (Error (js "AI did not return any content"))
  | _ =>
      parsedResponse <- (parseAiResponse P aiResponse).2 ;;
      plan <- mapErr ZodError (parse projectPlanSchema parsedResponse) ;;
      Ok (normalizePlan plan)
  end.

(** [issue.path[0]] is one of the four field names. *)
Definition isInputIssue (issue : ZodIssue) : bool :=
  match path issue with
  | Key k :: _ =>
      bool_decide (k = js "projectGoal") || bool_decide (k = js "experienceLevel")
      || bool_decide (k = js "timeAvailability") || bool_decide (k = js "deadline")
  | _ => false
  end.

(** The [catch] block. *)
Definition catchBlock (error : exn) : Response :=
  match error with
  | ZodError issues =>
      let isInputValidation := existsb isInputIssue issues in
      if isInputValidation then
        {| status := 400; headers := [];
           body := FailureBody
                     (js "Invalid input data. Please check your form fields.")
                     (Some issues) |}
      else
        {| status := 500; headers := [];
           body := FailureBody
                     (js "AI generated an invalid response. Please try again.")
                     (Some issues) |}
  | StatusError status message =>
      {| status := if bool_decide (status = Some 429) then 429 else 500;
         headers := [];
         body := FailureBody
                   (js "OpenAI API error: "
                      ++ match message with
                         | Some (c :: m) => c :: m
                         | _ => js "Unknown error"
                         end)
                   None |}
  | Error errorMessage =>
      {| status := 500; headers := [];
         body := FailureBody (js "Failed to generate plan: " ++ errorMessage) None |}
  end.

(** The rate-limit check that opens the handler. *)
Definition rateLimitCheck (request : Request) (now nowCleanup : Z) (st : State)
  : RateLimitResult * State :=
  checkRateLimit (getClientIdentifier (headers_get request))
    RATE_LIMIT.GENERATE_PLAN.MAX RATE_LIMIT.GENERATE_PLAN.WINDOW_MS
    now nowCleanup st.

(** [getConfig()] and [new OpenAI(...)] are called before the [try] block:
    what they throw leaves the handler. *)
Definition action (P : Platform) (env : list (jsstring * jsstring))
    (request : Request) (now nowCleanup : Z) (st : State) : Outcome * State :=
  let '(rateLimit, st) := rateLimitCheck request now nowCleanup st in
  if negb (RateLimitResult.allowed rateLimit) then
    (Returned (rateLimitedResponse rateLimit), st)
  else if negb (bool_decide (method request = js "POST")) then
    (Returned methodNotAllowed, st)
  else
    match getConfig P env with
    | Err e => (Thrown e, st)
    | Ok config =>
        match new_OpenAI P (OPENAI_API_KEY config) with
        | Some e => (Thrown e, st)
        | None =>
            match tryBlock P request config with
            | Ok plan =>
                (Returned {| status := 200; headers := []; body := PlanBody plan |},
                 st)
            | Err error => (Returned (catchBlock error), st)
            end
        end
    end.

End Generate.

(** ** [app/routes/api.plans.explain.ts] *)

Module Explain.

(** The chunks that [start(controller)] enqueues: the non-empty text of the
    delta events. *)
Definition relay (events : list StreamEvent) : list jsstring :=
  omap (fun chunk =>
          match delta chunk with
          | Some (c :: content) => Some (c :: content)
          | _ => None
          end) events.

Definition tryBlock (P : Platform) (request : Request) (config : Env)
  : result exn Response :=
  payload <- mapErr Error (JSON_parse P (requestBody request)) ;;
  validatedData <- mapErr ZodError (parse requestSchema payload) ;;
  stream <- responses_stream P (OPENAI_MODEL config) validatedData ;;
  Ok {| status := 200;
        headers := [(js "Content-Type", js "text/plain; charset=utf-8");
                    (js "Cache-Control", js "no-cache");
                    (js "X-Content-Type-Options", js "nosniff")];
        body := StreamBody (relay stream.1) stream.2 |}.

Definition catchBlock (error : exn) : Response :=
  match error with
  | ZodError issues =>
      {| status := 400; headers := [];
         body := FailureBody (js "Invalid request data") (Some issues) |}
  | _ =>
      {| status := 500; headers := [];
         body := FailureBody (js "Failed to explain plan") None |}
  end.

Definition rateLimitCheck (request : Request) (now nowCleanup : Z) (st : State)
  : RateLimitResult * State :=
  checkRateLimit (getClientIdentifier (headers_get request))
    RATE_LIMIT.EXPLAIN_PLAN.MAX RATE_LIMIT.EXPLAIN_PLAN.WINDOW_MS
    now nowCleanup st.

Definition rateLimitedResponse (rateLimit : RateLimitResult) : Response :=
  {| status := 429;
     headers :=
       [(js "Retry-After", String_ (RateLimitResult.resetIn rateLimit));
        (js "X-RateLimit-Limit", String_ RATE_LIMIT.EXPLAIN_PLAN.MAX);
        (js "X-RateLimit-Remaining", js "0");
        (js "X-RateLimit-Reset", String_ (RateLimitResult.resetAt rateLimit / 1000))];
     body :=
       FailureBody
         (js "Too many requests. Please try again in "
            ++ String_ (RateLimitResult.resetIn rateLimit) ++ js " seconds.")
         None |}.

Definition methodNotAllowed : Response :=
  {| status := 405; headers := [];
     body := FailureBody (js "Method not allowed") None |}.

(** As in the generation handler, [getConfig()] and [new OpenAI(...)] stand
    before the [try] block. *)
Definition action (P : Platform) (env : list (jsstring * jsstring))
    (request : Request) (now nowCleanup : Z) (st : State) : Outcome * State :=
  let '(rateLimit, st) := rateLimitCheck request now nowCleanup st in
  if negb (RateLimitResult.allowed rateLimit) then
    (Returned (rateLimitedResponse rateLimit), st)
  else if negb (bool_decide (method request = js "POST")) then
    (Returned methodNotAllowed, st)
  else
    match getConfig P env with
    | Err e => (Thrown e, st)
    | Ok config =>
        match new_OpenAI P (OPENAI_API_KEY config) with
        | Some e => (Thrown e, st)
        | None =>
            match tryBlock P request config with
            | Ok response => (Returned response, st)
            | Err error => (Returned (catchBlock error), st)
            end
        end
    end.

End Explain.

(** ** A reader of JSON texts

    [JSON.parse] belongs to the platform; the handlers take it through
    [Platform].  To run them on concrete texts this module supplies a reader
    of the JSON grammar (ECMA-404): one step per code unit, with the open
    arrays and objects on a stack. *)

Module JsonText.

Definition isJsonSpace (c : N) : bool :=
  ((c =? 32) || (c =? 9) || (c =? 10) || (c =? 13))%N.

Definition isDigit (c : N) : bool := ((48 <=? c) && (c <=? 57))%N.

Definition digitValue (c : N) : Z := Z.of_N c - 48.

Definition hexValue (c : N) : option N :=
  if isDigit c then Some (c - 48)%N
  else if ((97 <=? c) && (c <=? 102))%N then Some (c - 87)%N
  else if ((65 <=? c) && (c <=? 70))%N then Some (c - 55)%N
  else None.

(** The value of a member replaces an earlier one of the same key. *)
Fixpoint setMember (key : jsstring) (v : json) (members : list (jsstring * json))
  : list (jsstring * json) :=
  match members with
  | [] => [(key, v)]
  | (k, w) :: rest =>
      if decide (k = key) then (k, v) :: rest else (k, w) :: setMember key v rest
  end.

Inductive Frame :=
| ArrayFrame (items : list json)
    (* an open array and its items so far, last first *)
| ObjectFrame (members : list (jsstring * json))
    (* an open object between members *)
| MemberFrame (members : list (jsstring * json)) (key : jsstring).
    (* an open object while the value of [key] is read *)

Inductive Literal := LNull | LTrue | LFalse.

Definition literalText (l : Literal) : jsstring :=
  match l with
  | LNull => js "null"
  | LTrue => js "true"
  | LFalse => js "false"
  end.

Definition literalValue (l : Literal) : json :=
  match l with
  | LNull => JNull
  | LTrue => JBool true
  | LFalse => JBool false
  end.

Inductive NumPhase :=
| AfterMinus | AfterZero | IntDigits | AfterDot | FracDigits
| AfterE | AfterESign | ExpDigits.

Record Num := {
  negative : bool;
  mantissa : Z;
  fractionDigits : Z;
  expNegative : bool;
  exponent : Z
}.

Definition numValue (n : Num) : number :=
  let m := if negative n then - mantissa n else mantissa n in
  let e := (if expNegative n then - exponent n else exponent n) - fractionDigits n in
  if 0 <=? e then inject_Z (m * 10 ^ e)
  else Qmake m (Z.to_pos (10 ^ (- e))).

Definition numComplete (phase : NumPhase) : bool :=
  match phase with
  | AfterZero | IntDigits | FracDigits | ExpDigits => true
  | _ => false
  end.

Inductive Mode :=
| ExpectValue (orClose : bool)
    (* before a value; right after an opening bracket also before the closing one *)
| ExpectKey (orClose : bool)
    (* before a key; right after an opening brace also before the closing one *)
| InString (isKey : bool) (chars : jsstring)
    (* inside a string, its code units so far, last first *)
| InEscape (isKey : bool) (chars : jsstring)
| InUnicode (isKey : bool) (chars : jsstring) (count : nat) (value : N)
| ExpectColon (key : jsstring)
| InLiteral (l : Literal) (position : nat)
| InNumber (phase : NumPhase) (n : Num)
| AfterValue (v : json).

Definition ReaderState : Type := Mode * list Frame.

Definition startValue (c : N) (stack : list Frame) : option ReaderState :=
  if (c =? 34)%N then Some (InString false [], stack)
  else if (c =? 91)%N then Some (ExpectValue true, ArrayFrame [] :: stack)
  else if (c =? 123)%N then Some (ExpectKey true, ObjectFrame [] :: stack)
  else if (c =? 110)%N then Some (InLiteral LNull 1, stack)
  else if (c =? 116)%N then Some (InLiteral LTrue 1, stack)
  else if (c =? 102)%N then Some (InLiteral LFalse 1, stack)
  else if (c =? 45)%N then
    Some (InNumber AfterMinus
            {| negative := true; mantissa := 0; fractionDigits := 0;
               expNegative := false; exponent := 0 |}, stack)
  else if (c =? 48)%N then
    Some (InNumber AfterZero
            {| negative := false; mantissa := 0; fractionDigits := 0;
               expNegative := false; exponent := 0 |}, stack)
  else if isDigit c then
    Some (InNumber IntDigits
            {| negative := false; mantissa := digitValue c; fractionDigits := 0;
               expNegative := false; exponent := 0 |}, stack)
  else None.

(** The code unit [c] after the complete value [v]. *)
Definition afterValue (v : json) (stack : list Frame) (c : N)
  : option ReaderState :=
  if isJsonSpace c then Some (AfterValue v, stack)
  else
    match stack with
    | ArrayFrame items :: stack' =>
        if (c =? 44)%N then Some (ExpectValue false, ArrayFrame (v :: items) :: stack')
        else if (c =? 93)%N then Some (AfterValue (JArray (rev (v :: items))), stack')
        else None
    | MemberFrame members key :: stack' =>
        if (c =? 44)%N then
          Some (ExpectKey false, ObjectFrame (setMember key v members) :: stack')
        else if (c =? 125)%N then
          Some (AfterValue (JObject (setMember key v members)), stack')
        else None
    | _ => None
    end.

Definition endString (isKey : bool) (chars : jsstring) (stack : list Frame)
  : ReaderState :=
  if isKey then (ExpectColon (rev chars), stack)
  else (AfterValue (JString (rev chars)), stack).

Definition escaped (c : N) : option N :=
  if (c =? 34)%N then Some 34%N
  else if (c =? 92)%N then Some 92%N
  else if (c =? 47)%N then Some 47%N
  else if (c =? 98)%N then Some 8%N
  else if (c =? 102)%N then Some 12%N
  else if (c =? 110)%N then Some 10%N
  else if (c =? 114)%N then Some 13%N
  else if (c =? 116)%N then Some 9%N
  else None.

Definition addDigit (n : Num) (c : N) : Num :=
  {| negative := negative n; mantissa := mantissa n * 10 + digitValue c;
     fractionDigits := fractionDigits n;
     expNegative := expNegative n; exponent := exponent n |}.

Definition addFractionDigit (n : Num) (c : N) : Num :=
  {| negative := negative n; mantissa := mantissa n * 10 + digitValue c;
     fractionDigits := fractionDigits n + 1;
     expNegative := expNegative n; exponent := exponent n |}.

Definition addExponentDigit (n : Num) (c : N) : Num :=
  {| negative := negative n; mantissa := mantissa n;
     fractionDigits := fractionDigits n;
     expNegative := expNegative n; exponent := exponent n * 10 + digitValue c |}.

Definition setExpNegative (n : Num) : Num :=
  {| negative := negative n; mantissa := mantissa n;
     fractionDigits := fractionDigits n;
     expNegative := true; exponent := exponent n |}.

Definition isE (c : N) : bool := ((c =? 101) || (c =? 69))%N.

Definition stepNumber (phase : NumPhase) (n : Num) (stack : list Frame) (c : N)
  : option ReaderState :=
  let finished := afterValue (JNumber (numValue n)) stack c in
  match phase with
  | AfterMinus =>
      if (c =? 48)%N then Some (InNumber AfterZero n, stack)
      else if isDigit c then Some (InNumber IntDigits (addDigit n c), stack)
      else None
  | AfterZero =>
      if (c =? 46)%N then Some (InNumber AfterDot n, stack)
      else if isE c then Some (InNumber AfterE n, stack)
      else finished
  | IntDigits =>
      if isDigit c then Some (InNumber IntDigits (addDigit n c), stack)
      else if (c =? 46)%N then Some (InNumber AfterDot n, stack)
      else if isE c then Some (InNumber AfterE n, stack)
      else finished
  | AfterDot =>
      if isDigit c then Some (InNumber FracDigits (addFractionDigit n c), stack)
      else None
  | FracDigits =>
      if isDigit c then Some (InNumber FracDigits (addFractionDigit n c), stack)
      else if isE c then Some (InNumber AfterE n, stack)
      else finished
  | AfterE =>
      if (c =? 43)%N then Some (InNumber AfterESign n, stack)
      else if (c =? 45)%N then Some (InNumber AfterESign (setExpNegative n), stack)
      else if isDigit c then Some (InNumber ExpDigits (addExponentDigit n c), stack)
      else None
  | AfterESign =>
      if isDigit c then Some (InNumber ExpDigits (addExponentDigit n c), stack)
      else None
  | ExpDigits =>
      if isDigit c then Some (InNumber ExpDigits (addExponentDigit n c), stack)
      else finished
  end.

Definition step (q : ReaderState) (c : N) : option ReaderState :=
  let '(mode, stack) := q in
  match mode with
  | ExpectValue orClose =>
      if isJsonSpace c then Some q
      else if orClose && (c =? 93)%N then
        match stack with
        | ArrayFrame [] :: stack' => Some (AfterValue (JArray []), stack')
        | _ => None
        end
      else startValue c stack
  | ExpectKey orClose =>
      if isJsonSpace c then Some q
      else if (c =? 34)%N then Some (InString true [], stack)
      else if orClose && (c =? 125)%N then
        match stack with
        | ObjectFrame members :: stack' => Some (AfterValue (JObject members), stack')
        | _ => None
        end
      else None
  | InString isKey chars =>
      if (c =? 34)%N then Some (endString isKey chars stack)
      else if (c =? 92)%N then Some (InEscape isKey chars, stack)
      else if (c <? 32)%N then None
      else Some (InString isKey (c :: chars), stack)
  | InEscape isKey chars =>
      if (c =? 117)%N then Some (InUnicode isKey chars 0 0, stack)
      else
        match escaped c with
        | Some e => Some (InString isKey (e :: chars), stack)
        | None => None
        end
  | InUnicode isKey chars count value =>
      match hexValue c with
      | Some h =>
          let value := (value * 16 + h)%N in
          if (count =? 3)%nat then Some (InString isKey (value :: chars), stack)
          else Some (InUnicode isKey chars (S count) value, stack)
      | None => None
      end
  | ExpectColon key =>
      if isJsonSpace c then Some q
      else if (c =? 58)%N then
        match stack with
        | ObjectFrame members :: stack' =>
            Some (ExpectValue false, MemberFrame members key :: stack')
        | _ => None
        end
      else None
  | InLiteral l position =>
      match literalText l !! position with
      | Some expected =>
          if (c =? expected)%N then
            if (S position =? length (literalText l))%nat
            then Some (AfterValue (literalValue l), stack)
            else Some (InLiteral l (S position), stack)
          else None
      | None => None
      end
  | InNumber phase n => stepNumber phase n stack c
  | AfterValue v => afterValue v stack c
  end.

Fixpoint feed (q : ReaderState) (text : jsstring) : option ReaderState :=
  match text with
  | [] => Some q
  | c :: text' =>
      match step q c with
      | Some q' => feed q' text'
      | None => None
      end
  end.

(** The end of the text. *)
Definition finish (q : ReaderState) : result jsstring json :=
  match q with
  | (AfterValue v, []) => Ok v
  | (InNumber phase n, []) =>
      if numComplete phase then Ok (JNumber (numValue n))
      else Err (js "Unexpected end of JSON input")
  | _ => Err (js "Unexpected end of JSON input")
  end.

Definition start : ReaderState := (ExpectValue false, []).

Definition readJson (text : jsstring) : result jsstring json :=
  match feed start text with
  | Some q => finish q
  | None => Err (js "Unexpected token in JSON")
  end.

End JsonText.

Export JsonText.

(** ** [JSON.stringify] on the values of the schemas' types

    The JSON value that [JSON.parse] reads back from what [JSON.stringify]
    wrote: an object with the properties in the order in which the schema
    lists them; a property that is [undefined] is left out. *)

Module Wire.

Definition experienceLevelName (level : ExperienceLevel) : jsstring :=
  match level with
  | beginner => js "beginner"
  | intermediate => js "intermediate"
  | advanced => js "advanced"
  end.

Definition timeAvailabilityName (time : TimeAvailability) : jsstring :=
  match time with
  | hours_3_5 => js "3-5"
  | hours_5_10 => js "5-10"
  | hours_10_plus => js "10+"
  end.

Definition taskStatusName (status : TaskStatus) : jsstring :=
  match status with
  | not_started => js "not_started"
  | in_progress => js "in_progress"
  | completed => js "completed"
  end.

Definition optionalMember {A} (key : string) (f : A -> json) (v : option A)
  : list (jsstring * json) :=
  match v with
  | Some a => [(js key, f a)]
  | None => []
  end.

Definition payloadJson (payload : GeneratePlanPayload) : json :=
  JObject
    ([(js "projectGoal", JString (projectGoal payload));
      (js "experienceLevel",
       JString (experienceLevelName (experienceLevel payload)));
      (js "timeAvailability",
       JString (timeAvailabilityName (timeAvailability payload)))]
     ++ optionalMember "deadline" JString (deadline payload)
     ++ optionalMember "regenerate" JBool (regenerate payload)).

Definition taskJson (task : Task.t) : json :=
  JObject [(js "id", JNumber (Task.id task));
           (js "title", JString (Task.title task));
           (js "status", JString (taskStatusName (Task.status task)));
           (js "serial", JNumber (Task.serial task))].

Definition phaseJson (phase : Phase.t) : json :=
  JObject [(js "name", JString (Phase.name phase));
           (js "tasks", JArray (map taskJson (Phase.tasks phase)));
           (js "serial", JNumber (Phase.serial phase))].

Definition planJson (plan : ProjectPlan) : json :=
  JObject [(js "goal", JString (goal plan));
           (js "phases", JArray (map phaseJson (phases plan)))].

End Wire.
Export Wire.

(** ** The saved plan of [app/routes/_index.tsx] *)

Module Page.

Record PlanData := {
  plan : ProjectPlan;
  query : GeneratePlanPayload
}.

Definition savedPlanDataSchema : Schema PlanData := fun path v =>
  match v with
  | Some (JObject o) =>
      ap (ap (Ok Build_PlanData)
        (field projectPlanSchema path o "plan"))
        (field generatePlanPayloadSchema path o "query")
  | _ => Err [ {| code := invalid_type; path := path |} ]
  end.

(** [JSON.stringify(planData)], the item that the page saves. *)
Definition planDataJson (planData : PlanData) : json :=
  JObject [(js "plan", planJson (plan planData));
           (js "query", payloadJson (query planData))].

(** The initializer of the page state in the browser: [saved] is what
    [localStorage.getItem] returned, [None] for [null].  The second
    component tells whether the item was removed. *)
Definition loadPlanData (P : Platform) (saved : option jsstring)
  : option PlanData * bool :=
  match truthy saved with
  | Some saved =>
      match JSON_parse P saved with
      | Ok parsed =>
          match parse savedPlanDataSchema parsed with
          | Ok validated => (Some validated, false)
          | Err _ => (None, true)
          end
      | Err _ => (None, true)
      end
  | None => (None, false)
  end.

End Page.

(** ** The request of [callExplainPlanAPI] in [app/hooks/use-explain-plan.ts] *)

Module ExplainClient.


End ExplainClient.

(** ** The plan view of [app/components/project-plan-view.tsx]

    The handlers compute the plan that they pass to [setPlanData] from the
    plan of the current render, whose arrays the render has sorted by
    serial; the indices are those of the rendered arrays. *)

Module PlanView.

Definition statusOrder : list TaskStatus := [not_started; in_progress; completed].

(** [statusOrder.indexOf(status)] *)
Definition indexOf (status : TaskStatus) : nat :=
  match status with
  | not_started => 0
  | in_progress => 1
  | completed => 2
  end.

(** [statusOrder[(currentIndex + 1) % statusOrder.length]]; the index is
    always within the array. *)
Definition nextStatus (status : TaskStatus) : TaskStatus :=
  let currentIndex := indexOf status in
  match statusOrder !! ((currentIndex + 1) mod length statusOrder)%nat with
  | Some next => next
  | None => status
  end.

Definition withStatus (status : TaskStatus) (task : Task.t) : Task.t :=
  {| Task.id := Task.id task; Task.title := Task.title task;
     Task.status := status; Task.serial := Task.serial task |}.

(** The two nested [map]s that [handleStatusChange] and [cycleTaskStatus]
    share: the tasks with the id [taskId] in the phase at [phaseIndex] are
    replaced, everything else is kept. *)
Definition updateTasks (phaseIndex : nat) (taskId : number)
    (update : Task.t -> Task.t) (plan : ProjectPlan) : ProjectPlan :=
  {| goal := goal plan;
     phases :=
       imap (fun pIdx phase =>
               if decide (pIdx = phaseIndex) then
                 {| Phase.name := Phase.name phase;
                    Phase.serial := Phase.serial phase;
                    Phase.tasks :=
                      map (fun task =>
                             if Qeq_bool (Task.id task) taskId
                             then update task else task)
                          (Phase.tasks phase) |}
               else phase)
            (phases plan) |}.

Definition handleStatusChange (phaseIndex : nat) (taskId : number)
    (checked : bool) (plan : ProjectPlan) : ProjectPlan :=
  updateTasks phaseIndex taskId
    (fun task =>
       let newStatus := if checked then completed else not_started in
       withStatus newStatus task)
    plan.

Definition cycleTaskStatus (phaseIndex : nat) (taskId : number)
    (plan : ProjectPlan) : ProjectPlan :=
  updateTasks phaseIndex taskId
    (fun task => withStatus (nextStatus (Task.status task)) task)
    plan.

(** [const [moved] = copy.splice(from, 1); copy.splice(to, 0, moved)] on a
    copy of the array: [None] when there is no element at [from], where
    [moved] is [undefined] and the array gets a hole. *)
Definition spliceIn {A} (index : nat) (x : A) (l : list A) : list A :=
  take index l ++ x :: drop index l.

Definition moveItem {A} (fromIndex toIndex : nat) (l : list A) : option (list A) :=
  match l !! fromIndex with
  | Some moved => Some (spliceIn toIndex moved (delete fromIndex l))
  | None => None
  end.

Definition renumberPhases (l : list Phase.t) : list Phase.t :=
  imap (fun index phase =>
          {| Phase.name := Phase.name phase; Phase.tasks := Phase.tasks phase;
             Phase.serial := indexPlusOne index |}) l.

Definition renumberTasks (l : list Task.t) : list Task.t :=
  imap (fun index task =>
          {| Task.id := Task.id task; Task.title := Task.title task;
             Task.status := Task.status task;
             Task.serial := indexPlusOne index |}) l.

(** What a reorder handler does with the state. *)
Inductive Update :=
| NoUpdate
    (* the handler returns before [setPlanData] *)
| SetPlan (plan : ProjectPlan)
| SetMalformed.
    (* [setPlanData] gets an array with an object that is no phase or no
       task: the moved element was [undefined] *)

Definition handlePhaseReorder (fromIndex toIndex : nat) (plan : ProjectPlan)
  : Update :=
  if decide (fromIndex = toIndex) then NoUpdate
  else
    match moveItem fromIndex toIndex (phases plan) with
    | Some newPhases =>
        SetPlan {| goal := goal plan; phases := renumberPhases newPhases |}
    | None => SetMalformed
    end.

(** [array.map] with a callback that may produce a malformed element. *)
Fixpoint mapFrom {A B} (f : nat -> A -> option B) (index : nat) (l : list A)
  : option (list B) :=
  match l with
  | [] => Some []
  | x :: l' =>
      match f index x, mapFrom f (S index) l' with
      | Some y, Some ys => Some (y :: ys)
      | _, _ => None
      end
  end.

Definition handleTaskReorder (phaseIndex fromTaskIndex toTaskIndex : nat)
    (plan : ProjectPlan) : Update :=
  if decide (fromTaskIndex = toTaskIndex) then NoUpdate
  else
    match mapFrom
            (fun pIdx phase =>
               if decide (pIdx = phaseIndex) then
                 match moveItem fromTaskIndex toTaskIndex (Phase.tasks phase) with
                 | Some newTasks =>
                     Some {| Phase.name := Phase.name phase;
                             Phase.serial := Phase.serial phase;
                             Phase.tasks := renumberTasks newTasks |}
                 | None => None
                 end
               else Some phase)
            0 (phases plan) with
    | Some newPhases => SetPlan {| goal := goal plan; phases := newPhases |}
    | None => SetMalformed
    end.

End PlanView.

(** ** The cooldown of [useExplainPlan] in [app/hooks/use-explain-plan.ts] *)

Module ExplainCooldown.

(** [AI_CONFIG.EXPLAIN_COOLDOWN_MS] *)
Definition EXPLAIN_COOLDOWN_MS : Z := 30000.

(** [lastExplainAt ? currentTime - lastExplainAt : Infinity]: [None] is
    [Infinity]; [null] and 0 are the falsy values of [lastExplainAt]. *)
Definition timeSinceLastExplain (lastExplainAt : option Z) (currentTime : Z)
  : option Z :=
  match lastExplainAt with
  | Some last => if last =? 0 then None else Some (currentTime - last)
  | None => None
  end.

Definition canExplain (lastExplainAt : option Z) (currentTime : Z) : bool :=
  match timeSinceLastExplain lastExplainAt currentTime with
  | Some since => since >=? EXPLAIN_COOLDOWN_MS
  | None => true
  end.

(** The second branch is not reached with [Infinity], which passes the
    comparison of [canExplain]. *)
Definition cooldownSeconds (lastExplainAt : option Z) (currentTime : Z) : Z :=
  if canExplain lastExplainAt currentTime then 0
  else
    match timeSinceLastExplain lastExplainAt currentTime with
    | Some since => ceilSeconds (EXPLAIN_COOLDOWN_MS - since)
    | None => 0
    end.

End ExplainCooldown.

(** ** [stripMarkdown] of [app/lib/utils.ts]

    Seven replacements with the flag [g], then [trim].  A pattern is given
    by the function that tries it at the start of a text and returns the
    text of its group 1 and the number of code units matched. *)

Module Markdown.

(** What [.] does not match: the line terminators. *)
Definition isLineTerminator (c : N) : bool :=
  ((c =? 10) || (c =? 13) || (c =? 8232) || (c =? 8233))%N.

(** [(.+?)close] after the first code unit of the group: the shortest
    continuation up to an occurrence of [close], which is counted in. *)
Fixpoint lazyUpTo (close : jsstring) (s : jsstring) : option (jsstring * nat) :=
  match s with
  | [] => None
  | c :: s' =>
      if startsWith close s then Some ([], length close)
      else if isLineTerminator c then None
      else
        match lazyUpTo close s' with
        | Some (text, n) => Some (c :: text, S n)
        | None => None
        end
  end.

(** [(.+?)close]: the group takes at least one code unit. *)
Definition lazyGroup (close : jsstring) (s : jsstring) : option (jsstring * nat) :=
  match s with
  | [] => None
  | c :: s' =>
      if isLineTerminator c then None
      else
        match lazyUpTo close s' with
        | Some (text, n) => Some (c :: text, S n)
        | None => None
        end
  end.

(** [open(.+?)close] *)
Definition delimitedAt (open close : jsstring) (s : jsstring)
  : option (jsstring * nat) :=
  if startsWith open s then
    match lazyGroup close (drop (length open) s) with
    | Some (text, n) => Some (text, (length open + n)%nat)
    | None => None
    end
  else None.

(** [s.replace(pattern, group 1)] with the flag [g]: the matches are taken
    from left to right, each search starting where the last match ended;
    [skip] counts the code units of the last match that are still to be
    passed. *)
Fixpoint replaceFrom (matchAt : jsstring -> option (jsstring * nat))
    (skip : nat) (s : jsstring) : jsstring :=
  match s with
  | [] => []
  | c :: s' =>
      match skip with
      | S skip' => replaceFrom matchAt skip' s'
      | O =>
          match matchAt s with
          | Some (text, n) => text ++ replaceFrom matchAt (n - 1) s'
          | None => c :: replaceFrom matchAt 0 s'
          end
      end
  end.

Definition replaceAll (matchAt : jsstring -> option (jsstring * nat))
    (s : jsstring) : jsstring :=
  replaceFrom matchAt 0 s.

(** The length of the run of code units of a class at the start of [s], up
    to [limit]. *)
Fixpoint countWhile (p : N -> bool) (limit : nat) (s : jsstring) : nat :=
  match limit, s with
  | S limit', c :: s' => if p c then S (countWhile p limit' s') else 0
  | _, _ => 0
  end.

Definition isBacktick (c : N) : bool := (c =? 96)%N.
Definition isHash (c : N) : bool := (c =? 35)%N.

(** One to three backticks, the group, one to three backticks: the opening
    run is tried with [open] backticks and then with fewer; the closing run
    takes what it finds, up to three. *)
Fixpoint codeWith (open : nat) (s : jsstring) : option (jsstring * nat) :=
  match open with
  | O => None
  | S fewer =>
      match lazyGroup [96%N] (drop open s) with
      | Some (text, n) =>
          let more := countWhile isBacktick 2 (drop (open + n) s) in
          Some (text, (open + n + more)%nat)
      | None => codeWith fewer s
      end
  end.

Definition codeAt (s : jsstring) : option (jsstring * nat) :=
  codeWith (countWhile isBacktick 3 s) s.

(** One to six hashes and a run of whitespace: the hashes are tried with
    [hashes] of them and then with fewer. *)
Fixpoint headerWith (hashes : nat) (s : jsstring) : option nat :=
  match hashes with
  | O => None
  | S fewer =>
      let spaces := countWhile isWhiteSpace (length s) (drop hashes s) in
      if (1 <=? spaces)%nat then Some (hashes + spaces)%nat
      else headerWith fewer s
  end.

Definition headerAt (s : jsstring) : option nat :=
  headerWith (countWhile isHash 6 s) s.

(** The replacement of the headers, with the flag [m]: the pattern is tried
    at the start of the text and after every line terminator. *)
Fixpoint removeHeadersFrom (atLineStart : bool) (skip : nat) (s : jsstring)
  : jsstring :=
  match s with
  | [] => []
  | c :: s' =>
      match skip with
      | S skip' => removeHeadersFrom (isLineTerminator c) skip' s'
      | O =>
          match (if atLineStart then headerAt s else None) with
          | Some n => removeHeadersFrom (isLineTerminator c) (n - 1) s'
          | None => c :: removeHeadersFrom (isLineTerminator c) 0 s'
          end
      end
  end.

Definition removeHeaders (s : jsstring) : jsstring := removeHeadersFrom true 0 s.

(** The group of a link after its first code unit: it ends at a closing
    bracket that a parenthesized text follows, and goes on otherwise. *)
Fixpoint linkUpTo (s : jsstring) : option (jsstring * nat) :=
  match s with
  | [] => None
  | c :: s' =>
      match (if startsWith [93; 40]%N s then lazyGroup [41%N] (drop 2 s)
             else None) with
      | Some (_, m) => Some ([], (2 + m)%nat)
      | None =>
          if isLineTerminator c then None
          else
            match linkUpTo s' with
            | Some (text, n) => Some (c :: text, S n)
            | None => None
            end
      end
  end.

(** An opening bracket, the group, a closing bracket, and a text in
    parentheses. *)
Definition linkAt (s : jsstring) : option (jsstring * nat) :=
  if startsWith [91%N] s then
    match drop 1 s with
    | [] => None
    | c :: s' =>
        if isLineTerminator c then None
        else
          match linkUpTo s' with
          | Some (text, n) => Some (c :: text, S (S n))
          | None => None
          end
    end
  else None.

Definition stripMarkdown (text : jsstring) : jsstring :=
  let text := replaceAll (delimitedAt (js "**") (js "**")) text in
  let text := replaceAll (delimitedAt (js "*") (js "*")) text in
  let text := replaceAll (delimitedAt (js "__") (js "__")) text in
  let text := replaceAll (delimitedAt (js "_") (js "_")) text in
  let text := replaceAll codeAt text in
  let text := removeHeaders text in
  let text := replaceAll linkAt text in
  trim text.

End Markdown.
Export Markdown.

(** * The vocabulary of the properties

    The predicates in which the properties below are stated, and the
    concrete requests, environments and platform on which the handlers are
    run. *)

Section Vocabulary.

Implicit Types (st : State) (id k : jsstring) (r : RateLimitRecord).

Definition serialOf (k : nat) : number := inject_Z (Z.of_nat k).

(** The invariants of a normalized plan. *)
Definition phaseNormal (phase : Phase.t) : Prop :=
  (length (Phase.tasks phase) <= MAX_TASKS_PER_PHASE)%nat
  /\ Task.serial <$> Phase.tasks phase
     = serialOf <$> seq 1 (length (Phase.tasks phase))
  /\ Forall (fun task => Task.status task = not_started) (Phase.tasks phase).

Definition planNormal (plan : ProjectPlan) : Prop :=
  (length (phases plan) <= MAX_PHASES)%nat
  /\ Phase.serial <$> phases plan = serialOf <$> seq 1 (length (phases plan))
  /\ Forall phaseNormal (phases plan).

(** What normalization keeps of a task and of a phase. *)
Definition taskKept (task task' : Task.t) : Prop :=
  Task.id task' = Task.id task /\ Task.title task' = Task.title task.

Definition phaseKept (phase phase' : Phase.t) : Prop :=
  Phase.name phase' = Phase.name phase
  /\ Forall2 taskKept (take MAX_TASKS_PER_PHASE (Phase.tasks phase))
                      (Phase.tasks phase').

(** U+200B to U+200D: the code units of step 5 that [\s] does not match. *)
Definition isJoiner (c : N) : bool := ((8203 <=? c) && (c <=? 8205))%N.

(** Whitespace occurs as single spaces only; with [inRun] not at the
    start. *)
Fixpoint collapsed (inRun : bool) (s : jsstring) : Prop :=
  match s with
  | [] => True
  | c :: s' =>
      if isWhiteSpace c then c = 32%N /\ inRun = false /\ collapsed true s'
      else collapsed false s'
  end.

(** What the sweep leaves of the map. *)
Definition swept (t : Z) (o : option RateLimitRecord) : option RateLimitRecord :=
  match o with
  | Some r => if resetAt r <? t then None else Some r
  | None => None
  end.

Definition freshResult (maxRequests windowMs t : Z) : RateLimitResult :=
  RateLimitResult.mk true (maxRequests - 1) (t + windowMs) (ceilSeconds windowMs).

(** The admission part of a result: [allowed], [remaining], [resetAt]. *)
Definition admission (result : RateLimitResult) : bool * Z * Z :=
  (RateLimitResult.allowed result, RateLimitResult.remaining result,
   RateLimitResult.resetAt result).

(** The bucket of [id] is absent or its window has closed before [t]. *)
Definition stale id (t : Z) st : Prop :=
  rateLimitMap st !! id = None
  \/ exists r, rateLimitMap st !! id = Some r /\ resetAt r < t.

(** A call of another identifier whose sweep reads the clock no later than
    [t]. *)
Definition otherUntil id (t : Z) (c : Call) : Prop :=
  identifier c <> id /\ nowCleanup c <= t.

Definition other id (c : Call) : Prop := identifier c <> id.

(** The limiter that sweeps, [s], against the one that never does, [n]:
    they hold the same buckets, except that [s] may lack a bucket of [n]
    whose window closed before the clock read [t]. *)
Definition sweptView (t : Z) (s n : State) : Prop :=
  forall k,
    rateLimitMap s !! k = rateLimitMap n !! k
    \/ (rateLimitMap s !! k = None
        /\ exists r, rateLimitMap n !! k = Some r /\ resetAt r < t).


(** A request of the client 203.0.113.7 behind a proxy. *)
Definition requestOf (verb : string) (text : jsstring) : Request :=
  {| method := js verb;
     headers_get := fun name =>
       if decide (name = js "x-forwarded-for") then Some (js "203.0.113.7")
       else None;
     requestBody := text |}.

(** The state after the rate-limit checks of [n] explanation requests, one
    every second. *)
Fixpoint afterExplainChecks (n : nat) (request : Request) (t : Z) (st : State)
  : State :=
  match n with
  | O => st
  | S n' =>
      afterExplainChecks n' request (t + 1000)
        (Explain.rateLimitCheck request t t st).2
  end.

(** The model's text around a JSON text [t]: the opening fence with the
    language tag, a line feed, [t], a line feed, the closing fence. *)
Definition fenced (t : jsstring) : jsstring :=
  fence ++ js "json" ++ 10%N :: t ++ 10%N :: fence.

(** A platform for running the handlers on concrete requests: the JSON
    reader above, a client that cannot be built with an empty key, and a
    model that answers every prompt with [aiText]. *)
Definition examplePlatform (aiText : jsstring) : Platform :=
  {| JSON_parse := readJson;
     ZodError_message := fun _ => js "invalid";
     Date_toISOString := fun s => Some s;
     new_OpenAI := fun apiKey =>
       match apiKey with
       | [] => Some (Error (js "Missing credentials"))
       | _ => None
       end;
     responses_create := fun _ _ => Ok aiText;
     responses_stream := fun _ _ => Ok ([], None) |}.

Definition exampleEnv : list (jsstring * jsstring) :=
  [(js "OPENAI_API_KEY", js "sk-test"); (js "OPENAI_MODEL", js "gpt-4o-mini")].

Definition examplePayload : jsstring :=
  jsq "{'projectGoal':'Build a Flutter expense app','experienceLevel':'beginner','timeAvailability':'3-5'}".

(** A plan of 20 phases of 20 tasks that ignores the contract of the
    prompt: every serial is 9 and every task is completed. *)
Definition oversizedPlan : ProjectPlan :=
  {| goal := js "x";
     phases :=
       replicate 20
         {| Phase.name := js "p"; Phase.serial := inject_Z 9;
            Phase.tasks :=
              replicate 20
                {| Task.id := inject_Z 7; Task.title := js "t";
                   Task.status := completed; Task.serial := inject_Z 9 |} |} |}.

Definition statusOf (outcome : Outcome) : option Z :=
  match outcome with
  | Returned response => Some (status response)
  | Thrown _ => None
  end.

(** The state after the rate-limit checks of [n] generation requests, one
    every second. *)
Fixpoint afterGenerateChecks (n : nat) (request : Request) (t : Z) (st : State)
  : State :=
  match n with
  | O => st
  | S n' =>
      afterGenerateChecks n' request (t + 1000)
        (Generate.rateLimitCheck request t t st).2
  end.

(** A response in the JSON shape of the handler: the plan with status 200,
    or [{ success: false, message, ... }] with a status of failure. *)
Definition isStructured (response : Response) : bool :=
  match body response with
  | PlanBody _ => bool_decide (status response = 200)
  | FailureBody _ _ =>
      bool_decide (status response = 400) || bool_decide (status response = 405)
      || bool_decide (status response = 429) || bool_decide (status response = 500)
  | StreamBody _ _ => false
  end.

(** Every issue of the schema lies at or below the path it was given. *)
Definition below {A} (schema : Schema A) : Prop :=
  forall path' v,
    Forall (fun issue => path' `prefix_of` path issue) (issues (schema path' v)).

(** ** Vocabulary of the further properties *)

(** The calls of [id] in a sequence of calls, and the results that belong to
    them. *)
Definition callsOf id (cs : list Call) : list Call :=
  filter (fun c => identifier c = id) cs.

Fixpoint resultsOf id (cs : list Call) (rs : list RateLimitResult)
  : list RateLimitResult :=
  match cs, rs with
  | c :: cs', result :: rs' =>
      if decide (identifier c = id) then result :: resultsOf id cs' rs'
      else resultsOf id cs' rs'
  | _, _ => []
  end.

(** Calls of one client under one policy, one for each pair of clock
    reads. *)
Definition callsAt id (mx w : Z) (times : list (Z * Z)) : list Call :=
  (fun tc => {| identifier := id; maxRequests := mx; windowMs := w;
                now := tc.1; nowCleanup := tc.2 |}) <$> times.

(** The admission of the call number [i], counted from 0, of a window that
    closes at [R]: the first [max mx 1] calls are admitted. *)
Definition admissionOfCall (mx R : Z) (i : nat) : bool * Z * Z :=
  if Z.of_nat i <? Z.max mx 1 then (true, mx - Z.of_nat i - 1, R)
  else (false, 0, R).

(** Every bucket has counted at least one request and at most [mx]. *)
Definition countsWithin (mx : Z) st : Prop :=
  forall k r, rateLimitMap st !! k = Some r -> 1 <= count r <= mx.

(** Requests served one after the other by a handler, each with the two
    clock reads of its rate-limit check. *)
Fixpoint serve (handler : Request -> Z -> Z -> State -> Outcome * State)
    (arrivals : list (Request * (Z * Z))) st : list Outcome * State :=
  match arrivals with
  | [] => ([], st)
  | (request, (t, c)) :: rest =>
      let '(outcome, st1) := handler request t c st in
      let '(outcomes, st2) := serve handler rest st1 in
      (outcome :: outcomes, st2)
  end.

(** The answer that a client of the generation endpoint is to get when it
    is over its budget at the clock read [t], in a window that closes at
    [R]: status 429, the wait in seconds, the budget of 5, nothing
    remaining, the end of the window in seconds, and the message. *)
Definition throttledAt (R t : Z) : Outcome :=
  Returned
    {| status := 429;
       headers :=
         [(js "Retry-After", String_ (ceilSeconds (R - t)));
          (js "X-RateLimit-Limit", js "5");
          (js "X-RateLimit-Remaining", js "0");
          (js "X-RateLimit-Reset", String_ (R / 1000))];
       body :=
         FailureBody
           (js "Too many requests. Please try again in "
              ++ String_ (ceilSeconds (R - t)) ++ js " seconds.")
           None |}.

(** The task at index [k] of the phase at index [p]. *)
Definition taskAt (plan : ProjectPlan) (p k : nat) : option Task.t :=
  match phases plan !! p with
  | Some phase => Phase.tasks phase !! k
  | None => None
  end.

(** A phase and a task without their serials. *)
Definition phaseContent (phase : Phase.t) : jsstring * list Task.t :=
  (Phase.name phase, Phase.tasks phase).

Definition taskContent (task : Task.t) : number * jsstring * TaskStatus :=
  (Task.id task, Task.title task, Task.status task).

(** A plan without the statuses of its tasks. *)
Definition withoutStatuses (plan : ProjectPlan) : ProjectPlan :=
  {| goal := goal plan;
     phases :=
       map (fun phase =>
              {| Phase.name := Phase.name phase;
                 Phase.serial := Phase.serial phase;
                 Phase.tasks :=
                   map (PlanView.withStatus not_started) (Phase.tasks phase) |})
           (phases plan) |}.

(** The group of a pattern is part of its match, and a match is not
    empty. *)
Definition captures (matchAt : jsstring -> option (jsstring * nat)) : Prop :=
  forall s text (n : nat),
    matchAt s = Some (text, n) -> (1 <= n)%nat /\ text `sublist_of` take n s.

(** The pattern matches only at the code unit [x]. *)
Definition startsAt (x : N) (matchAt : jsstring -> option (jsstring * nat)) : Prop :=
  forall c s, c <> x -> matchAt (c :: s) = None.

(** The code units at which the patterns of [stripMarkdown] begin: the
    asterisk, the underscore, the backtick, the hash and the opening square
    bracket. *)
Definition isMarker (c : N) : bool :=
  ((c =? 42) || (c =? 95) || (c =? 96) || (c =? 35) || (c =? 91))%N.

End Vocabulary.

(** * Properties *)

(** ** Plan normalization *)

Section NormalizeFacts.

Lemma indexPlusOne_serialOf i : indexPlusOne i = serialOf (S i).
Proof. unfold indexPlusOne, serialOf. f_equal. lia. Qed.

Lemma length_normalizePhase_tasks i phase :
  length (Phase.tasks (normalizePhase i phase))
  = (length (Phase.tasks phase) `min` MAX_TASKS_PER_PHASE)%nat.
Proof. cbn. rewrite length_imap, length_take. apply Nat.min_comm. Qed.

Lemma length_normalizePlan_phases plan :
  length (phases (normalizePlan plan))
  = (length (phases plan) `min` MAX_PHASES)%nat.
Proof. cbn. rewrite length_imap, length_take. apply Nat.min_comm. Qed.

Lemma task_serials (l : list Task.t) :
  Task.serial <$> imap normalizeTask l = serialOf <$> seq 1 (length l).
Proof.
  apply list_eq; intros i.
  rewrite !list_lookup_fmap, list_lookup_imap.
  destruct (l !! i) as [task|] eqn:E; cbn.
  - apply lookup_lt_Some in E. rewrite lookup_seq_lt by done.
    cbn. by rewrite indexPlusOne_serialOf.
  - apply lookup_ge_None in E. by rewrite lookup_seq_ge by lia.
Qed.

Lemma phase_serials (l : list Phase.t) :
  Phase.serial <$> imap normalizePhase l = serialOf <$> seq 1 (length l).
Proof.
  apply list_eq; intros i.
  rewrite !list_lookup_fmap, list_lookup_imap.
  destruct (l !! i) as [phase|] eqn:E; cbn.
  - apply lookup_lt_Some in E. rewrite lookup_seq_lt by done.
    cbn. by rewrite indexPlusOne_serialOf.
  - apply lookup_ge_None in E. by rewrite lookup_seq_ge by lia.
Qed.

Lemma Forall_imap {A B} (P : B -> Prop) (f : nat -> A -> B) (l : list A) :
  (forall i x, P (f i x)) -> Forall P (imap f l).
Proof.
  revert f. induction l as [|x l IH]; intros f Hf; cbn; constructor; auto.
  apply IH. intros i y. apply Hf.
Qed.

Lemma Forall2_imap {A B} (R : A -> B -> Prop) (f : nat -> A -> B) (l : list A) :
  (forall i x, R x (f i x)) -> Forall2 R l (imap f l).
Proof.
  revert f. induction l as [|x l IH]; intros f Hf; cbn; constructor; auto.
  apply IH. intros i y. apply Hf.
Qed.

End NormalizeFacts.

Lemma normalizePhase_normal i phase : phaseNormal (normalizePhase i phase).
Proof.
  unfold phaseNormal.
  split; [rewrite length_normalizePhase_tasks; apply Nat.le_min_r|].
  split.
  - cbn [normalizePhase Phase.tasks]. rewrite length_imap. apply task_serials.
  - apply Forall_imap. reflexivity.
Qed.

(** C3. Normalization is a total function of the plan that the schema
    delivered, and whatever serials and statuses that plan carries, the
    result has at most [MAX_PHASES] = 5 phases with serials 1..N in order,
    each with at most [MAX_TASKS_PER_PHASE] = 5 tasks with serials 1..M in
    order, and every task has the status [not_started]. *)
Theorem normalizePlan_invariants (plan : ProjectPlan) :
  planNormal (normalizePlan plan)
  /\ MAX_PHASES = 5%nat /\ MAX_TASKS_PER_PHASE = 5%nat.
Proof.
  split; [|done]. unfold planNormal.
  split; [rewrite length_normalizePlan_phases; apply Nat.le_min_r|]. split.
  - cbn [normalizePlan phases]. rewrite length_imap. apply phase_serials.
  - apply Forall_imap. apply normalizePhase_normal.
Qed.

(** The serial of a phase is rewritten as well: a plan whose one phase has
    the serial 9 comes out with the serial 1. *)
Lemma normalizePlan_rewrites_phase_serial :
  let plan := {| goal := js "x";
                 phases := [{| Phase.name := js "p"; Phase.serial := inject_Z 9;
                               Phase.tasks := [] |}] |} in
  Phase.serial <$> phases plan = [inject_Z 9]
  /\ Phase.serial <$> phases (normalizePlan plan) = [inject_Z 1]
  /\ phases (normalizePlan plan) <> phases plan.
Proof. intros plan. split; [done|]. split; [done|]. by vm_compute. Qed.

(** C10. Normalization keeps the goal; its phases are the first
    [MAX_PHASES] phases of the input, in their order and with their names;
    the tasks of each are the first [MAX_TASKS_PER_PHASE] tasks of that
    phase, in their order and with their ids and titles.  The remaining
    fields are the rewritten ones, whatever the input has there: the
    serial of a phase and the serial of a task become the position,
    counted from 1, and the status of a task becomes [not_started]. *)
Theorem normalizePlan_frame (plan : ProjectPlan) :
  goal (normalizePlan plan) = goal plan
  /\ Forall2 phaseKept (take MAX_PHASES (phases plan)) (phases (normalizePlan plan))
  /\ Phase.serial <$> phases (normalizePlan plan)
     = serialOf <$> seq 1 (length (phases (normalizePlan plan)))
  /\ Forall (fun phase =>
               Task.serial <$> Phase.tasks phase
               = serialOf <$> seq 1 (length (Phase.tasks phase))
               /\ Forall (fun task => Task.status task = not_started)
                         (Phase.tasks phase))
            (phases (normalizePlan plan)).
Proof.
  split; [done|]. split; [|split].
  - apply Forall2_imap. intros i phase. split; [done|].
    apply Forall2_imap. by intros j task.
  - cbn [normalizePlan phases]. rewrite length_imap. apply phase_serials.
  - apply Forall_imap. intros i phase. split.
    + cbn [normalizePhase Phase.tasks]. rewrite length_imap. apply task_serials.
    + apply Forall_imap. reflexivity.
Qed.

(** ** The sanitizer *)

Section SanitizeFacts.

Implicit Types (x y : jsstring).

Lemma dropWhile_app p x y :
  dropWhile p (x ++ y) = if forallb p x then dropWhile p y else dropWhile p x ++ y.
Proof.
  induction x as [|c x IH]; cbn; [done|]. destruct (p c); cbn; [apply IH|done].
Qed.

Lemma dropWhile_all p x : forallb p x = true -> dropWhile p x = [].
Proof.
  induction x as [|c x IH]; cbn; [done|]. destruct (p c); cbn; [apply IH|done].
Qed.

Lemma dropWhile_idemp p x : dropWhile p (dropWhile p x) = dropWhile p x.
Proof.
  induction x as [|c x IH]; cbn; [done|]. destruct (p c) eqn:E; [done|].
  cbn. by rewrite E.
Qed.

Lemma length_dropWhile p (s : jsstring) : (length (dropWhile p s) <= length s)%nat.
Proof. induction s as [|c s IH]; cbn; [lia|]. destruct (p c); cbn; lia. Qed.

Lemma length_trim (s : jsstring) : (length (trim s) <= length s)%nat.
Proof.
  unfold trim, trimEnd, trimStart. rewrite length_rev.
  etransitivity; [apply length_dropWhile|]. rewrite length_rev.
  apply length_dropWhile.
Qed.

Lemma length_removeAll p (s : jsstring) : (length (removeAll p s) <= length s)%nat.
Proof. apply length_filter. Qed.

Lemma length_collapseFrom b (s : jsstring) :
  (length (collapseFrom b s) <= length s)%nat.
Proof.
  revert b. induction s as [|c s IH]; intros b; cbn; [lia|].
  pose proof (IH true). pose proof (IH false).
  destruct (isWhiteSpace c); [destruct b|]; cbn; lia.
Qed.

Lemma length_slice0 (s : jsstring) n :
  0 <= n -> Z.of_nat (length (slice0 s n)) <= n.
Proof.
  intros Hn. unfold slice0. destruct (Z.ltb_spec n 0); [lia|].
  rewrite length_take. lia.
Qed.

(** The length bound holds for every bound that is a length. *)
Lemma sanitizeString_length (input : jsstring) (maxLength : Z) :
  0 <= maxLength ->
  Z.of_nat (length (sanitizeString input maxLength)) <= maxLength.
Proof.
  intros Hn. unfold sanitizeString, collapseWhitespace.
  pose proof (length_slice0 (trim input) maxLength Hn) as H0.
  set (s0 := slice0 (trim input) maxLength) in *.
  pose proof (length_removeAll isControl s0).
  set (s1 := removeAll isControl s0) in *.
  pose proof (length_removeAll isDangerous s1).
  set (s2 := removeAll isDangerous s1) in *.
  pose proof (length_collapseFrom false s2).
  set (s3 := collapseFrom false s2) in *.
  pose proof (length_removeAll isZeroWidth s3).
  set (s4 := removeAll isZeroWidth s3) in *.
  pose proof (length_trim s4). lia.
Qed.

End SanitizeFacts.

Section SanitizeTwice.

Implicit Types (s x y : jsstring) (c : N) (p : N -> bool) (P : N -> Prop).

Lemma Forall_dropWhile P p s : Forall P s -> Forall P (dropWhile p s).
Proof.
  induction 1 as [|c s Hc Hs IH]; cbn; [constructor|].
  destruct (p c); [done|by constructor].
Qed.

Lemma Forall_trim P s : Forall P s -> Forall P (trim s).
Proof.
  intros H. unfold trim, trimEnd, trimStart.
  by apply Forall_rev, Forall_dropWhile, Forall_rev, Forall_dropWhile.
Qed.

Lemma Forall_slice0 P s n : Forall P s -> Forall P (slice0 s n).
Proof. intros H. unfold slice0. destruct (n <? 0); by apply Forall_take. Qed.

Lemma Forall_removeAll P p s : Forall P s -> Forall P (removeAll p s).
Proof.
  intros H. apply Forall_forall. intros c Hc.
  apply list_elem_of_filter in Hc as [_ Hc]. by eapply Forall_forall in H.
Qed.

Lemma removeAll_removed p s : Forall (fun c => p c = false) (removeAll p s).
Proof.
  apply Forall_forall. intros c Hc. by apply list_elem_of_filter in Hc as [Hc _].
Qed.

Lemma removeAll_id p s : Forall (fun c => p c = false) s -> removeAll p s = s.
Proof.
  unfold removeAll. induction 1 as [|c s Hc Hs IH]; [done|].
  rewrite filter_cons_True by done. by rewrite IH.
Qed.

Lemma Forall_collapseFrom P b s :
  P 32%N -> Forall P s -> Forall P (collapseFrom b s).
Proof.
  intros H32 H. revert b. induction H as [|c s Hc Hs IH]; intros b; cbn;
    [constructor|].
  destruct (isWhiteSpace c); [destruct b|]; try constructor; auto.
Qed.

Lemma collapseFrom_collapsed b s : collapsed b (collapseFrom b s).
Proof.
  revert b. induction s as [|c s IH]; intros b; cbn; [done|].
  destruct (isWhiteSpace c) eqn:Hc; [destruct b|]; cbn; rewrite ?Hc; auto.
Qed.

Lemma collapseFrom_id b s : collapsed b s -> collapseFrom b s = s.
Proof.
  revert b. induction s as [|c s IH]; intros b; cbn; [done|].
  destruct (isWhiteSpace c).
  - intros (-> & -> & H). by rewrite IH.
  - intros H. by rewrite IH.
Qed.

Lemma collapsed_weaken b s : collapsed b s -> collapsed false s.
Proof. destruct s as [|c s]; cbn; [done|]. destruct (isWhiteSpace c); tauto. Qed.

Lemma collapsed_app b x y : collapsed b (x ++ y) -> collapsed b x.
Proof.
  revert b. induction x as [|c x IH]; intros b; cbn; [done|].
  destruct (isWhiteSpace c); [|apply IH]. intros (? & ? & H). eauto.
Qed.

Lemma collapsed_dropWhile b s : collapsed b s -> collapsed false (dropWhile isWhiteSpace s).
Proof.
  revert b. induction s as [|c s IH]; intros b; cbn; [done|].
  destruct (isWhiteSpace c) eqn:Hc.
  - intros (_ & _ & H). by apply (IH true).
  - intros H. cbn. by rewrite Hc.
Qed.

(** [trimEnd] cuts a run of whitespace off the end. *)
Lemma trimEnd_prefix s : exists w, s = trimEnd s ++ w /\ forallb isWhiteSpace w = true.
Proof.
  unfold trimEnd. rewrite <- (rev_involutive s). rewrite (rev_involutive (rev s)).
  induction (rev s) as [|c r IH]; cbn; [by exists []|].
  destruct (isWhiteSpace c) eqn:Hc.
  - destruct IH as (w & Hw & Hall). exists (w ++ [c]). split.
    + rewrite Hw at 1. by rewrite app_assoc.
    + rewrite forallb_app. cbn. by rewrite Hall, Hc.
  - exists []. by rewrite app_nil_r.
Qed.

Lemma collapsed_trim b s : collapsed b s -> collapsed false (trim s).
Proof.
  intros H. unfold trim. apply collapsed_dropWhile in H. fold (trimStart s) in H.
  destruct (trimEnd_prefix (trimStart s)) as (w & Hw & _).
  rewrite Hw in H. by apply collapsed_app in H.
Qed.

Lemma trimStart_id s :
  match s with c :: _ => isWhiteSpace c = false | [] => True end -> trimStart s = s.
Proof. destruct s as [|c s]; cbn; [done|]. by intros ->. Qed.

Lemma dropWhile_head p s :
  match dropWhile p s with c :: _ => p c = false | [] => True end.
Proof. induction s as [|c s IH]; cbn; [done|]. by destruct (p c) eqn:E. Qed.

Lemma trim_idemp s : trim (trim s) = trim s.
Proof.
  unfold trim at 1. assert (trimStart (trim s) = trim s) as ->.
  - apply trimStart_id. unfold trim.
    pose proof (dropWhile_head isWhiteSpace s) as Hhead. fold (trimStart s) in Hhead.
    destruct (trimEnd_prefix (trimStart s)) as (w & Hw & _).
    destruct (trimEnd (trimStart s)) as [|c r]; [done|].
    by rewrite Hw in Hhead.
  - unfold trim, trimEnd. by rewrite rev_involutive, dropWhile_idemp.
Qed.

Lemma isZeroWidth_false c :
  isJoiner c = false -> (isWhiteSpace c = true -> c = 32%N) -> isZeroWidth c = false.
Proof.
  unfold isZeroWidth, isJoiner. intros -> Hws. cbn.
  destruct (N.eqb_spec c 65279) as [->|]; [|done]. by specialize (Hws eq_refl).
Qed.

Lemma collapsed_spaces b s :
  collapsed b s -> Forall (fun c => isWhiteSpace c = true -> c = 32%N) s.
Proof.
  revert b. induction s as [|c s IH]; intros b; cbn; [constructor|].
  destruct (isWhiteSpace c) eqn:Hc.
  - intros (-> & _ & H). constructor; eauto.
  - intros H. constructor; [congruence|eauto].
Qed.

(** What a second pass finds nothing to do on. *)
Lemma sanitizeString_settled (r : jsstring) (maxLength : Z) :
  Z.of_nat (length r) <= maxLength ->
  trim r = r ->
  Forall (fun c => isControl c = false) r ->
  Forall (fun c => isDangerous c = false) r ->
  Forall (fun c => isZeroWidth c = false) r ->
  collapsed false r ->
  sanitizeString r maxLength = r.
Proof.
  intros Hlen Htrim Hc Hd Hz Hcol. unfold sanitizeString, collapseWhitespace.
  rewrite Htrim.
  assert (slice0 r maxLength = r) as ->.
  { unfold slice0. destruct (Z.ltb_spec maxLength 0); [lia|]. apply take_ge. lia. }
  rewrite (removeAll_id isControl r), (removeAll_id isDangerous r) by done.
  by rewrite (collapseFrom_id false r), (removeAll_id isZeroWidth r) by done.
Qed.

Lemma sanitizeString_clean (input : jsstring) (maxLength : Z) :
  Forall (fun c => isJoiner c = false) input ->
  let r := sanitizeString input maxLength in
  trim r = r
  /\ Forall (fun c => isControl c = false) r
  /\ Forall (fun c => isDangerous c = false) r
  /\ Forall (fun c => isZeroWidth c = false) r
  /\ collapsed false r.
Proof.
  intros Hj. unfold sanitizeString, collapseWhitespace.
  set (s2 := removeAll isDangerous
               (removeAll isControl (slice0 (trim input) maxLength))).
  assert (Forall (fun c => isControl c = false) s2) as Hc2
    by apply Forall_removeAll, removeAll_removed.
  assert (Forall (fun c => isDangerous c = false) s2) as Hd2
    by apply removeAll_removed.
  assert (Forall (fun c => isJoiner c = false) s2) as Hj2
    by (by apply Forall_removeAll, Forall_removeAll, Forall_slice0, Forall_trim).
  set (s3 := collapseFrom false s2).
  assert (collapsed false s3) as Hcol by apply collapseFrom_collapsed.
  assert (Forall (fun c => isZeroWidth c = false) s3) as Hz3.
  { eapply Forall_impl.
    - apply Forall_and. split; [|apply (collapsed_spaces _ _ Hcol)].
      apply (Forall_collapseFrom _ false s2 eq_refl Hj2).
    - intros c [? ?]. by apply isZeroWidth_false. }
  rewrite (removeAll_id isZeroWidth s3 Hz3). cbv zeta.
  split; [apply trim_idemp|].
  split; [by apply Forall_trim, Forall_collapseFrom|].
  split; [by apply Forall_trim, Forall_collapseFrom|].
  split; [by apply Forall_trim|].
  by apply (collapsed_trim false).
Qed.

(** On a goal text without U+200B, U+200C and U+200D, and with a bound that
    is a length, sanitizing twice is sanitizing once: what breaks
    idempotence is step 5 coming after step 4. *)
Lemma sanitizeString_twice_without_joiners (input : jsstring) (maxLength : Z) :
  0 <= maxLength ->
  Forall (fun c => isJoiner c = false) input ->
  sanitizeString (sanitizeString input maxLength) maxLength
  = sanitizeString input maxLength.
Proof.
  intros Hn Hj.
  destruct (sanitizeString_clean input maxLength Hj) as (? & ? & ? & ? & ?).
  apply sanitizeString_settled; auto using sanitizeString_length.
Qed.

End SanitizeTwice.

(** C4. On the goal text made of the letter a, a space, U+200B, a space
    and the letter b, [sanitizeString] returns the letters with two spaces
    between them: step 5 removes the zero-width space after step 4 has
    collapsed the whitespace.  Applied to that result it returns the letters
    with one space, so the second application is not a no-op. *)
Theorem sanitizeString_second_pass_differs :
  let S := [97; 32; 8203; 32; 98]%N in
  sanitizeString S defaultMaxLength = [97; 32; 32; 98]%N
  /\ sanitizeString (sanitizeString S defaultMaxLength) defaultMaxLength
     = [97; 32; 98]%N
  /\ sanitizeString (sanitizeString S defaultMaxLength) defaultMaxLength
     <> sanitizeString S defaultMaxLength.
Proof. cbv zeta. repeat split; try reflexivity. vm_compute. discriminate. Qed.

(** ** The rate limiter *)

Section RateLimitFacts.

Implicit Types (m : gmap jsstring RateLimitRecord) (st : State).
Implicit Types (id k : jsstring) (r : RateLimitRecord).

Lemma elem_of_expiredKeys k t m :
  k ∈ expiredKeys t m <-> exists r, m !! k = Some r /\ resetAt r < t.
Proof.
  unfold expiredKeys. rewrite list_elem_of_fmap. split.
  - intros [[k' r] [-> Hin]]. apply elem_of_map_to_list in Hin.
    apply map_lookup_filter_Some in Hin as [Hk Hr]. eauto.
  - intros (r & Hk & Hr). exists (k, r). split; [done|].
    apply elem_of_map_to_list, map_lookup_filter_Some. done.
Qed.

Lemma lookup_sweep k t m :
  foldr delete m (expiredKeys t m) !! k = swept t (m !! k).
Proof.
  destruct (m !! k) as [r|] eqn:Hk; cbn.
  - destruct (Z.ltb_spec (resetAt r) t).
    + apply lookup_foldr_delete, elem_of_expiredKeys. eauto.
    + rewrite lookup_foldr_delete_not_elem_of; [done|].
      rewrite elem_of_expiredKeys. intros (r' & Hk' & Hr'). simplify_eq. lia.
  - rewrite lookup_foldr_delete_not_elem_of; [done|].
    rewrite elem_of_expiredKeys. intros (r' & Hk' & Hr'). simplify_eq.
Qed.

Lemma lookup_cleanupExpiredRecords k t st :
  rateLimitMap (cleanupExpiredRecords t st) !! k
  = if t - lastCleanup st <? CLEANUP_INTERVAL then rateLimitMap st !! k
    else swept t (rateLimitMap st !! k).
Proof.
  unfold cleanupExpiredRecords.
  destruct (t - lastCleanup st <? CLEANUP_INTERVAL); [done|].
  apply lookup_sweep.
Qed.

Lemma lastCleanup_cleanupExpiredRecords t st :
  lastCleanup (cleanupExpiredRecords t st)
  = if t - lastCleanup st <? CLEANUP_INTERVAL then lastCleanup st else t.
Proof.
  unfold cleanupExpiredRecords.
  by destruct (t - lastCleanup st <? CLEANUP_INTERVAL).
Qed.

(** The sweep keeps a record or removes it, and removes only a record
    whose [resetAt] lies before the clock read of the sweep. *)
Lemma cleanupExpiredRecords_cases k t st :
  rateLimitMap (cleanupExpiredRecords t st) !! k = rateLimitMap st !! k
  \/ (rateLimitMap (cleanupExpiredRecords t st) !! k = None
      /\ exists r, rateLimitMap st !! k = Some r /\ resetAt r < t).
Proof.
  rewrite lookup_cleanupExpiredRecords.
  destruct (t - lastCleanup st <? CLEANUP_INTERVAL); [by left|].
  destruct (rateLimitMap st !! k) as [r|]; cbn; [|by left].
  destruct (Z.ltb_spec (resetAt r) t); [right; eauto | by left].
Qed.

Lemma cleanupExpiredRecords_live k t st r :
  rateLimitMap st !! k = Some r -> t <= resetAt r ->
  rateLimitMap (cleanupExpiredRecords t st) !! k = Some r.
Proof.
  intros Hk Ht. destruct (cleanupExpiredRecords_cases k t st) as [->|[_ H]]; [done|].
  destruct H as (r' & ? & ?). simplify_eq. lia.
Qed.

(** *** One call, by the bucket it finds *)

Lemma checkRateLimit_fresh id mx w t c st :
  rateLimitMap st !! id = None \/
  (exists r, rateLimitMap st !! id = Some r /\ resetAt r < t) ->
  (checkRateLimit id mx w t c st).1 = freshResult mx w t
  /\ rateLimitMap (checkRateLimit id mx w t c st).2 !! id
     = Some {| count := 1; resetAt := t + w |}.
Proof.
  unfold checkRateLimit. intros [->|(r & -> & Hr)].
  - cbn. by rewrite lookup_insert_eq.
  - destruct (Z.ltb_spec (resetAt r) t); [|lia]. cbn. by rewrite lookup_insert_eq.
Qed.

Lemma checkRateLimit_live id mx w t c st r :
  rateLimitMap st !! id = Some r -> t <= resetAt r -> count r < mx ->
  (checkRateLimit id mx w t c st).1
  = RateLimitResult.mk true (mx - (count r + 1)) (resetAt r)
      (ceilSeconds (resetAt r - t))
  /\ (rateLimitMap (checkRateLimit id mx w t c st).2 !! id
      = Some {| count := count r + 1; resetAt := resetAt r |}
      \/ (resetAt r < c
          /\ rateLimitMap (checkRateLimit id mx w t c st).2 !! id = None)).
Proof.
  intros Hid Ht Hc. unfold checkRateLimit. rewrite Hid.
  destruct (Z.ltb_spec (resetAt r) t); [lia|].
  destruct (Z.geb_spec (count r) mx); [lia|]. cbn. split; [done|].
  unfold incrementCount. rewrite lookup_alter_eq.
  destruct (cleanupExpiredRecords_cases id c st) as [->|[-> Hsw]].
  - rewrite Hid. by left.
  - right. destruct Hsw as (r' & ? & ?). by simplify_eq.
Qed.

Lemma checkRateLimit_exhausted id mx w t c st r :
  rateLimitMap st !! id = Some r -> t <= resetAt r -> mx <= count r ->
  (checkRateLimit id mx w t c st).1
  = RateLimitResult.mk false 0 (resetAt r) (ceilSeconds (resetAt r - t))
  /\ (rateLimitMap (checkRateLimit id mx w t c st).2 !! id = Some r
      \/ (resetAt r < c
          /\ rateLimitMap (checkRateLimit id mx w t c st).2 !! id = None)).
Proof.
  intros Hid Ht Hc. unfold checkRateLimit. rewrite Hid.
  destruct (Z.ltb_spec (resetAt r) t); [lia|].
  destruct (Z.geb_spec (count r) mx); [|lia]. cbn. split; [done|].
  destruct (cleanupExpiredRecords_cases id c st) as [->|[-> Hsw]].
  - by left.
  - right. destruct Hsw as (r' & ? & ?). by simplify_eq.
Qed.

(** A call for another identifier keeps the bucket of [id] or sweeps it. *)
Lemma checkRateLimit_other id id' mx w t c st :
  id' <> id ->
  rateLimitMap (checkRateLimit id' mx w t c st).2 !! id
  = rateLimitMap (cleanupExpiredRecords c st) !! id.
Proof.
  intros Hne. unfold checkRateLimit, incrementCount.
  destruct (rateLimitMap st !! id') as [r|];
    [destruct (resetAt r <? t); [|destruct (count r >=? mx)]|]; cbn;
    rewrite ?lookup_insert_ne, ?lookup_alter_ne by done; done.
Qed.

End RateLimitFacts.

Section FixedWindow.

Implicit Types (st : State) (id : jsstring) (r : RateLimitRecord).

Lemma run_cons c cs st :
  run (c :: cs) st = ((call c st).1 :: (run cs (call c st).2).1,
                      (run cs (call c st).2).2).
Proof.
  unfold run. cbn. destruct (call c st) as [r st1]. cbn.
  by destruct (runWith call cs st1).
Qed.

Lemma run_others_keep id r cs st :
  Forall (otherUntil id (resetAt r)) cs ->
  rateLimitMap st !! id = Some r ->
  rateLimitMap (run cs st).2 !! id = Some r.
Proof.
  intros Hcs. revert st. induction Hcs as [|c cs [Hne Hc] _ IH]; intros st Hid.
  - done.
  - rewrite run_cons. cbn. apply IH. unfold call.
    rewrite checkRateLimit_other by done.
    by apply cleanupExpiredRecords_live.
Qed.

Lemma run_others_stale id t cs st :
  Forall (other id) cs -> stale id t st -> stale id t (run cs st).2.
Proof.
  intros Hcs. revert st. induction Hcs as [|c cs Hne _ IH]; intros st Hst.
  - done.
  - rewrite run_cons. cbn. apply IH. unfold stale, call.
    rewrite checkRateLimit_other by done.
    destruct (cleanupExpiredRecords_cases id (nowCleanup c) st) as [->|[-> _]];
      [done | by left].
Qed.

(** C2. Fixed-window admission with [max = 5] and [windowMs = 60000].
    For an identifier without a bucket, the first five calls are allowed
    with 4, 3, 2, 1 and 0 remaining and the sixth is refused with 0
    remaining, all six reporting the window opened by the first call,
    [resetAt = t1 + 60000]; the refused call leaves the count at 5.
    This holds for calls made while the window is open, that is with the
    clock reads up to the sixth call no later than [resetAt], and with calls
    of other identifiers in between.  A call whose clock read lies after
    [resetAt] is allowed with [max - 1] remaining and opens a new window. *)
Theorem checkRateLimit_fixed_window id st0
    (t1 c1 t2 c2 t3 c3 t4 c4 t5 c5 t6 c6 t7 c7 : Z)
    (o1 o2 o3 o4 o5 o6 : list Call) :
  let R := t1 + 60000 in
  let a1 := checkRateLimit id 5 60000 t1 c1 st0 in
  let a2 := checkRateLimit id 5 60000 t2 c2 (run o1 a1.2).2 in
  let a3 := checkRateLimit id 5 60000 t3 c3 (run o2 a2.2).2 in
  let a4 := checkRateLimit id 5 60000 t4 c4 (run o3 a3.2).2 in
  let a5 := checkRateLimit id 5 60000 t5 c5 (run o4 a4.2).2 in
  let a6 := checkRateLimit id 5 60000 t6 c6 (run o5 a5.2).2 in
  let a7 := checkRateLimit id 5 60000 t7 c7 (run o6 a6.2).2 in
  rateLimitMap st0 !! id = None ->
  Forall (fun t => t <= R) [c1; t2; c2; t3; c3; t4; c4; t5; c5; t6] ->
  Forall (otherUntil id R) (o1 ++ o2 ++ o3 ++ o4 ++ o5) ->
  Forall (other id) o6 ->
  R < t7 ->
  admission <$> [a1.1; a2.1; a3.1; a4.1; a5.1; a6.1]
  = [(true, 4, R); (true, 3, R); (true, 2, R); (true, 1, R); (true, 0, R);
     (false, 0, R)]
  /\ rateLimitMap (run o5 a5.2).2 !! id = Some {| count := 5; resetAt := R |}
  /\ (rateLimitMap a6.2 !! id = Some {| count := 5; resetAt := R |}
      \/ (R < c6 /\ rateLimitMap a6.2 !! id = None))
  /\ admission a7.1 = (true, 4, t7 + 60000)
  /\ rateLimitMap a7.2 !! id = Some {| count := 1; resetAt := t7 + 60000 |}.
Proof.
  intros R a1 a2 a3 a4 a5 a6 a7 Hfresh Ht Ho Ho6 Ht7. subst R.
  repeat (apply Forall_cons in Ht as [? Ht]).
  rewrite !Forall_app in Ho. destruct Ho as (Ho1 & Ho2 & Ho3 & Ho4 & Ho5).
  (* first call: a new bucket *)
  destruct (checkRateLimit_fresh id 5 60000 t1 c1 st0 (or_introl Hfresh))
    as [E1 S1]. fold a1 in E1, S1.
  apply (run_others_keep id _ o1) in S1; [|done].
  (* second to fifth call: the count goes up *)
  destruct (checkRateLimit_live id 5 60000 t2 c2 _ _ S1
              ltac:(cbn; lia) ltac:(cbn; lia)) as [E2 [S2|[? _]]];
    [|cbn in *; lia]. fold a2 in E2, S2. cbn in E2, S2.
  apply (run_others_keep id _ o2) in S2; [|done].
  destruct (checkRateLimit_live id 5 60000 t3 c3 _ _ S2
              ltac:(cbn; lia) ltac:(cbn; lia)) as [E3 [S3|[? _]]];
    [|cbn in *; lia]. fold a3 in E3, S3. cbn in E3, S3.
  apply (run_others_keep id _ o3) in S3; [|done].
  destruct (checkRateLimit_live id 5 60000 t4 c4 _ _ S3
              ltac:(cbn; lia) ltac:(cbn; lia)) as [E4 [S4|[? _]]];
    [|cbn in *; lia]. fold a4 in E4, S4. cbn in E4, S4.
  apply (run_others_keep id _ o4) in S4; [|done].
  destruct (checkRateLimit_live id 5 60000 t5 c5 _ _ S4
              ltac:(cbn; lia) ltac:(cbn; lia)) as [E5 [S5|[? _]]];
    [|cbn in *; lia]. fold a5 in E5, S5. cbn in E5, S5.
  apply (run_others_keep id _ o5) in S5; [|done].
  (* sixth call: refused *)
  destruct (checkRateLimit_exhausted id 5 60000 t6 c6 _ _ S5
              ltac:(cbn; lia) ltac:(cbn; lia)) as [E6 S6].
  fold a6 in E6, S6. cbn in E6, S6.
  (* a call after the window has closed *)
  assert (stale id t7 a6.2) as St.
  { destruct S6 as [S6|[_ S6]]; [right|by left]. eexists. split; [done|]. cbn. lia. }
  apply (run_others_stale id t7 o6) in St; [|done].
  destruct (checkRateLimit_fresh id 5 60000 t7 c7 _ St) as [E7 S7].
  fold a7 in E7, S7.
  split; [|by rewrite E7].
  cbn [fmap list_fmap]. by rewrite E1, E2, E3, E4, E5, E6.
Qed.

End FixedWindow.

Lemma checkRateLimit_fixed_window_witness :
  let id := js "203.0.113.7" in
  let other := {| identifier := js "198.51.100.2"; maxRequests := 10;
                  windowMs := 300000; now := 1500; nowCleanup := 1500 |} in
  let st5 := (run [ {| identifier := id; maxRequests := 5; windowMs := 60000;
                       now := 1000; nowCleanup := 1000 |};
                    other;
                    {| identifier := id; maxRequests := 5; windowMs := 60000;
                       now := 2000; nowCleanup := 2000 |};
                    {| identifier := id; maxRequests := 5; windowMs := 60000;
                       now := 3000; nowCleanup := 3000 |};
                    {| identifier := id; maxRequests := 5; windowMs := 60000;
                       now := 4000; nowCleanup := 4000 |};
                    {| identifier := id; maxRequests := 5; windowMs := 60000;
                       now := 5000; nowCleanup := 5000 |} ]
                  (initialState 0)).2 in
  admission (checkRateLimit id 5 60000 6000 6000 st5).1 = (false, 0, 61000)
  /\ admission (checkRateLimit id 5 60000 61001 61001
                 (checkRateLimit id 5 60000 6000 6000 st5).2).1
     = (true, 4, 121001).
Proof.
  intros id other st5.
  pose proof (checkRateLimit_fixed_window id (initialState 0)
                1000 1000 2000 2000 3000 3000 4000 4000 5000 5000 6000 6000
                61001 61001 [other] [] [] [] [] []) as H.
  cbv zeta in H.
  destruct H as (Hadm & _ & _ & H7 & _).
  - reflexivity.
  - repeat constructor; lia.
  - repeat constructor; [by vm_compute | cbn; lia].
  - constructor.
  - lia.
  - split; [|exact H7].
    exact (f_equal (fun l => default (true, 0, 0) (l !! 5%nat)) Hadm).
Defined.

Section Eviction.

Implicit Types (st s n : State) (id k : jsstring) (r : RateLimitRecord).

Lemma sweptView_refl t st : sweptView t st st.
Proof. intros k. by left. Qed.

Lemma sweptView_cleanup t c s n :
  t <= c -> sweptView t s n -> sweptView c (cleanupExpiredRecords c s) n.
Proof.
  intros Htc Hv k.
  destruct (cleanupExpiredRecords_cases k c s) as [->|[-> (r & Hk & Hr)]].
  - destruct (Hv k) as [->|[-> (r & Hk & Hr)]]; [by left|].
    right. split; [done|]. exists r. split; [done|lia].
  - right. split; [done|]. exists r. split; [|done].
    destruct (Hv k) as [E|[E _]]; congruence.
Qed.

Lemma sweptView_insert t s n id r :
  sweptView t s n ->
  sweptView t
    {| rateLimitMap := <[id := r]> (rateLimitMap s); lastCleanup := lastCleanup s |}
    {| rateLimitMap := <[id := r]> (rateLimitMap n); lastCleanup := lastCleanup n |}.
Proof.
  intros Hv k. cbn. destruct (decide (id = k)) as [->|Hne].
  - left. by rewrite !lookup_insert_eq.
  - rewrite !lookup_insert_ne by done. apply Hv.
Qed.

Lemma sweptView_increment t s n id :
  sweptView t s n ->
  sweptView t
    {| rateLimitMap := incrementCount id (rateLimitMap s);
       lastCleanup := lastCleanup s |}
    {| rateLimitMap := incrementCount id (rateLimitMap n);
       lastCleanup := lastCleanup n |}.
Proof.
  intros Hv k. cbn. unfold incrementCount. destruct (decide (id = k)) as [->|Hne].
  - rewrite !lookup_alter_eq.
    destruct (Hv k) as [->|[-> (r & -> & Hr)]]; [by left|].
    right. split; [done|]. eexists. split; [done|]. done.
  - rewrite !lookup_alter_ne by done. apply Hv.
Qed.

(** One call: the same result, and the view is kept up to the later of the
    call's two clock reads. *)
Lemma call_sweptView t c s n :
  t <= now c -> now c <= nowCleanup c -> sweptView t s n ->
  (call c s).1 = (callNoSweep c n).1
  /\ sweptView (nowCleanup c) (call c s).2 (callNoSweep c n).2.
Proof.
  intros Ht Hc Hv. unfold call, callNoSweep, checkRateLimit, checkRateLimitNoSweep.
  assert (sweptView (nowCleanup c) (cleanupExpiredRecords (nowCleanup c) s) n) as Hv'
    by (apply (sweptView_cleanup t); [lia|done]).
  set (s' := cleanupExpiredRecords (nowCleanup c) s) in *.
  destruct (Hv (identifier c)) as [->|[-> (r & -> & Hr)]].
  - destruct (rateLimitMap n !! identifier c) as [r|].
    + destruct (resetAt r <? now c).
      * split; [done|]. by apply sweptView_insert.
      * destruct (count r >=? maxRequests c); [done|].
        split; [done|]. by apply sweptView_increment.
    + split; [done|]. by apply sweptView_insert.
  - destruct (Z.ltb_spec (resetAt r) (now c)); [|lia].
    split; [done|]. by apply sweptView_insert.
Qed.

Lemma runWith_cons f c cs st :
  runWith f (c :: cs) st
  = ((f c st).1 :: (runWith f cs (f c st).2).1, (runWith f cs (f c st).2).2).
Proof. cbn. destruct (f c st) as [r st1]. cbn. by destruct (runWith f cs st1). Qed.

Lemma run_sweptView cs : forall t s n,
  clockMonotone t cs -> sweptView t s n -> (run cs s).1 = (runNoSweep cs n).1.
Proof.
  unfold run, runNoSweep.
  induction cs as [|c cs IH]; intros t s n Hm Hv; [done|].
  destruct Hm as (Ht & Hc & Hm).
  destruct (call_sweptView t c s n Ht Hc Hv) as [E Hv'].
  rewrite !runWith_cons. cbn. f_equal; [done|]. by apply (IH (nowCleanup c)).
Qed.










End Eviction.


(** ** The two handlers and the one map *)

(** C1. The generation handler and the explanation handler count the same
    client in the same bucket of the one [rateLimitMap].  A client that has
    made no generation request gets (allowed, 4 remaining) from the
    generation check; after five explanation requests in the five seconds
    before, the same generation check refuses it and reports the window of
    the explanation policy.  In the other direction one generation request
    changes what the next explanation check returns from (9 remaining, a
    window of five minutes) to (8 remaining, the two-minute window). *)
Theorem handlers_share_one_bucket :
  let request := requestOf "POST" [] in
  let st0 := initialState 0 in
  admission (Generate.rateLimitCheck request 6000 6000 st0).1
    = (true, 4, 126000)
  /\ admission (Generate.rateLimitCheck request 6000 6000
                 (afterExplainChecks 5 request 1000 st0)).1
    = (false, 0, 301000)
  /\ admission (Explain.rateLimitCheck request 6000 6000 st0).1
    = (true, 9, 306000)
  /\ admission (Explain.rateLimitCheck request 6000 6000
                 (Generate.rateLimitCheck request 1000 1000 st0).2).1
    = (true, 8, 121000).
Proof. vm_compute. done. Qed.

(** ** Response recovery *)

Section RecoveryFacts.

Implicit Types (s t x y : jsstring) (c : N).

Lemma trimEnd_snoc x c : isWhiteSpace c = false -> trimEnd (x ++ [c]) = x ++ [c].
Proof.
  intros Hc. unfold trimEnd. rewrite rev_app_distr. cbn. rewrite Hc.
  change (c :: rev x) with (rev [c] ++ rev x).
  by rewrite <- rev_app_distr, rev_involutive.
Qed.

Lemma trim_trimStart x : trim (trimStart x) = trim x.
Proof. unfold trim, trimStart. by rewrite dropWhile_idemp. Qed.

Lemma fenceToEnd_snoc y : (3 <= length y)%nat -> fenceToEnd (y ++ [96%N]) = false.
Proof.
  intros Hy. unfold fenceToEnd. rewrite drop_app_le by done.
  rewrite forallb_app. cbn. by rewrite !andb_false_r.
Qed.

Lemma closingFenceHere_cons c x :
  closingFenceHere (c :: x ++ 10%N :: fence) = false.
Proof.
  assert (forall y, y ++ 10%N :: fence = (y ++ [10; 96; 96]%N) ++ [96%N]) as E.
  { intros y. by rewrite <- app_assoc. }
  assert (fenceToEnd (c :: x ++ 10%N :: fence) = false) as H1.
  { change (c :: x ++ 10%N :: fence) with ((c :: x) ++ 10%N :: fence).
    rewrite E. apply fenceToEnd_snoc. rewrite length_app. cbn. lia. }
  assert (fenceToEnd (x ++ 10%N :: fence) = false) as H2.
  { rewrite E. apply fenceToEnd_snoc. rewrite length_app. cbn. lia. }
  unfold closingFenceHere.
  destruct c as [|p]; [done|]. do 4 (destruct p as [p|p|]; try done).
Qed.

(** The closing fence and the line feed before it go, whatever precedes
    them. *)
Lemma stripClosingFence_fenced x : stripClosingFence (x ++ 10%N :: fence) = x.
Proof.
  induction x as [|c x IH]; [done|].
  change ((c :: x) ++ 10%N :: fence) with (c :: x ++ 10%N :: fence).
  cbn [stripClosingFence]. rewrite closingFenceHere_cons. by rewrite IH.
Qed.

Lemma trim_fenced t : trim (fenced t) = fenced t.
Proof.
  unfold trim. change (trimStart (fenced t)) with (fenced t).
  unfold fenced, fence.
  replace ([96; 96; 96]%N ++ js "json" ++ 10%N :: t ++ [10; 96; 96; 96]%N)
    with (([96; 96; 96]%N ++ js "json" ++ 10%N :: t ++ [10; 96; 96]%N) ++ [96%N]).
  - by apply trimEnd_snoc.
  - rewrite <- !app_assoc. cbn. by rewrite <- !app_assoc.
Qed.

(** What the fallback makes of a fenced text: the text inside, trimmed. *)
Lemma cleanResponse_fenced t : cleanResponse (fenced t) = trim t.
Proof.
  unfold cleanResponse. rewrite trim_fenced.
  assert (stripOpeningFence (fenced t) = dropWhile isWhiteSpace (t ++ 10%N :: fence))
    as -> by done.
  rewrite dropWhile_app. destruct (forallb isWhiteSpace t) eqn:E.
  - cbn. unfold trim, trimStart. by rewrite dropWhile_all.
  - rewrite stripClosingFence_fenced. apply trim_trimStart.
Qed.

End RecoveryFacts.

(** C5. For a platform whose [JSON.parse] rejects every text that starts
    with a backtick and reads a text that it accepts to the same value once
    the whitespace at its ends is trimmed (both hold of [JSON.parse]): for
    every JSON text [t], recovery of the fenced [t] yields the value that
    direct parsing of [t] yields; and when both the direct parse and the
    parse of the fence-stripped text fail, the step throws an [Error] whose
    message is that of a failed parse, after logging the raw text, and the
    handler answers it as a failure with status 500. *)
Theorem recovery_of_fenced_json (P : Platform) :
  (forall s, exists e, JSON_parse P (96%N :: s) = Err e) ->
  (forall t v, JSON_parse P t = Ok v -> JSON_parse P (trim t) = Ok v) ->
  (forall t v, JSON_parse P t = Ok v -> (parseAiResponse P (fenced t)).2 = Ok v)
  /\ (forall aiResponse e e',
        JSON_parse P aiResponse = Err e ->
        JSON_parse P (cleanResponse aiResponse) = Err e' ->
        parseAiResponse P aiResponse
        = ([WarnDirectParseFailed; ErrorParseFailedAfterFallback e;
            ErrorRawAiResponse aiResponse],
           Err (Error (js "Failed to parse AI response as JSON: " ++ e)))
        /\ Generate.catchBlock
             (Error (js "Failed to parse AI response as JSON: " ++ e))
           = {| status := 500; headers := [];
                body := FailureBody
                          (js "Failed to generate plan: "
                             ++ js "Failed to parse AI response as JSON: " ++ e)
                          None |}).
Proof.
  intros Hfence Htrim. split.
  - intros t v Ht. unfold parseAiResponse.
    destruct (Hfence (skipn 1 (fenced t))) as [e He].
    change (96%N :: skipn 1 (fenced t)) with (fenced t) in He. rewrite He.
    rewrite cleanResponse_fenced. by rewrite (Htrim t v Ht).
  - intros aiResponse e e' He He'. unfold parseAiResponse.
    by rewrite He, He'.
Qed.

(** ** The JSON reader meets the two assumptions on [JSON.parse] *)

Section ReaderFacts.

Implicit Types (q : ReaderState) (c : N) (t : jsstring).

Lemma readJson_backtick t : exists e, readJson (96%N :: t) = Err e.
Proof. by eexists. Qed.

Ltac bools :=
  repeat match goal with
    | H : (_ || _) = true |- _ => apply orb_true_iff in H as [H|H]
    | H : (_ && _) = true |- _ => apply andb_true_iff in H as [? H]
    | H : (_ =? _)%N = true |- _ => apply N.eqb_eq in H
    | H : (_ <=? _)%N = true |- _ => apply N.leb_le in H
    end.

Lemma isDigit_not_space c : isDigit c = true -> isWhiteSpace c = false.
Proof.
  intros H. unfold isDigit in H. bools.
  destruct (isWhiteSpace c) eqn:E; [|done]. unfold isWhiteSpace in E.
  bools; lia.
Qed.

(** At a code unit of the whitespace class. *)
Ltac not_space :=
  match goal with
  | Hc : isWhiteSpace ?c = true, E : (?c =? _)%N = true |- _ =>
      apply N.eqb_eq in E; subst c; discriminate Hc
  | Hc : isWhiteSpace ?c = true, E : (_ && (?c =? _)%N) = true |- _ =>
      apply andb_true_iff in E as [_ E]; apply N.eqb_eq in E; subst c;
      discriminate Hc
  | Hc : isWhiteSpace ?c = true, E : isDigit ?c = true |- _ =>
      apply isDigit_not_space in E; congruence
  | Hc : isWhiteSpace ?c = true, E : isE ?c = true |- _ =>
      unfold isE in E; apply orb_true_iff in E as [E|E];
      apply N.eqb_eq in E; subst c; discriminate Hc
  end.

Ltac branch :=
  match goal with
  | H : context [if ?b then _ else _] |- _ => destruct b eqn:?
  | H : context [match ?x with _ => _ end] |- _ => destruct x eqn:?
  end.

Lemma startValue_space c stack :
  isWhiteSpace c = true -> startValue c stack = None.
Proof.
  intros Hc. unfold startValue.
  repeat match goal with
    | |- (if ?b then _ else _) = None => destruct b eqn:?; [not_space|]
    end.
  done.
Qed.

Lemma afterValue_space v stack c q :
  isWhiteSpace c = true -> afterValue v stack c = Some q -> q = (AfterValue v, stack).
Proof.
  intros Hc H. unfold afterValue in H.
  destruct (isJsonSpace c); [congruence|].
  destruct stack as [|[items|members|members key] stack]; try done;
    repeat branch; try not_space; done.
Qed.

(** A whitespace code unit never completes a value: if the text read so far
    and that code unit make a JSON text, so does the text read so far. *)
Lemma step_space q c q' v :
  isWhiteSpace c = true -> step q c = Some q' -> finish q' = Ok v ->
  finish q = Ok v.
Proof.
  intros Hc Hs Hf. destruct q as [mode stack]. destruct mode; cbn in Hs.
  - (* ExpectValue *)
    destruct (isJsonSpace c); [congruence|].
    destruct (orClose && (c =? 93)%N) eqn:E; [not_space|].
    by rewrite startValue_space in Hs.
  - (* ExpectKey *)
    repeat branch; simplify_eq; try done; not_space.
  - (* InString *)
    repeat branch; simplify_eq; try done; not_space.
  - (* InEscape *)
    repeat branch; simplify_eq; try done; not_space.
  - (* InUnicode *)
    repeat branch; simplify_eq; done.
  - (* ExpectColon *)
    repeat branch; simplify_eq; done.
  - (* InLiteral *)
    destruct l; do 6 (try destruct position as [|position]);
      unfold literalText, js in Hs; cbn in Hs;
      try done; repeat branch; simplify_eq; try done; not_space.
  - (* InNumber *)
    assert (numComplete phase = true ->
            afterValue (JNumber (numValue n)) stack c = Some q' ->
            finish (InNumber phase n, stack) = Ok v) as Hdone.
    { intros Hp Ha. apply afterValue_space in Ha as ->; [|done].
      cbn in Hf. destruct stack; [|done]. cbn. by rewrite Hp. }
    destruct phase; cbn in Hs;
      repeat match type of Hs with
        | (if ?b then _ else _) = _ => destruct b eqn:?; [not_space|]
        end; try done; by apply Hdone.
  - (* AfterValue *)
    by apply afterValue_space in Hs as ->.
Qed.

Lemma feed_app q t1 t2 :
  feed q (t1 ++ t2) = match feed q t1 with Some q' => feed q' t2 | None => None end.
Proof.
  revert q. induction t1 as [|c t1 IH]; intros q; cbn; [done|].
  destruct (step q c); [apply IH|done].
Qed.

Lemma readJson_snoc t c v :
  isWhiteSpace c = true -> readJson (t ++ [c]) = Ok v -> readJson t = Ok v.
Proof.
  unfold readJson. rewrite feed_app. intros Hc H.
  destruct (feed start t) as [q|]; [|done]. cbn in H.
  destruct (step q c) as [q'|] eqn:Hs; [|done].
  by apply (step_space q c q' v).
Qed.

Lemma readJson_trimEnd t v : readJson t = Ok v -> readJson (trimEnd t) = Ok v.
Proof.
  unfold trimEnd. rewrite <- (rev_involutive t) at 1.
  induction (rev t) as [|c r IH]; cbn; [done|].
  destruct (isWhiteSpace c) eqn:Hc; [|done].
  intros H. apply IH. by apply (readJson_snoc _ c).
Qed.

Lemma readJson_cons c t v :
  isWhiteSpace c = true -> readJson (c :: t) = Ok v -> readJson t = Ok v.
Proof.
  unfold readJson. cbn. intros Hc H.
  destruct (isJsonSpace c); [done|].
  by rewrite startValue_space in H.
Qed.

Lemma readJson_trimStart t v : readJson t = Ok v -> readJson (trimStart t) = Ok v.
Proof.
  unfold trimStart. induction t as [|c t IH]; cbn; [done|].
  destruct (isWhiteSpace c) eqn:Hc; [|done].
  intros H. apply IH. by apply (readJson_cons c).
Qed.

Lemma readJson_trim t v : readJson t = Ok v -> readJson (trim t) = Ok v.
Proof. intros H. by apply readJson_trimEnd, readJson_trimStart. Qed.

End ReaderFacts.

(** Scenario C of the specification: the fenced plan is recovered. *)
Lemma recovery_of_fenced_json_witness :
  (parseAiResponse (examplePlatform []) (fenced (jsq "{'goal':'x','phases':[]}"))).2
  = Ok (JObject [(js "goal", JString (js "x")); (js "phases", JArray [])]).
Proof.
  apply (proj1 (recovery_of_fenced_json (examplePlatform [])
                  readJson_backtick readJson_trim)).
  reflexivity.
Defined.

(** ** The generation handler: which failure gets which answer *)

(** *** Where the issues of a schema lie *)

Section IssuePaths.

Lemma issues_ap {A B} (P : ZodIssue -> Prop) (f : Parsed (A -> B)) (x : Parsed A) :
  Forall P (issues f) -> Forall P (issues x) -> Forall P (issues (ap f x)).
Proof.
  intros Hf Hx. destruct f, x; cbn in *; rewrite ?Forall_app; auto.
Qed.

Lemma issues_pure {A} (P : ZodIssue -> Prop) (a : A) :
  Forall P (issues (Ok a : Parsed A)).
Proof. constructor. Qed.

Lemma below_string : below string_.
Proof. intros p [[]|]; cbn; repeat constructor; done. Qed.

Lemma below_number : below number_.
Proof. intros p [[]|]; cbn; repeat constructor; done. Qed.

Lemma below_enum {A} (options : list (jsstring * A)) : below (enum_ options).
Proof.
  intros p [[]|]; cbn; repeat constructor; try done.
  destruct (lookupOption s options); cbn; repeat constructor; done.
Qed.

Lemma below_field {A} (inner : Schema A) p o key :
  below inner ->
  Forall (fun issue => (p ++ [Key (js key)]) `prefix_of` path issue)
         (issues (field inner p o key)).
Proof. intros H. apply H. Qed.

Lemma prefix_weaken (p : list PathSegment) seg issue :
  (p ++ [seg]) `prefix_of` path issue -> p `prefix_of` path issue.
Proof. intros H. etransitivity; [|exact H]. by apply prefix_app_r. Qed.

Lemma below_elements {A} (inner : Schema A) p items : forall i,
  below inner ->
  Forall (fun issue => p `prefix_of` path issue) (issues (elements inner p i items)).
Proof.
  induction items as [|x items IH]; intros i H; cbn [elements]; [constructor|].
  apply issues_ap; [apply issues_ap; [constructor|]|by apply IH].
  eapply Forall_impl; [apply H|]. intros issue. apply prefix_weaken.
Qed.

Lemma below_array {A} (inner : Schema A) : below inner -> below (array inner).
Proof.
  intros H p [[]|]; cbn; try (repeat constructor; done).
  by apply below_elements.
Qed.

Ltac below_fields :=
  repeat (apply issues_ap; [|eapply Forall_impl;
                              [apply below_field|intros ?; apply prefix_weaken]]);
  try apply issues_pure.

Lemma below_task : below taskSchema.
Proof.
  intros p [[]|]; cbn -[field ap]; try (repeat constructor; done).
  below_fields; auto using below_number, below_string, below_enum.
  apply below_enum.
Qed.

Lemma below_phase : below phaseSchema.
Proof.
  intros p [[]|]; cbn -[field ap]; try (repeat constructor; done).
  below_fields; auto using below_number, below_string, below_array, below_task.
Qed.

(** No issue of the plan schema starts at a field name of the request. *)
Lemma plan_issues_elsewhere v :
  Forall (fun issue => Generate.isInputIssue issue = false)
         (issues (parse projectPlanSchema v)).
Proof.
  unfold parse, projectPlanSchema. destruct v; try (repeat constructor; done).
  cbn -[field ap].
  apply issues_ap; [apply issues_ap; [constructor|]|].
  - eapply Forall_impl; [apply below_field, below_string|].
    intros issue [k Hk]. unfold Generate.isInputIssue. by rewrite Hk.
  - eapply Forall_impl; [apply below_field, below_array, below_phase|].
    intros issue [k Hk]. unfold Generate.isInputIssue. by rewrite Hk.
Qed.

Lemma plan_issues_not_input v l :
  parse projectPlanSchema v = Err l -> existsb Generate.isInputIssue l = false.
Proof.
  intros H. pose proof (plan_issues_elsewhere v) as Hl. rewrite H in Hl. cbn in Hl.
  clear H. induction Hl as [|issue l Hi _ IH]; cbn; [done|]. by rewrite Hi, IH.
Qed.

(** A model output that is JSON but not a plan is answered with status 500
    and the message of an invalid AI response, never as an input error. *)
Lemma invalid_plan_answered_500 v l :
  parse projectPlanSchema v = Err l ->
  Generate.catchBlock (ZodError l)
  = {| status := 500; headers := [];
       body := FailureBody
                 (js "AI generated an invalid response. Please try again.")
                 (Some l) |}.
Proof. intros H. cbn. by rewrite (plan_issues_not_input v l H). Qed.

End IssuePaths.

Section GenerateFailures.

Context (P : Platform) (env : list (jsstring * jsstring)) (config : Env)
        (request : Request) (t c : Z) (st : State).
Hypothesis Hallowed :
  RateLimitResult.allowed (Generate.rateLimitCheck request t c st).1 = true.
Hypothesis Hpost : method request = js "POST".
Hypothesis Hconfig : getConfig P env = Ok config.
Hypothesis Hclient : new_OpenAI P (OPENAI_API_KEY config) = None.

Lemma generate_action_try :
  (Generate.action P env request t c st).1
  = match Generate.tryBlock P request config with
    | Ok plan => Returned {| status := 200; headers := []; body := PlanBody plan |}
    | Err error => Returned (Generate.catchBlock error)
    end.
Proof.
  unfold Generate.action.
  destruct (Generate.rateLimitCheck request t c st) as [rateLimit st'].
  cbn in Hallowed. rewrite Hallowed, Hconfig, Hclient. cbn.
  rewrite bool_decide_eq_true_2 by done. cbn.
  by destruct (Generate.tryBlock P request config).
Qed.

(** A body that fails the request schema with an issue at one of the four
    fields that the [catch] block knows is answered as an input error. *)
Lemma invalid_input_answered_400 payload l :
  JSON_parse P (requestBody request) = Ok payload ->
  parse generatePlanPayloadSchema payload = Err l ->
  existsb Generate.isInputIssue l = true ->
  (Generate.action P env request t c st).1
  = Returned {| status := 400; headers := [];
                body := FailureBody
                          (js "Invalid input data. Please check your form fields.")
                          (Some l) |}.
Proof.
  intros Hbody Hparse Hin. rewrite generate_action_try.
  unfold Generate.tryBlock. rewrite Hbody. cbn [bind mapErr].
  rewrite Hparse. cbn. by rewrite Hin.
Qed.

(** A valid payload whose model output is JSON but fails the plan schema is
    answered as a failure of the model. *)
Lemma invalid_plan_answered_as_ai_failure payload data iso aiText v l :
  JSON_parse P (requestBody request) = Ok payload ->
  parse generatePlanPayloadSchema payload = Ok data ->
  Generate.deadlineText P (deadline data) = Ok iso ->
  responses_create P (OPENAI_MODEL config)
    {| rawUserGoal := sanitizeString (projectGoal data) defaultMaxLength;
       promptExperienceLevel := experienceLevel data;
       promptTimeAvailability := timeAvailability data;
       promptDeadline := iso |} = Ok aiText ->
  aiText <> [] ->
  (parseAiResponse P aiText).2 = Ok v ->
  parse projectPlanSchema v = Err l ->
  (Generate.action P env request t c st).1
  = Returned {| status := 500; headers := [];
                body := FailureBody
                          (js "AI generated an invalid response. Please try again.")
                          (Some l) |}.
Proof.
  intros Hbody Hdata Hiso Hai Hne Hv Hplan. rewrite generate_action_try.
  unfold Generate.tryBlock. rewrite Hbody. cbn [bind mapErr].
  rewrite Hdata. cbn [bind mapErr]. rewrite Hiso. cbn [bind mapErr].
  rewrite Hai. cbn [bind mapErr].
  destruct aiText as [|a aiText']; [done|]. rewrite Hv. cbn [bind mapErr].
  rewrite Hplan. cbn. by rewrite (plan_issues_not_input v l Hplan).
Qed.

End GenerateFailures.

(** C6. A request body that fails the GeneratePlanRequest schema only in
    its [regenerate] field (a string where a boolean is expected), or that
    is not an object at all, is answered with status 500 and the message of
    an invalid AI response: the [catch] block takes a [ZodError] for an
    input error only when an issue starts at one of the four other field
    names. *)
Theorem mistyped_regenerate_is_answered_as_ai_failure :
  let P := examplePlatform [] in
  let body := jsq "{'projectGoal':'Build a Flutter expense app','experienceLevel':'beginner','timeAvailability':'3-5','regenerate':'yes'}" in
  mapErr ZodError (parse generatePlanPayloadSchema
                     (JObject [(js "projectGoal", JString (js "Build a Flutter expense app"));
                               (js "experienceLevel", JString (js "beginner"));
                               (js "timeAvailability", JString (js "3-5"));
                               (js "regenerate", JString (js "yes"))]))
  = Err (ZodError [ {| code := invalid_type; path := [Key (js "regenerate")] |} ])
  /\ (Generate.action P exampleEnv (requestOf "POST" body) 1000 1000 (initialState 0)).1
     = Returned
         {| status := 500; headers := [];
            body := FailureBody
                      (js "AI generated an invalid response. Please try again.")
                      (Some [ {| code := invalid_type;
                                 path := [Key (js "regenerate")] |} ]) |}
  /\ (Generate.action P exampleEnv (requestOf "POST" (js "null")) 1000 1000
        (initialState 0)).1
     = Returned
         {| status := 500; headers := [];
            body := FailureBody
                      (js "AI generated an invalid response. Please try again.")
                      (Some [ {| code := invalid_type; path := [] |} ]) |}.
Proof. vm_compute. done. Qed.

(** ** The handlers and the method of the request *)

(** A request that is not a POST, from a client that has used up its five
    generation requests, is answered with status 429. *)
Lemma non_post_request_answered_429 :
  let request := requestOf "GET" [] in
  let st := afterGenerateChecks 5 request 1000 (initialState 0) in
  method request <> js "POST"
  /\ statusOf (Generate.action (examplePlatform []) exampleEnv request 6000 6000 st).1
     = Some 429
  /\ statusOf (Generate.action (examplePlatform []) exampleEnv request 6000 6000 st).1
     <> Some 405.
Proof. vm_compute. done. Qed.

(** C7, as the code has it. The rate-limit check comes before the test of
    the method: a request with a method other than POST is answered with
    status 405 by either handler when its rate-limit check allows it, and
    with status 429 when the check refuses it. *)
Theorem non_post_request_rejected (P : Platform) (env : list (jsstring * jsstring))
    (request : Request) (t c : Z) (st : State) :
  method request <> js "POST" ->
  statusOf (Generate.action P env request t c st).1
  = Some (if RateLimitResult.allowed (Generate.rateLimitCheck request t c st).1
          then 405 else 429)
  /\ statusOf (Explain.action P env request t c st).1
     = Some (if RateLimitResult.allowed (Explain.rateLimitCheck request t c st).1
             then 405 else 429).
Proof.
  intros Hm. unfold Generate.action, Explain.action.
  destruct (Generate.rateLimitCheck request t c st) as [[[] ? ? ?] ?];
    destruct (Explain.rateLimitCheck request t c st) as [[[] ? ? ?] ?]; cbn;
    rewrite ?bool_decide_eq_false_2 by done; done.
Qed.

Lemma non_post_request_rejected_witness :
  statusOf (Generate.action (examplePlatform []) exampleEnv (requestOf "PUT" [])
              1000 1000 (initialState 0)).1 = Some 405
  /\ statusOf (Explain.action (examplePlatform []) exampleEnv (requestOf "PUT" [])
                 1000 1000 (initialState 0)).1 = Some 405.
Proof.
  apply (non_post_request_rejected (examplePlatform []) exampleEnv
           (requestOf "PUT" []) 1000 1000 (initialState 0)).
  vm_compute. discriminate.
Defined.

(** ** The generation handler and the process environment *)

(** Without [OPENAI_API_KEY] and [OPENAI_MODEL] in the process environment,
    a POST request that passes the rate-limit check makes the handler throw
    the error of [getConfig]: no response is returned. *)
Lemma missing_configuration_escapes :
  (Generate.action (examplePlatform []) [] (requestOf "POST" examplePayload)
     1000 1000 (initialState 0)).1
  = Thrown (Error (js "Invalid environment variables: invalid"))
  /\ statusOf (Generate.action (examplePlatform []) []
                 (requestOf "POST" examplePayload) 1000 1000 (initialState 0)).1
     = None.
Proof. vm_compute. done. Qed.

Lemma catchBlock_structured error : isStructured (Generate.catchBlock error) = true.
Proof.
  destruct error as [issues|status message|message]; cbn.
  - by destruct (existsb Generate.isInputIssue issues).
  - by destruct (bool_decide (status = Some 429)).
  - done.
Qed.

(** With an API key for which the constructor of the client throws, here
    the empty key, which [getConfig] accepts, the handler throws as well:
    the constructor is called outside the [try] block. *)
Lemma unusable_api_key_escapes :
  let env := [(js "OPENAI_API_KEY", []); (js "OPENAI_MODEL", js "gpt-4o-mini")] in
  getConfig (examplePlatform []) env
  = Ok {| OPENAI_API_KEY := []; OPENAI_MODEL := gpt_4o_mini |}
  /\ (Generate.action (examplePlatform []) env (requestOf "POST" examplePayload)
        1000 1000 (initialState 0)).1
     = Thrown (Error (js "Missing credentials")).
Proof. vm_compute. done. Qed.

(** C8, as the code has it. In every process environment that [getConfig]
    accepts and with whose API key the constructor of the client does not
    throw, the generation handler returns a response for every request,
    every behaviour of the rest of the platform, every clock read and every
    state of the limiter: the plan with status 200, or a body
    [{ success: false, message, ... }] with status 400, 405, 429 or 500.
    Nothing is thrown. *)
Theorem generate_action_returns (P : Platform) (env : list (jsstring * jsstring))
    (config : Env) (request : Request) (t c : Z) (st : State) :
  getConfig P env = Ok config ->
  new_OpenAI P (OPENAI_API_KEY config) = None ->
  exists response,
    (Generate.action P env request t c st).1 = Returned response
    /\ isStructured response = true.
Proof.
  intros Hconfig Hclient. unfold Generate.action. rewrite Hconfig, Hclient.
  destruct (Generate.rateLimitCheck request t c st) as [rateLimit st'].
  destruct (RateLimitResult.allowed rateLimit); cbn; [|by eexists].
  destruct (bool_decide (method request = js "POST")); cbn; [|by eexists].
  destruct (Generate.tryBlock P request config) as [plan|error]; cbn.
  - by eexists.
  - eexists. split; [done|]. apply catchBlock_structured.
Qed.

Lemma generate_action_returns_witness :
  exists response,
    (Generate.action (examplePlatform (js "not json")) exampleEnv
       (requestOf "POST" examplePayload) 1000 1000 (initialState 0)).1
    = Returned response
    /\ isStructured response = true.
Proof.
  apply (generate_action_returns (examplePlatform (js "not json")) exampleEnv
           {| OPENAI_API_KEY := js "sk-test"; OPENAI_MODEL := gpt_4o_mini |}).
  - reflexivity.
  - reflexivity.
Defined.

(** ** The scenarios of the specification, run *)

Example sanitizeString_example :
  sanitizeString (js "  Build <b>a</b>   {Flutter};  app  ") defaultMaxLength
  = js "Build ba/b Flutter app".
Proof. reflexivity. Qed.

Example sanitizeString_truncates :
  sanitizeString (js "abcdefghij") 4 = js "abcd".
Proof. reflexivity. Qed.

Example normalizePlan_oversized :
  let plan := normalizePlan oversizedPlan in
  length (phases plan) = 5%nat
  /\ Phase.serial <$> phases plan = inject_Z <$> [1; 2; 3; 4; 5]
  /\ (fun phase => Task.serial <$> Phase.tasks phase) <$> phases plan
     = replicate 5 (inject_Z <$> [1; 2; 3; 4; 5])
  /\ (fun phase => Task.status <$> Phase.tasks phase) <$> phases plan
     = replicate 5 (replicate 5 not_started).
Proof. vm_compute. done. Qed.

(** Scenario B: the sixth generation request within two minutes. *)
Example sixth_generation_request_throttled :
  let request := requestOf "POST" examplePayload in
  let st := afterGenerateChecks 5 request 1000 (initialState 0) in
  (Generate.action (examplePlatform []) exampleEnv request 6000 6000 st).1
  = Returned
      {| status := 429;
         headers := [(js "Retry-After", js "115");
                     (js "X-RateLimit-Limit", js "5");
                     (js "X-RateLimit-Remaining", js "0");
                     (js "X-RateLimit-Reset", js "121")];
         body := FailureBody
                   (js "Too many requests. Please try again in 115 seconds.")
                   None |}.
Proof. vm_compute. done. Qed.

(** Scenario C: the model answers with a fenced plan. *)
Example fenced_plan_returned :
  (Generate.action
     (examplePlatform (fenced (jsq "{'goal':'x','phases':[]}")))
     exampleEnv (requestOf "POST" examplePayload) 1000 1000 (initialState 0)).1
  = Returned {| status := 200; headers := [];
                body := PlanBody {| goal := js "x"; phases := [] |} |}.
Proof. vm_compute. done. Qed.

(** A model output cut off in the middle of the plan. *)
Example truncated_plan_answered_500 :
  (Generate.action (examplePlatform (jsq "{'goal':'x','pha"))
     exampleEnv (requestOf "POST" examplePayload) 1000 1000 (initialState 0)).1
  = Returned
      {| status := 500; headers := [];
         body := FailureBody
                   (js "Failed to generate plan: Failed to parse AI response as JSON: Unexpected end of JSON input")
                   None |}.
Proof. vm_compute. done. Qed.

(** * Further properties *)

(** ** The rate limiter, beyond the fixed window of one client *)

Section LimiterIsolation.

Implicit Types (st n : State) (id : jsstring) (c : Call) (cs : list Call).

Lemma checkRateLimitNoSweep_same id mx w t n n' :
  rateLimitMap n !! id = rateLimitMap n' !! id ->
  (checkRateLimitNoSweep id mx w t n).1 = (checkRateLimitNoSweep id mx w t n').1
  /\ rateLimitMap (checkRateLimitNoSweep id mx w t n).2 !! id
     = rateLimitMap (checkRateLimitNoSweep id mx w t n').2 !! id.
Proof.
  intros E. unfold checkRateLimitNoSweep, incrementCount. rewrite <- E.
  destruct (rateLimitMap n !! id) as [r|] eqn:En;
    [destruct (resetAt r <? t); [|destruct (count r >=? mx)]|]; cbn;
    rewrite ?lookup_insert_eq, ?lookup_alter_eq, <- ?E, ?En; done.
Qed.

Lemma checkRateLimitNoSweep_other id id' mx w t n :
  id' <> id ->
  rateLimitMap (checkRateLimitNoSweep id' mx w t n).2 !! id = rateLimitMap n !! id.
Proof.
  intros Hne. unfold checkRateLimitNoSweep, incrementCount.
  destruct (rateLimitMap n !! id') as [r|];
    [destruct (resetAt r <? t); [|destruct (count r >=? mx)]|]; cbn;
    rewrite ?lookup_insert_ne, ?lookup_alter_ne by done; done.
Qed.

Lemma runNoSweep_callsOf id cs : forall n n',
  rateLimitMap n !! id = rateLimitMap n' !! id ->
  resultsOf id cs (runNoSweep cs n).1 = (runNoSweep (callsOf id cs) n').1.
Proof.
  unfold runNoSweep, callsOf.
  induction cs as [|c cs IH]; intros n n' E; [done|].
  rewrite runWith_cons. cbn [fst resultsOf].
  destruct (decide (identifier c = id)) as [<-|Hid].
  - rewrite filter_cons_True by done. rewrite runWith_cons. cbn [fst].
    destruct (checkRateLimitNoSweep_same (identifier c) (maxRequests c)
                (windowMs c) (now c) n n' E) as [E1 E2].
    f_equal; [done|]. by apply IH.
  - rewrite filter_cons_False by done. apply IH.
    unfold callNoSweep. by rewrite checkRateLimitNoSweep_other.
Qed.

Lemma clockMonotone_weaken t t' cs :
  t' <= t -> clockMonotone t cs -> clockMonotone t' cs.
Proof.
  destruct cs as [|c cs]; [done|]. cbn. intros ? (? & ? & ?).
  split; [lia|done].
Qed.

Lemma clockMonotone_callsOf id cs : forall t,
  clockMonotone t cs -> clockMonotone t (callsOf id cs).
Proof.
  unfold callsOf. induction cs as [|c cs IH]; intros t H; [done|].
  destruct H as (Ht & Hc & H).
  destruct (decide (identifier c = id)).
  - rewrite filter_cons_True by done. cbn. auto.
  - rewrite filter_cons_False by done.
    apply (clockMonotone_weaken (nowCleanup c)); [lia|auto].
Qed.

(** X1. Clients do not see each other: in every sequence of calls whose
    clock reads never go back, the results that the calls of one identifier
    get are the results they would get if the calls of all other identifiers
    had not been made. *)
Theorem identifiers_are_isolated (t0 : Z) id cs st :
  clockMonotone t0 cs ->
  resultsOf id cs (run cs st).1 = (run (callsOf id cs) st).1.
Proof.
  intros Hm.
  rewrite (run_sweptView cs t0 st st Hm (sweptView_refl t0 st)).
  rewrite (run_sweptView (callsOf id cs) t0 st st
             (clockMonotone_callsOf id cs t0 Hm) (sweptView_refl t0 st)).
  by apply runNoSweep_callsOf.
Qed.

End LimiterIsolation.

Lemma identifiers_are_isolated_witness :
  let a := js "203.0.113.7" in
  let b := js "198.51.100.2" in
  let cs := [ {| identifier := a; maxRequests := 1; windowMs := 60000;
                 now := 1000; nowCleanup := 1000 |};
              {| identifier := b; maxRequests := 1; windowMs := 60000;
                 now := 2000; nowCleanup := 2000 |};
              {| identifier := b; maxRequests := 1; windowMs := 60000;
                 now := 3000; nowCleanup := 3001 |};
              {| identifier := a; maxRequests := 1; windowMs := 60000;
                 now := 70000; nowCleanup := 70000 |} ] in
  resultsOf a cs (run cs (initialState 0)).1
  = (run (callsOf a cs) (initialState 0)).1.
Proof.
  intros a b cs.
  apply (identifiers_are_isolated 0 a cs (initialState 0)). cbn. lia.
Defined.

Section WindowOfAnyBudget.

Implicit Types (st : State) (id : jsstring).

Lemma run_callsAt_cons id mx w tc times st :
  run (callsAt id mx w (tc :: times)) st
  = ((checkRateLimit id mx w tc.1 tc.2 st).1
       :: (run (callsAt id mx w times) (checkRateLimit id mx w tc.1 tc.2 st).2).1,
     (run (callsAt id mx w times) (checkRateLimit id mx w tc.1 tc.2 st).2).2).
Proof. unfold callsAt. cbn [fmap list_fmap]. by rewrite run_cons. Qed.

(** The calls after the first: [i] calls were made, the count is the
    smaller of [i] and the number of calls that the budget admits. *)
Lemma run_callsAt_live id mx w R times : forall (i : nat) st,
  (1 <= i)%nat ->
  rateLimitMap st !! id
  = Some {| count := Z.min (Z.of_nat i) (Z.max mx 1); resetAt := R |} ->
  Forall (fun tc => tc.1 <= R /\ tc.2 <= R) times ->
  admission <$> (run (callsAt id mx w times) st).1
  = admissionOfCall mx R <$> seq i (length times).
Proof.
  induction times as [|tc times IH]; intros i st Hi Hst Ht; [done|].
  apply Forall_cons in Ht as [[Ht Hc] Hrest].
  rewrite run_callsAt_cons. cbn [fst length seq fmap list_fmap].
  unfold admissionOfCall at 1.
  destruct (Z.ltb_spec (Z.of_nat i) (Z.max mx 1)) as [Hlt|Hge].
  - destruct (checkRateLimit_live id mx w tc.1 tc.2 st _ Hst
                ltac:(done) ltac:(cbn; lia)) as [E [HS|[? _]]]; [|cbn in *; lia].
    cbn in E, HS. f_equal.
    + rewrite E. unfold admission. cbn. repeat (f_equal; try lia).
    + apply (IH (S i)); [lia| |done]. rewrite HS. do 2 f_equal. lia.
  - destruct (checkRateLimit_exhausted id mx w tc.1 tc.2 st _ Hst
                ltac:(done) ltac:(cbn; lia)) as [E [HS|[? _]]]; [|cbn in *; lia].
    cbn in E. f_equal.
    + by rewrite E.
    + apply (IH (S i)); [lia| |done]. rewrite HS. do 2 f_equal. lia.
Qed.

(** X2. The fixed window for every budget and every number of calls: when
    an identifier without a bucket makes calls under one policy, all of
    them while the window that the first call opens is open, then the call
    number [i] (from 0) is admitted exactly when [i < max maxRequests 1],
    with [maxRequests - i - 1] remaining, a refused call reports 0
    remaining, and every call reports the same [resetAt], the first clock
    read plus [windowMs].  The first call is admitted whatever the budget:
    with [maxRequests] zero or negative it reports a negative [remaining],
    and every further call of the window is refused. *)
Theorem window_of_any_budget id (mx w t1 c1 : Z) (times : list (Z * Z)) st :
  rateLimitMap st !! id = None ->
  c1 <= t1 + w ->
  Forall (fun tc => tc.1 <= t1 + w /\ tc.2 <= t1 + w) times ->
  admission <$> (run (callsAt id mx w ((t1, c1) :: times)) st).1
  = admissionOfCall mx (t1 + w) <$> seq 0 (S (length times)).
Proof.
  intros Hfresh Hc1 Ht. rewrite run_callsAt_cons.
  cbn [fst snd length seq fmap list_fmap].
  destruct (checkRateLimit_fresh id mx w t1 c1 st (or_introl Hfresh)) as [E HS].
  f_equal.
  - rewrite E. unfold admissionOfCall, admission, freshResult.
    cbn -[Z.ltb Z.sub Z.max]. change (Z.of_nat 0) with 0.
    destruct (Z.ltb_spec 0 (Z.max mx 1)); [|lia]. repeat (f_equal; try lia).
  - apply (run_callsAt_live id mx w (t1 + w) times 1); [lia| |done].
    rewrite HS. do 2 f_equal. lia.
Qed.

End WindowOfAnyBudget.

Lemma window_of_any_budget_witness :
  admission <$> (run (callsAt (js "203.0.113.7") 2 300000
                        [(1000, 1000); (2000, 2001); (3000, 3000); (4000, 4000)])
                   (initialState 0)).1
  = [(true, 1, 301000); (true, 0, 301000); (false, 0, 301000); (false, 0, 301000)].
Proof.
  apply (window_of_any_budget (js "203.0.113.7") 2 300000 1000 1000
           [(2000, 2001); (3000, 3000); (4000, 4000)] (initialState 0)).
  - reflexivity.
  - lia.
  - repeat constructor; cbn; lia.
Defined.

(** A budget of zero admits the first call of the window. *)
Example budget_of_zero_admits_one_call :
  admission <$> (run (callsAt (js "203.0.113.7") 0 60000
                        [(1000, 1000); (2000, 2000); (3000, 3000)])
                   (initialState 0)).1
  = [(true, -1, 61000); (false, 0, 61000); (false, 0, 61000)].
Proof. reflexivity. Qed.

(** ** The limiter: what a result tells, and what a sweep removes *)

Section LimiterResults.

Implicit Types (st : State) (id k : jsstring) (r : RateLimitRecord).

Lemma ceilSeconds_bounds ms :
  1000 * (ceilSeconds ms - 1) < ms <= 1000 * ceilSeconds ms.
Proof.
  unfold ceilSeconds.
  pose proof (Z.div_mod (- ms) 1000 ltac:(lia)).
  pose proof (Z.mod_pos_bound (- ms) 1000 ltac:(lia)). lia.
Qed.

(** X3. [resetIn] is the time from the clock read of the call to [resetAt]
    in whole seconds, rounded up: for every call, every budget, every window
    length and every state, [resetAt - now] lies in the last second that
    [resetIn] counts. *)
Theorem resetIn_rounds_up id (mx w t c : Z) st :
  let result := (checkRateLimit id mx w t c st).1 in
  1000 * (RateLimitResult.resetIn result - 1)
  < RateLimitResult.resetAt result - t
  <= 1000 * RateLimitResult.resetIn result.
Proof.
  cbv zeta. unfold checkRateLimit.
  pose proof (ceilSeconds_bounds w) as Hw.
  destruct (rateLimitMap st !! id) as [r|];
    [destruct (resetAt r <? t); [|destruct (count r >=? mx)]|]; cbn;
    try apply ceilSeconds_bounds;
    replace (t + w - t) with w by lia; exact Hw.
Qed.

(** X4. A refusal is never issued on a new or closed window: when a call is
    refused, the identifier had a bucket whose window was still open at the
    clock read of the call and whose count had reached the budget; the
    result reports 0 remaining, the [resetAt] of that bucket and a wait that
    is not negative; and the call changes the state only by the sweep, so a
    refused call is not counted. *)
Theorem refusal_means_exhausted_window id (mx w t c : Z) st :
  RateLimitResult.allowed (checkRateLimit id mx w t c st).1 = false ->
  exists r,
    rateLimitMap st !! id = Some r
    /\ t <= resetAt r /\ mx <= count r
    /\ (checkRateLimit id mx w t c st).1
       = RateLimitResult.mk false 0 (resetAt r) (ceilSeconds (resetAt r - t))
    /\ 0 <= ceilSeconds (resetAt r - t)
    /\ (checkRateLimit id mx w t c st).2 = cleanupExpiredRecords c st.
Proof.
  unfold checkRateLimit.
  destruct (rateLimitMap st !! id) as [r|]; [|done].
  destruct (Z.ltb_spec (resetAt r) t); [done|].
  destruct (Z.geb_spec (count r) mx); [|done].
  intros _. exists r. repeat split; try done; try lia.
  pose proof (ceilSeconds_bounds (resetAt r - t)). lia.
Qed.

(** X5. A sweep that is due, that is at least [CLEANUP_INTERVAL] after the
    last one, removes exactly the buckets whose [resetAt] lies before its
    clock read, keeps every other bucket as it is, and becomes the last
    sweep. *)
Theorem due_sweep_removes_the_expired (t : Z) st :
  CLEANUP_INTERVAL <= t - lastCleanup st ->
  lastCleanup (cleanupExpiredRecords t st) = t
  /\ forall k r,
       rateLimitMap (cleanupExpiredRecords t st) !! k = Some r
       <-> rateLimitMap st !! k = Some r /\ t <= resetAt r.
Proof.
  intros Hdue. rewrite lastCleanup_cleanupExpiredRecords.
  destruct (Z.ltb_spec (t - lastCleanup st) CLEANUP_INTERVAL) as [|_]; [lia|].
  split; [done|]. intros k r. rewrite lookup_cleanupExpiredRecords.
  destruct (Z.ltb_spec (t - lastCleanup st) CLEANUP_INTERVAL) as [|_]; [lia|].
  unfold swept. destruct (rateLimitMap st !! k) as [r'|];
    [|split; [done|by intros [? _]]].
  destruct (Z.ltb_spec (resetAt r') t); split.
  - done.
  - intros [? ?]. simplify_eq. lia.
  - intros ?. simplify_eq. split; [done|lia].
  - by intros [? _].
Qed.

Lemma countsWithin_cleanup M (t : Z) st :
  countsWithin M st -> countsWithin M (cleanupExpiredRecords t st).
Proof.
  intros H k r Hk.
  destruct (cleanupExpiredRecords_cases k t st) as [E|[E _]];
    rewrite E in Hk; [by apply (H k)|done].
Qed.

(** One call under a budget of at least 1 and at most [M]. *)
Lemma call_countsWithin M (c : Call) st :
  1 <= maxRequests c <= M ->
  countsWithin M st ->
  (0 <= RateLimitResult.remaining (call c st).1 < maxRequests c
   /\ (RateLimitResult.allowed (call c st).1 = false
       -> RateLimitResult.remaining (call c st).1 = 0))
  /\ countsWithin M (call c st).2.
Proof.
  intros Hmx Hst. pose proof (countsWithin_cleanup M (nowCleanup c) st Hst) as Hcl.
  unfold call, checkRateLimit.
  assert (forall t,
            countsWithin M
              {| rateLimitMap :=
                   <[identifier c := {| count := 1; resetAt := t |}]>
                     (rateLimitMap (cleanupExpiredRecords (nowCleanup c) st));
                 lastCleanup :=
                   lastCleanup (cleanupExpiredRecords (nowCleanup c) st) |})
    as Hins.
  { intros t k r. cbn. destruct (decide (identifier c = k)) as [<-|Hne].
    - rewrite lookup_insert_eq. intros [= <-]. cbn. lia.
    - rewrite lookup_insert_ne by done. apply Hcl. }
  destruct (rateLimitMap st !! identifier c) as [r|] eqn:Hid.
  - pose proof (Hst _ _ Hid) as Hr.
    destruct (Z.ltb_spec (resetAt r) (now c)); [cbn; split; [lia|apply Hins]|].
    destruct (Z.geb_spec (count r) (maxRequests c)); cbn; [split; [lia|done]|].
    split; [lia|]. intros k r'. cbn. unfold incrementCount.
    destruct (decide (identifier c = k)) as [<-|Hne].
    + rewrite lookup_alter_eq.
      destruct (cleanupExpiredRecords_cases (identifier c) (nowCleanup c) st)
        as [E|[E _]]; rewrite E; [|done].
      rewrite Hid. cbn. intros [= <-]. cbn. lia.
    + rewrite lookup_alter_ne by done. apply Hcl.
  - cbn. split; [lia|apply Hins].
Qed.

(** X6. [remaining] stays within the budget of the call, whatever mix of
    policies the calls bring: from a state whose buckets have counted at
    least 1 and at most [M] requests (the state at module load has no
    bucket), and for calls whose budgets lie between 1 and [M], every result
    has [0 <= remaining < maxRequests], a refusal reports 0 remaining, and
    the counts stay between 1 and [M]. *)
Theorem remaining_stays_within_budget (M : Z) (cs : list Call) st :
  Forall (fun c => 1 <= maxRequests c <= M) cs ->
  countsWithin M st ->
  Forall2 (fun c result =>
             0 <= RateLimitResult.remaining result < maxRequests c
             /\ (RateLimitResult.allowed result = false
                 -> RateLimitResult.remaining result = 0))
          cs (run cs st).1
  /\ countsWithin M (run cs st).2.
Proof.
  intros Hcs. revert st. induction Hcs as [|c cs Hc _ IH]; intros st Hst.
  - split; [constructor|done].
  - rewrite run_cons. cbn [fst snd].
    destruct (call_countsWithin M c st Hc Hst) as [Hres Hst'].
    destruct (IH _ Hst') as [Hrest Hfinal].
    split; [by constructor|done].
Qed.

End LimiterResults.

Lemma refusal_means_exhausted_window_witness :
  let id := js "203.0.113.7" in
  let st := (checkRateLimit id 1 60000 1000 1000 (initialState 0)).2 in
  exists r,
    rateLimitMap st !! id = Some r
    /\ 1500 <= resetAt r /\ 1 <= count r
    /\ (checkRateLimit id 1 60000 1500 1500 st).1
       = RateLimitResult.mk false 0 (resetAt r) (ceilSeconds (resetAt r - 1500))
    /\ 0 <= ceilSeconds (resetAt r - 1500)
    /\ (checkRateLimit id 1 60000 1500 1500 st).2 = cleanupExpiredRecords 1500 st.
Proof.
  intros id st.
  apply (refusal_means_exhausted_window id 1 60000 1500 1500 st). reflexivity.
Defined.

Lemma due_sweep_removes_the_expired_witness :
  let st := (run (callsAt (js "203.0.113.7") 5 60000 [(1000, 1000)]
                  ++ callsAt (js "198.51.100.2") 5 60000 [(20000, 20000)])
               (initialState 0)).2 in
  lastCleanup (cleanupExpiredRecords 70000 st) = 70000
  /\ forall k r,
       rateLimitMap (cleanupExpiredRecords 70000 st) !! k = Some r
       <-> rateLimitMap st !! k = Some r /\ 70000 <= resetAt r.
Proof.
  intros st. apply (due_sweep_removes_the_expired 70000 st). by vm_compute.
Defined.

Lemma remaining_stays_within_budget_witness :
  let cs := callsAt (js "203.0.113.7") 5 120000 [(1000, 1000); (2000, 2000)]
            ++ callsAt (js "203.0.113.7") 10 300000 [(3000, 3000)] in
  Forall2 (fun c result =>
             0 <= RateLimitResult.remaining result < maxRequests c
             /\ (RateLimitResult.allowed result = false
                 -> RateLimitResult.remaining result = 0))
          cs (run cs (initialState 0)).1
  /\ countsWithin 10 (run cs (initialState 0)).2.
Proof.
  intros cs. apply (remaining_stays_within_budget 10 cs (initialState 0)).
  - repeat constructor; by vm_compute.
  - intros k r Hk. done.
Defined.

(** ** The identifier of a client *)

Section ClientIdentifier.

Implicit Types (first tail rest : jsstring).

Lemma beforeComma_app first tail :
  Forall (fun c => c <> 44%N) first ->
  match tail with [] => True | c :: _ => c = 44%N end ->
  beforeComma (first ++ tail) = first.
Proof.
  intros Hfirst Htail. induction Hfirst as [|c first Hc _ IH]; cbn.
  - destruct tail as [|c tail]; [done|]. subst c. done.
  - destruct (N.eqb_spec c 44); [done|]. by rewrite IH.
Qed.

Lemma truthy_nonempty (s : jsstring) : s <> [] -> truthy (Some s) = Some s.
Proof. by destruct s. Qed.

(** X7. Of a non-empty [x-forwarded-for] header, only the text before the
    first comma counts, with the whitespace at its ends trimmed: what
    follows the first comma, and the headers [x-real-ip] and
    [cf-connecting-ip], do not enter the identifier. *)
Theorem client_identifier_is_first_forwarded_entry
    (headers_get : jsstring -> option jsstring) first tail :
  Forall (fun c => c <> 44%N) first ->
  match tail with [] => True | c :: _ => c = 44%N end ->
  first ++ tail <> [] ->
  headers_get (js "x-forwarded-for") = Some (first ++ tail) ->
  getClientIdentifier headers_get = trim first.
Proof.
  intros Hfirst Htail Hne Hget. unfold getClientIdentifier.
  rewrite Hget, truthy_nonempty by done. by rewrite beforeComma_app.
Qed.

End ClientIdentifier.

Lemma client_identifier_is_first_forwarded_entry_witness :
  getClientIdentifier
    (fun name =>
       if decide (name = js "x-forwarded-for")
       then Some (js " 203.0.113.7 , 10.0.0.1, 10.0.0.2")
       else Some (js "198.51.100.2"))
  = js "203.0.113.7".
Proof.
  apply (client_identifier_is_first_forwarded_entry _
           (js " 203.0.113.7 ") (js ", 10.0.0.1, 10.0.0.2")).
  - vm_compute. repeat (constructor; [discriminate|]). constructor.
  - reflexivity.
  - discriminate.
  - reflexivity.
Defined.

(** ** The sanitizer, on every input and every bound *)

Section SanitizeAll.

Implicit Types (s input r : jsstring) (c : N).

Lemma length_slice0_le s (n : Z) : (length (slice0 s n) <= length s)%nat.
Proof. unfold slice0. destruct (n <? 0); rewrite length_take; lia. Qed.

Lemma length_slice0_negative s (n : Z) :
  n < 0 -> Z.of_nat (length (slice0 s n)) <= Z.max (Z.of_nat (length s) + n) 0.
Proof.
  intros Hn. unfold slice0. destruct (Z.ltb_spec n 0); [|lia].
  rewrite length_take. lia.
Qed.

(** What steps 2, 3 and 5 removed stays removed, and the result is
    trimmed. *)
Lemma sanitizeString_removed input (maxLength : Z) :
  let r := sanitizeString input maxLength in
  trim r = r
  /\ Forall (fun c => isControl c = false) r
  /\ Forall (fun c => isDangerous c = false) r
  /\ Forall (fun c => isZeroWidth c = false) r.
Proof.
  cbv zeta. unfold sanitizeString, collapseWhitespace.
  set (s0 := slice0 (trim input) maxLength).
  split; [apply trim_idemp|]. split; [|split].
  - apply Forall_trim, Forall_removeAll, Forall_collapseFrom; [done|].
    apply Forall_removeAll, removeAll_removed.
  - apply Forall_trim, Forall_removeAll, Forall_collapseFrom; [done|].
    apply removeAll_removed.
  - apply Forall_trim, removeAll_removed.
Qed.

(** X8. Whatever the input and whatever the bound, the sanitized text
    holds no control character (0x00-0x1F, 0x7F), none of the characters of
    step 3 (angle brackets, quotes, backtick, semicolon, braces, square
    brackets, backslash) and no zero-width character (U+200B-U+200D,
    U+FEFF), and it neither starts nor ends with whitespace.  It is never
    longer than the input; with a bound [maxLength >= 0] it has at most
    [maxLength] code units; with a negative bound, where [slice] counts
    from the end, at most the length of the input less [|maxLength|]. *)
Theorem sanitizeString_output_is_clean input (maxLength : Z) :
  let r := sanitizeString input maxLength in
  trim r = r
  /\ Forall (fun c => isControl c = false /\ isDangerous c = false
                      /\ isZeroWidth c = false) r
  /\ (length r <= length input)%nat
  /\ Z.of_nat (length r)
     <= (if maxLength <? 0
         then Z.max (Z.of_nat (length input) + maxLength) 0
         else maxLength).
Proof.
  cbv zeta.
  destruct (sanitizeString_removed input maxLength) as (Ht & Hc & Hd & Hz).
  split; [done|]. split; [apply Forall_and; split; [done|by apply Forall_and]|].
  clear. unfold sanitizeString, collapseWhitespace.
  pose proof (length_trim input).
  pose proof (length_slice0_le (trim input) maxLength).
  assert (Z.of_nat (length (slice0 (trim input) maxLength))
          <= (if maxLength <? 0
              then Z.max (Z.of_nat (length input) + maxLength) 0
              else maxLength)) as Hslice.
  { destruct (Z.ltb_spec maxLength 0).
    - pose proof (length_slice0_negative (trim input) maxLength ltac:(done)). lia.
    - by apply length_slice0. }
  set (s0 := slice0 (trim input) maxLength) in *.
  pose proof (length_removeAll isControl s0).
  set (s1 := removeAll isControl s0) in *.
  pose proof (length_removeAll isDangerous s1).
  set (s2 := removeAll isDangerous s1) in *.
  pose proof (length_collapseFrom false s2).
  set (s3 := collapseFrom false s2) in *.
  pose proof (length_removeAll isZeroWidth s3).
  set (s4 := removeAll isZeroWidth s3) in *.
  pose proof (length_trim s4). split; lia.
Qed.

Lemma isJoiner_isZeroWidth c : isZeroWidth c = false -> isJoiner c = false.
Proof.
  unfold isZeroWidth, isJoiner. intros H. by apply orb_false_iff in H as [-> _].
Qed.

Lemma sanitizeString_fixed r (maxLength : Z) :
  0 <= maxLength ->
  sanitizeString r maxLength = r ->
  Z.of_nat (length r) <= maxLength
  /\ trim r = r
  /\ Forall (fun c => isControl c = false) r
  /\ Forall (fun c => isDangerous c = false) r
  /\ Forall (fun c => isZeroWidth c = false) r
  /\ collapsed false r.
Proof.
  intros Hn Hfix.
  pose proof (sanitizeString_length r maxLength Hn) as Hlen.
  destruct (sanitizeString_removed r maxLength) as (_ & _ & _ & Hz).
  rewrite Hfix in Hlen, Hz.
  assert (Forall (fun c => isJoiner c = false) r) as Hj.
  { eapply Forall_impl; [exact Hz|]. intros c. apply isJoiner_isZeroWidth. }
  pose proof (sanitizeString_clean r maxLength Hj) as Hclean. cbv zeta in Hclean.
  rewrite Hfix in Hclean. tauto.
Qed.

(** X9. When sanitizing changes nothing, for a bound that is a length.
    The texts that the sanitizer leaves as they are, are exactly the texts
    within the bound that are trimmed, hold no character of the three
    removed classes, and have single spaces as their only whitespace.  A
    second pass over a sanitized text changes nothing exactly when the
    first result has single spaces as its only whitespace; and it has, for
    every input without the code units U+200B, U+200C and U+200D. *)
Theorem sanitizeString_fixed_points r input (maxLength : Z) :
  0 <= maxLength ->
  (sanitizeString r maxLength = r
   <-> (Z.of_nat (length r) <= maxLength
        /\ trim r = r
        /\ Forall (fun c => isControl c = false) r
        /\ Forall (fun c => isDangerous c = false) r
        /\ Forall (fun c => isZeroWidth c = false) r
        /\ collapsed false r))
  /\ (sanitizeString (sanitizeString input maxLength) maxLength
      = sanitizeString input maxLength
      <-> collapsed false (sanitizeString input maxLength))
  /\ (Forall (fun c => isJoiner c = false) input ->
      collapsed false (sanitizeString input maxLength)).
Proof.
  intros Hn. split; [split|split; [split|]].
  - by apply sanitizeString_fixed.
  - intros (? & ? & ? & ? & ? & ?). by apply sanitizeString_settled.
  - intros Hfix.
    by destruct (sanitizeString_fixed _ maxLength Hn Hfix) as (_ & _ & _ & _ & _ & ?).
  - intros Hcol.
    destruct (sanitizeString_removed input maxLength) as (? & ? & ? & ?).
    apply sanitizeString_settled; auto using sanitizeString_length.
  - intros Hj. by apply (sanitizeString_clean input maxLength Hj).
Qed.

End SanitizeAll.

Lemma sanitizeString_fixed_points_witness :
  let r := js "Build a Flutter expense app" in
  let input := js "  Build <b>a</b>   {Flutter};  app  " in
  (sanitizeString r 500 = r
   <-> (Z.of_nat (length r) <= 500
        /\ trim r = r
        /\ Forall (fun c => isControl c = false) r
        /\ Forall (fun c => isDangerous c = false) r
        /\ Forall (fun c => isZeroWidth c = false) r
        /\ collapsed false r))
  /\ (sanitizeString (sanitizeString input 500) 500 = sanitizeString input 500
      <-> collapsed false (sanitizeString input 500))
  /\ (Forall (fun c => isJoiner c = false) input ->
      collapsed false (sanitizeString input 500)).
Proof.
  intros r input. apply (sanitizeString_fixed_points r input 500). lia.
Defined.

(** ** Response recovery: the texts that the fallback parses *)

Section RecoveryForms.

Implicit Types (s t x y w : jsstring) (c : N).

Lemma forallb_rev (p : N -> bool) w : forallb p w = true -> forallb p (rev w) = true.
Proof.
  rewrite !forallb_forall. intros H c Hc. apply H. by apply in_rev.
Qed.

Lemma trimEnd_app_ws x w :
  forallb isWhiteSpace w = true -> trimEnd (x ++ w) = trimEnd x.
Proof.
  intros Hw. unfold trimEnd. rewrite rev_app_distr, dropWhile_app.
  by rewrite forallb_rev.
Qed.

Lemma trim_all_ws x : forallb isWhiteSpace x = true -> trim x = [].
Proof. intros Hx. unfold trim, trimStart. by rewrite dropWhile_all. Qed.

Lemma trim_app_ws x w : forallb isWhiteSpace w = true -> trim (x ++ w) = trim x.
Proof.
  intros Hw. unfold trim at 1. unfold trimStart. rewrite dropWhile_app.
  destruct (forallb isWhiteSpace x) eqn:Hx.
  - rewrite (dropWhile_all _ w Hw). by rewrite trim_all_ws.
  - by rewrite trimEnd_app_ws.
Qed.

Lemma trim_ws_app w x : forallb isWhiteSpace w = true -> trim (w ++ x) = trim x.
Proof. intros Hw. unfold trim, trimStart. by rewrite dropWhile_app, Hw. Qed.

Lemma fenceToEnd_plain x : Forall (fun c => c <> 96%N) x -> fenceToEnd x = false.
Proof.
  intros [|a x' Ha _]; [done|]. unfold fenceToEnd, fence. cbn [startsWith].
  by destruct (N.eqb_spec 96 a).
Qed.

Lemma stripClosingFence_plain x :
  Forall (fun c => c <> 96%N) x -> stripClosingFence x = x.
Proof.
  induction 1 as [|c x Hc Hx IH]; [done|].
  cbn [stripClosingFence].
  assert (closingFenceHere (c :: x) = false) as ->.
  { pose proof (fenceToEnd_plain (c :: x) ltac:(by constructor)) as H1.
    pose proof (fenceToEnd_plain x Hx) as H2.
    unfold closingFenceHere.
    destruct c as [|p]; [done|]. do 4 (destruct p as [p|p|]; try done). }
  by rewrite IH.
Qed.

(** X10. A model output without a backtick goes through the fallback
    unchanged but for the whitespace at its ends: the two replacements find
    no fence to strip. *)
Theorem cleanResponse_without_backtick s :
  Forall (fun c => c <> 96%N) s -> cleanResponse s = trim s.
Proof.
  intros Hs. unfold cleanResponse.
  pose proof (Forall_trim _ s Hs) as Ht.
  assert (stripOpeningFence (trim s) = trim s) as ->.
  { unfold stripOpeningFence, fence. destruct Ht as [|a x Ha _]; [done|].
    cbn [startsWith]. by destruct (N.eqb_spec 96 a). }
  rewrite stripClosingFence_plain by done. apply trim_idemp.
Qed.

Lemma fenceToEnd_app_fence y : y <> [] -> fenceToEnd (y ++ fence) = false.
Proof.
  intros Hy.
  replace (y ++ fence) with ((y ++ [96; 96]%N) ++ [96%N])
    by (by rewrite <- app_assoc).
  apply fenceToEnd_snoc. rewrite length_app. destruct y; [done|]. cbn. lia.
Qed.

(** The closing fence goes, and with it at most the line feed before it. *)
Lemma stripClosingFence_app_fence x :
  exists w, x = stripClosingFence (x ++ fence) ++ w
            /\ forallb isWhiteSpace w = true.
Proof.
  induction x as [|c x IH].
  - by exists [].
  - change ((c :: x) ++ fence) with (c :: x ++ fence).
    cbn [stripClosingFence].
    destruct (closingFenceHere (c :: x ++ fence)) eqn:Hhere.
    + exists (c :: x). split; [done|].
      assert (fenceToEnd (c :: x ++ fence) = false) as H1
        by (apply (fenceToEnd_app_fence (c :: x)); done).
      unfold closingFenceHere in Hhere.
      assert (c = 10%N /\ fenceToEnd (x ++ fence) = true) as [-> H2].
      { destruct c as [|p]; [congruence|].
        do 4 (destruct p as [p|p|]; try congruence). done. }
      destruct x as [|c' x']; [done|].
      by rewrite (fenceToEnd_app_fence (c' :: x')) in H2.
    + destruct IH as (w & Hw & Hall). exists w. split; [|done].
      cbn. by rewrite <- Hw.
Qed.

Lemma startsWith_app p x : startsWith p (p ++ x) = true.
Proof. induction p as [|c p IH]; cbn; [done|]. by rewrite N.eqb_refl. Qed.

Lemma startsWith_json_fence t :
  startsWith (js "json") t = false -> startsWith (js "json") (t ++ fence) = false.
Proof.
  change (js "json") with [106; 115; 111; 110]%N. unfold fence.
  destruct t as [|a [|b [|c [|d t]]]]; cbn; intros H;
    rewrite ?andb_false_r; done.
Qed.

(** X11. The fallback recovers the text between the fences in every form
    that the two patterns cover: an opening fence with or without the tag
    [json], a closing fence, any whitespace before the opening and after the
    closing fence, and any text in between (which may itself begin and end
    with whitespace or line feeds); the result is that text, trimmed.
    Without the tag, the text must not itself begin with [json]. *)
Theorem cleanResponse_strips_fences ws1 tag t ws3 :
  forallb isWhiteSpace ws1 = true ->
  forallb isWhiteSpace ws3 = true ->
  tag = js "json" \/ (tag = [] /\ startsWith (js "json") t = false) ->
  cleanResponse (ws1 ++ fence ++ tag ++ t ++ fence ++ ws3) = trim t.
Proof.
  intros H1 H3 Htag. unfold cleanResponse.
  set (core := fence ++ tag ++ t ++ fence).
  assert (trim (ws1 ++ fence ++ tag ++ t ++ fence ++ ws3) = core) as ->.
  { replace (ws1 ++ fence ++ tag ++ t ++ fence ++ ws3) with (ws1 ++ core ++ ws3)
      by (unfold core; by rewrite <- !app_assoc).
    rewrite trim_ws_app, trim_app_ws by done.
    unfold trim. change (trimStart core) with core. unfold core.
    replace (fence ++ tag ++ t ++ fence)
      with ((fence ++ tag ++ t ++ [96; 96]%N) ++ [96%N])
      by (by rewrite <- !app_assoc).
    by apply trimEnd_snoc. }
  assert (stripOpeningFence core = trimStart t ++ fence) as ->.
  { unfold core, stripOpeningFence.
    change (startsWith fence (fence ++ tag ++ t ++ fence)) with true.
    cbv iota. change (drop 3 (fence ++ tag ++ t ++ fence)) with (tag ++ t ++ fence).
    assert ((if startsWith (js "json") (tag ++ t ++ fence)
             then drop 4 (tag ++ t ++ fence) else tag ++ t ++ fence)
            = t ++ fence) as ->.
    { destruct Htag as [->|[-> Ht]].
      - by rewrite startsWith_app.
      - cbn [app]. by rewrite startsWith_json_fence. }
    unfold trimStart. rewrite dropWhile_app.
    destruct (forallb isWhiteSpace t) eqn:Ht; [|done].
    by rewrite (dropWhile_all _ t Ht). }
  destruct (stripClosingFence_app_fence (trimStart t)) as (w & Hw & Hall).
  rewrite <- (trim_trimStart t). rewrite Hw at 2. by rewrite trim_app_ws.
Qed.

End RecoveryForms.

Lemma cleanResponse_without_backtick_witness :
  cleanResponse (jsq "  {'goal':'x','phases':[]} ") = jsq "{'goal':'x','phases':[]}".
Proof.
  apply (cleanResponse_without_backtick (jsq "  {'goal':'x','phases':[]} ")).
  vm_compute. repeat (constructor; [discriminate|]). constructor.
Defined.

Lemma cleanResponse_strips_fences_witness :
  cleanResponse ([10; 32]%N ++ fence ++ [] ++ jsq "{'goal':'x','phases':[]}"
                   ++ fence ++ [32; 10]%N)
  = jsq "{'goal':'x','phases':[]}".
Proof.
  apply (cleanResponse_strips_fences [10; 32]%N [] (jsq "{'goal':'x','phases':[]}")
           [32; 10]%N).
  - reflexivity.
  - reflexivity.
  - right. split; reflexivity.
Defined.

(** ** The schemas: what they accept and what they deliver *)

Section SchemaFacts.

Lemma ap_Ok {A B} (f : Parsed (A -> B)) (x : Parsed A) (b : B) :
  ap f x = Ok b -> exists g a, f = Ok g /\ x = Ok a /\ b = g a.
Proof. destruct f as [g|], x as [a|]; cbn; intros [= <-]; eauto. Qed.

Lemma trimmedNonEmpty_Ok p v t :
  trimmedNonEmpty p v = Ok t ->
  exists s, v = Some (JString s) /\ t = trim s /\ t <> [].
Proof.
  unfold trimmedNonEmpty, string_. destruct v as [[| | |s| |]|]; try done.
  destruct (trim s) as [|c t'] eqn:E; [done|]. intros [= <-].
  exists s. by rewrite E.
Qed.

(** X12. The goal that validation delivers is the goal of the request with
    the whitespace at its ends trimmed, and it is not empty: the payload is
    an object whose [projectGoal] is a string with a character that is not
    whitespace. *)
Theorem accepted_payload_has_trimmed_goal (v : json) (data : GeneratePlanPayload) :
  parse generatePlanPayloadSchema v = Ok data ->
  exists o s,
    v = JObject o
    /\ member (js "projectGoal") o = Some (JString s)
    /\ projectGoal data = trim s
    /\ projectGoal data <> []
    /\ trim (projectGoal data) = projectGoal data.
Proof.
  unfold parse, generatePlanPayloadSchema.
  destruct v as [| | | | |o]; try done. intros H.
  apply ap_Ok in H as (g5 & r & H & _ & ->).
  apply ap_Ok in H as (g4 & d & H & _ & ->).
  apply ap_Ok in H as (g3 & a & H & _ & ->).
  apply ap_Ok in H as (g2 & l & H & _ & ->).
  apply ap_Ok in H as (g1 & s & H & Hgoal & ->).
  injection H as <-. unfold field in Hgoal.
  apply trimmedNonEmpty_Ok in Hgoal as (s' & Hs' & -> & Hne).
  exists o, s'. cbn. repeat split; try done. apply trim_idemp.
Qed.

Ltac members :=
  unfold field;
  repeat match goal with
    | |- context [member ?k ?l] =>
        let v := eval vm_compute in (member k l) in
        change (member k l) with v
    end.

Lemma taskSchema_taskJson p (task : Task.t) :
  taskSchema p (Some (taskJson task)) = Ok task.
Proof.
  destruct task as [i t s n]. unfold taskSchema, taskJson. members.
  by destruct s.
Qed.

Lemma elements_map {A} (schema : Schema A) (toJson : A -> json) p (l : list A) :
  (forall p' a, schema p' (Some (toJson a)) = Ok a) ->
  forall i, elements schema p i (map toJson l) = Ok l.
Proof.
  intros Hone. induction l as [|a l IH]; intros i; cbn [elements map]; [done|].
  by rewrite Hone, IH.
Qed.

Lemma phaseSchema_phaseJson p (phase : Phase.t) :
  phaseSchema p (Some (phaseJson phase)) = Ok phase.
Proof.
  destruct phase as [n ts s]. unfold phaseSchema, phaseJson. members.
  cbn [string_ array number_ Phase.name Phase.tasks Phase.serial].
  by rewrite (elements_map taskSchema taskJson _ ts taskSchema_taskJson).
Qed.

Lemma projectPlanSchema_planJson p (plan : ProjectPlan) :
  projectPlanSchema p (Some (planJson plan)) = Ok plan.
Proof.
  destruct plan as [g ps]. unfold projectPlanSchema, planJson. members.
  cbn [string_ array goal phases].
  by rewrite (elements_map phaseSchema phaseJson _ ps phaseSchema_phaseJson).
Qed.

Lemma generatePlanPayloadSchema_payloadJson p (payload : GeneratePlanPayload) :
  trim (projectGoal payload) = projectGoal payload ->
  projectGoal payload <> [] ->
  generatePlanPayloadSchema p (Some (payloadJson payload)) = Ok payload.
Proof.
  destruct payload as [g l a d r]. cbn [projectGoal]. intros Htrim Hne.
  unfold generatePlanPayloadSchema, payloadJson.
  cbn [projectGoal experienceLevel timeAvailability deadline regenerate].
  assert (trimmedNonEmpty (p ++ [Key (js "projectGoal")]) (Some (JString g)) = Ok g)
    as Hgoal.
  { unfold trimmedNonEmpty, string_. rewrite Htrim. by destruct g. }
  destruct l, a, d as [d|], r as [r|]; members; by rewrite Hgoal.
Qed.

(** X13. What the page saves, it loads back: for a plan and a query whose
    goal is trimmed and not empty (as validation delivers it), a saved item
    that reads as the JSON of the two is validated to the same plan and
    query, and the item is not removed. *)
Theorem saved_plan_is_loaded_back (P : Platform) (saved : jsstring)
    (planData : Page.PlanData) :
  trim (projectGoal (Page.query planData)) = projectGoal (Page.query planData) ->
  projectGoal (Page.query planData) <> [] ->
  JSON_parse P saved = Ok (Page.planDataJson planData) ->
  saved <> [] ->
  Page.loadPlanData P (Some saved) = (Some planData, false).
Proof.
  intros Htrim Hne Hparse Hsaved. unfold Page.loadPlanData.
  rewrite truthy_nonempty by done. rewrite Hparse.
  destruct planData as [plan query]. cbn [Page.query] in *.
  unfold parse, Page.savedPlanDataSchema, Page.planDataJson.
  cbn [Page.plan Page.query].
  remember (planJson plan) as planValue eqn:Eplan.
  remember (payloadJson query) as queryValue eqn:Equery.
  members. subst planValue queryValue.
  rewrite projectPlanSchema_planJson.
  by rewrite generatePlanPayloadSchema_payloadJson.
Qed.

End SchemaFacts.

Lemma accepted_payload_has_trimmed_goal_witness :
  exists o s,
    JObject [(js "projectGoal", JString (js "  Build an app "));
             (js "experienceLevel", JString (js "beginner"));
             (js "timeAvailability", JString (js "10+"))] = JObject o
    /\ member (js "projectGoal") o = Some (JString s)
    /\ js "Build an app" = trim s
    /\ js "Build an app" <> []
    /\ trim (js "Build an app") = js "Build an app".
Proof.
  apply (accepted_payload_has_trimmed_goal
           (JObject [(js "projectGoal", JString (js "  Build an app "));
                     (js "experienceLevel", JString (js "beginner"));
                     (js "timeAvailability", JString (js "10+"))])
           {| projectGoal := js "Build an app"; experienceLevel := beginner;
              timeAvailability := hours_10_plus; deadline := None;
              regenerate := None |}).
  reflexivity.
Defined.

Lemma saved_plan_is_loaded_back_witness :
  let planData :=
    {| Page.plan := {| goal := js "x"; phases := [] |};
       Page.query := {| projectGoal := js "Build an app";
                        experienceLevel := beginner;
                        timeAvailability := hours_10_plus;
                        deadline := None; regenerate := Some true |} |} in
  Page.loadPlanData (examplePlatform [])
    (Some (jsq "{'plan':{'goal':'x','phases':[]},'query':{'projectGoal':'Build an app','experienceLevel':'beginner','timeAvailability':'10+','regenerate':true}}"))
  = (Some planData, false).
Proof.
  intros planData.
  apply (saved_plan_is_loaded_back (examplePlatform []) _ planData).
  - reflexivity.
  - discriminate.
  - reflexivity.
  - discriminate.
Defined.

(** ** The handlers and the limiter *)

Section HandlersAndLimiter.

Context (P : Platform) (env : list (jsstring * jsstring)).

Implicit Types (request : Request) (st : State) (t c : Z).

Lemma generate_action_cases request t c st :
  Generate.action P env request t c st
  = (let rateLimit := (Generate.rateLimitCheck request t c st).1 in
     if negb (RateLimitResult.allowed rateLimit)
     then Returned (Generate.rateLimitedResponse rateLimit)
     else if negb (bool_decide (method request = js "POST"))
     then Returned Generate.methodNotAllowed
     else match getConfig P env with
          | Err e => Thrown e
          | Ok config =>
              match new_OpenAI P (OPENAI_API_KEY config) with
              | Some e => Thrown e
              | None =>
                  match Generate.tryBlock P request config with
                  | Ok plan =>
                      Returned {| status := 200; headers := [];
                                  body := PlanBody plan |}
                  | Err error => Returned (Generate.catchBlock error)
                  end
              end
          end,
     (Generate.rateLimitCheck request t c st).2).
Proof.
  unfold Generate.action.
  destruct (Generate.rateLimitCheck request t c st) as [rateLimit st']. cbn.
  destruct (RateLimitResult.allowed rateLimit); cbn; [|done].
  destruct (bool_decide (method request = js "POST")); cbn; [|done].
  destruct (getConfig P env) as [config|e]; [|done].
  destruct (new_OpenAI P (OPENAI_API_KEY config)); [done|].
  by destruct (Generate.tryBlock P request config).
Qed.

Lemma explain_action_cases request t c st :
  Explain.action P env request t c st
  = (let rateLimit := (Explain.rateLimitCheck request t c st).1 in
     if negb (RateLimitResult.allowed rateLimit)
     then Returned (Explain.rateLimitedResponse rateLimit)
     else if negb (bool_decide (method request = js "POST"))
     then Returned Explain.methodNotAllowed
     else match getConfig P env with
          | Err e => Thrown e
          | Ok config =>
              match new_OpenAI P (OPENAI_API_KEY config) with
              | Some e => Thrown e
              | None =>
                  match Explain.tryBlock P request config with
                  | Ok response => Returned response
                  | Err error => Returned (Explain.catchBlock error)
                  end
              end
          end,
     (Explain.rateLimitCheck request t c st).2).
Proof.
  unfold Explain.action.
  destruct (Explain.rateLimitCheck request t c st) as [rateLimit st']. cbn.
  destruct (RateLimitResult.allowed rateLimit); cbn; [|done].
  destruct (bool_decide (method request = js "POST")); cbn; [|done].
  destruct (getConfig P env) as [config|e]; [|done].
  destruct (new_OpenAI P (OPENAI_API_KEY config)); [done|].
  by destruct (Explain.tryBlock P request config).
Qed.

(** X14. The handlers change the state of the limiter through the check at
    their start and through nothing else: whatever the method, the body and
    the outcome of a request (an answer with status 200, 400, 405, 429 or
    500, or an error thrown before the [try] block), the state it leaves is
    the state that its rate-limit check left, so every request that the
    check admits is counted, the rejected and the failed ones included. *)
Theorem every_request_is_counted request t c st :
  (Generate.action P env request t c st).2
  = (Generate.rateLimitCheck request t c st).2
  /\ (Explain.action P env request t c st).2
     = (Explain.rateLimitCheck request t c st).2.
Proof. by rewrite generate_action_cases, explain_action_cases. Qed.

(** What a handler throws comes from one of the two calls before its [try]
    block. *)
Lemma thrown_before_try {A} (tryResult : Env -> result exn A)
    (answer : Env -> result exn A -> Outcome) (e : exn) :
  (forall config r, answer config r <> Thrown e) ->
  match getConfig P env with
  | Err e' => Thrown e'
  | Ok config =>
      match new_OpenAI P (OPENAI_API_KEY config) with
      | Some e' => Thrown e'
      | None => answer config (tryResult config)
      end
  end = Thrown e
  <-> (getConfig P env = Err e
       \/ exists config,
            getConfig P env = Ok config
            /\ new_OpenAI P (OPENAI_API_KEY config) = Some e).
Proof.
  intros Hanswer. destruct (getConfig P env) as [config|e'].
  - destruct (new_OpenAI P (OPENAI_API_KEY config)) as [e'|] eqn:Hclient.
    + split.
      * intros [= ->]. right. by exists config.
      * intros [[=]|(config' & [= <-] & Hc)]. congruence.
    + split.
      * intros H. by apply Hanswer in H.
      * intros [[=]|(config' & [= <-] & Hc)]. congruence.
  - split.
    + intros [= ->]. by left.
    + intros [[= ->]|(config' & [=] & _)]. done.
Qed.

(** X15. A handler throws only what the two calls before its [try] block
    throw: it throws [e] exactly when its rate-limit check has admitted the
    request, the method is POST, and either [getConfig] rejects the process
    environment with [e], or [getConfig] accepts it and the constructor of
    the client throws [e] for the configured API key.  Nothing that happens
    inside the [try] block leaves the handler. *)
Theorem handler_throws_only_before_the_try_block request t c st (e : exn) :
  ((Generate.action P env request t c st).1 = Thrown e
   <-> RateLimitResult.allowed (Generate.rateLimitCheck request t c st).1 = true
       /\ method request = js "POST"
       /\ (getConfig P env = Err e
           \/ exists config,
                getConfig P env = Ok config
                /\ new_OpenAI P (OPENAI_API_KEY config) = Some e))
  /\ ((Explain.action P env request t c st).1 = Thrown e
      <-> RateLimitResult.allowed (Explain.rateLimitCheck request t c st).1 = true
          /\ method request = js "POST"
          /\ (getConfig P env = Err e
              \/ exists config,
                   getConfig P env = Ok config
                   /\ new_OpenAI P (OPENAI_API_KEY config) = Some e)).
Proof.
  rewrite generate_action_cases, explain_action_cases. cbn [fst]. cbv zeta.
  split.
  - destruct (RateLimitResult.allowed (Generate.rateLimitCheck request t c st).1);
      cbn; [|by split; [|intros (? & _)]].
    destruct (bool_decide_reflect (method request = js "POST")) as [Hm|Hm]; cbn;
      [|by split; [|intros (_ & ? & _)]].
    rewrite (thrown_before_try (Generate.tryBlock P request)
               (fun _ r =>
                  match r with
                  | Ok plan =>
                      Returned {| status := 200; headers := [];
                                  body := PlanBody plan |}
                  | Err error => Returned (Generate.catchBlock error)
                  end) e).
    + tauto.
    + by intros config [plan|error].
  - destruct (RateLimitResult.allowed (Explain.rateLimitCheck request t c st).1);
      cbn; [|by split; [|intros (? & _)]].
    destruct (bool_decide_reflect (method request = js "POST")) as [Hm|Hm]; cbn;
      [|by split; [|intros (_ & ? & _)]].
    rewrite (thrown_before_try (Explain.tryBlock P request)
               (fun _ r =>
                  match r with
                  | Ok response => Returned response
                  | Err error => Returned (Explain.catchBlock error)
                  end) e).
    + tauto.
    + by intros config [response|error].
Qed.

End HandlersAndLimiter.

(** ** The generation handler: where its answers come from *)

Section GenerateAnswers.

Context (P : Platform) (env : list (jsstring * jsstring)).

Implicit Types (request : Request) (st : State) (t c : Z) (config : Env).

Lemma normalizePlan_normal (plan : ProjectPlan) : planNormal (normalizePlan plan).
Proof.
  unfold planNormal.
  split; [rewrite length_normalizePlan_phases; apply Nat.le_min_r|]. split.
  - cbn [normalizePlan phases]. rewrite length_imap. apply phase_serials.
  - apply Forall_imap. apply normalizePhase_normal.
Qed.

Lemma parseAiResponse_Err aiResponse (e : exn) :
  (parseAiResponse P aiResponse).2 = Err e -> exists message, e = Error message.
Proof.
  unfold parseAiResponse.
  destruct (JSON_parse P aiResponse); [done|].
  destruct (JSON_parse P (cleanResponse aiResponse)); [done|].
  cbn. intros [= <-]. eauto.
Qed.

Lemma deadlineText_Err d (e : exn) :
  Generate.deadlineText P d = Err e -> exists message, e = Error message.
Proof.
  unfold Generate.deadlineText. destruct d as [[|a d]|]; try done.
  destruct (Date_toISOString P (a :: d)); [done|]. intros [= <-]. eauto.
Qed.

(** The prompt that the handler builds from the validated payload. *)
Lemma generate_tryBlock_Ok request config plan :
  Generate.tryBlock P request config = Ok plan ->
  exists payload data iso aiText v raw,
    JSON_parse P (requestBody request) = Ok payload
    /\ parse generatePlanPayloadSchema payload = Ok data
    /\ Generate.deadlineText P (deadline data) = Ok iso
    /\ responses_create P (OPENAI_MODEL config)
         {| rawUserGoal := sanitizeString (projectGoal data) defaultMaxLength;
            promptExperienceLevel := experienceLevel data;
            promptTimeAvailability := timeAvailability data;
            promptDeadline := iso |} = Ok aiText
    /\ aiText <> []
    /\ (parseAiResponse P aiText).2 = Ok v
    /\ parse projectPlanSchema v = Ok raw
    /\ plan = normalizePlan raw.
Proof.
  unfold Generate.tryBlock.
  destruct (JSON_parse P (requestBody request)) as [payload|]; [|done].
  cbn [bind mapErr].
  destruct (parse generatePlanPayloadSchema payload) as [data|] eqn:Hdata;
    [|done].
  cbn [bind mapErr].
  destruct (Generate.deadlineText P (deadline data)) as [iso|] eqn:Hiso;
    [|done].
  cbn [bind mapErr].
  destruct (responses_create P _ _) as [aiText|] eqn:Hai; [|done].
  cbn [bind mapErr]. destruct aiText as [|a aiText]; [done|].
  destruct (parseAiResponse P (a :: aiText)).2 as [v|] eqn:Hv; [|done].
  cbn [bind mapErr].
  destruct (parse projectPlanSchema v) as [raw|] eqn:Hraw; [|done].
  cbn [bind mapErr]. intros [= <-].
  exists payload, data, iso, (a :: aiText), v, raw. by repeat split.
Qed.

(** Where an error of the [try] block comes from, by its kind. *)
Lemma generate_tryBlock_Err request config (error : exn) :
  Generate.tryBlock P request config = Err error ->
  (exists message, error = Error message)
  \/ (exists payload l,
        JSON_parse P (requestBody request) = Ok payload
        /\ parse generatePlanPayloadSchema payload = Err l
        /\ error = ZodError l)
  \/ (exists prompt, responses_create P (OPENAI_MODEL config) prompt = Err error)
  \/ (exists v l, parse projectPlanSchema v = Err l /\ error = ZodError l).
Proof.
  unfold Generate.tryBlock.
  destruct (JSON_parse P (requestBody request)) as [payload|];
    [|cbn; intros [= <-]; left; eauto].
  cbn [bind mapErr].
  destruct (parse generatePlanPayloadSchema payload) as [data|l] eqn:Hdata;
    [|cbn; intros [= <-]; right; left; eauto].
  cbn [bind mapErr].
  destruct (Generate.deadlineText P (deadline data)) as [iso|e] eqn:Hiso;
    [|cbn; intros [= <-]; left; by apply (deadlineText_Err (deadline data))].
  cbn [bind mapErr].
  destruct (responses_create P _ _) as [aiText|e] eqn:Hai;
    [|cbn; intros [= <-]; right; right; left; eauto].
  cbn [bind mapErr]. destruct aiText as [|a aiText];
    [intros [= <-]; left; eauto|].
  destruct (parseAiResponse P (a :: aiText)).2 as [v|e] eqn:Hv;
    [|cbn; intros [= <-]; left; by apply (parseAiResponse_Err (a :: aiText))].
  cbn [bind mapErr].
  destruct (parse projectPlanSchema v) as [raw|l] eqn:Hraw; [done|].
  cbn. intros [= <-]. right; right; right. eauto.
Qed.

Lemma generate_catchBlock_not_200 (error : exn) :
  status (Generate.catchBlock error) <> 200.
Proof.
  destruct error as [issues|s m|m]; cbn; [| |done].
  - by destruct (existsb Generate.isInputIssue issues).
  - by destruct (bool_decide (s = Some 429)).
Qed.

(** X16. An answer with status 200 carries a normalized plan that came from
    the model for this request: the configuration was accepted and the
    client built, the body of the request read as a JSON value, that value
    passed the request schema and gave the payload, the deadline of the
    payload gave the text of the prompt's deadline, the model was asked
    with the sanitized goal, the experience level and the time availability
    of that payload, its output was parsed (directly or after the fences
    were stripped) and passed the plan schema, and the body of the answer
    is the normalization of that plan, which satisfies the invariants of a
    normalized plan. *)
Theorem plan_answer_is_normalized request t c st :
  statusOf (Generate.action P env request t c st).1 = Some 200 ->
  exists config payload data iso aiText v raw,
    getConfig P env = Ok config
    /\ new_OpenAI P (OPENAI_API_KEY config) = None
    /\ method request = js "POST"
    /\ JSON_parse P (requestBody request) = Ok payload
    /\ parse generatePlanPayloadSchema payload = Ok data
    /\ Generate.deadlineText P (deadline data) = Ok iso
    /\ responses_create P (OPENAI_MODEL config)
         {| rawUserGoal := sanitizeString (projectGoal data) defaultMaxLength;
            promptExperienceLevel := experienceLevel data;
            promptTimeAvailability := timeAvailability data;
            promptDeadline := iso |} = Ok aiText
    /\ (parseAiResponse P aiText).2 = Ok v
    /\ parse projectPlanSchema v = Ok raw
    /\ (Generate.action P env request t c st).1
       = Returned {| status := 200; headers := [];
                     body := PlanBody (normalizePlan raw) |}
    /\ planNormal (normalizePlan raw).
Proof.
  rewrite generate_action_cases. cbn [fst]. cbv zeta.
  destruct (RateLimitResult.allowed (Generate.rateLimitCheck request t c st).1);
    cbn; [|done].
  destruct (bool_decide_reflect (method request = js "POST")) as [Hm|Hm]; cbn;
    [|done].
  destruct (getConfig P env) as [config|e]; [|done].
  destruct (new_OpenAI P (OPENAI_API_KEY config)) eqn:Hclient; [done|].
  destruct (Generate.tryBlock P request config) as [plan|error] eqn:Htry.
  - intros _.
    apply generate_tryBlock_Ok in Htry
      as (payload & data & iso & aiText & v & raw
          & Hbody & Hdata & Hiso & Hai & _ & Hv & Hraw & ->).
    exists config, payload, data, iso, aiText, v, raw.
    repeat split; try done; apply normalizePlan_normal.
  - cbn. intros [= H]. by apply generate_catchBlock_not_200 in H.
Qed.

(** X17. Status 400 is answered for an invalid request body only: if the
    client of the model never throws a [ZodError], an answer with status
    400 means that the body was read as JSON and failed the request schema
    with an issue at one of the four fields that the [catch] block knows;
    a model output that fails the plan schema never gets it. *)
Theorem status_400_means_invalid_input request t c st :
  (forall model prompt l, responses_create P model prompt <> Err (ZodError l)) ->
  statusOf (Generate.action P env request t c st).1 = Some 400 ->
  exists payload l,
    JSON_parse P (requestBody request) = Ok payload
    /\ parse generatePlanPayloadSchema payload = Err l
    /\ existsb Generate.isInputIssue l = true
    /\ (Generate.action P env request t c st).1
       = Returned {| status := 400; headers := [];
                     body := FailureBody
                               (js "Invalid input data. Please check your form fields.")
                               (Some l) |}.
Proof.
  intros Hclient. rewrite generate_action_cases. cbn [fst]. cbv zeta.
  destruct (RateLimitResult.allowed (Generate.rateLimitCheck request t c st).1);
    cbn; [|done].
  destruct (bool_decide (method request = js "POST")); cbn; [|done].
  destruct (getConfig P env) as [config|e]; [|done].
  destruct (new_OpenAI P (OPENAI_API_KEY config)); [done|].
  destruct (Generate.tryBlock P request config) as [plan|error] eqn:Htry; [done|].
  destruct error as [l|s m|m]; cbn.
  - destruct (existsb Generate.isInputIssue l) eqn:Hin; [|done]. intros _.
    apply generate_tryBlock_Err in Htry
      as [[m [=]]|[(payload & l' & Hbody & Hparse & [= <-])
                  |[[prompt Hai]|(v & l' & Hplan & [= <-])]]].
    + exists payload, l. by rewrite Hin.
    + by apply Hclient in Hai.
    + apply plan_issues_not_input in Hplan. congruence.
  - by destruct (bool_decide (s = Some 429)).
  - done.
Qed.

(** X18. Status 429 has two sources only: the rate-limit check of the
    handler refused the request, or the model's client failed with
    status 429. *)
Theorem status_429_means_limiter_or_provider request t c st :
  statusOf (Generate.action P env request t c st).1 = Some 429 ->
  RateLimitResult.allowed (Generate.rateLimitCheck request t c st).1 = false
  \/ exists config prompt message,
       getConfig P env = Ok config
       /\ responses_create P (OPENAI_MODEL config) prompt
          = Err (StatusError (Some 429) message).
Proof.
  rewrite generate_action_cases. cbn [fst]. cbv zeta.
  destruct (RateLimitResult.allowed (Generate.rateLimitCheck request t c st).1);
    cbn; [|by left].
  destruct (bool_decide (method request = js "POST")); cbn; [|done].
  destruct (getConfig P env) as [config|e]; [|done].
  destruct (new_OpenAI P (OPENAI_API_KEY config)); [done|].
  destruct (Generate.tryBlock P request config) as [plan|error] eqn:Htry; [done|].
  destruct error as [l|s m|m]; cbn.
  - by destruct (existsb Generate.isInputIssue l).
  - destruct (bool_decide_reflect (s = Some 429)) as [->|]; [|done]. intros _.
    apply generate_tryBlock_Err in Htry
      as [[? [=]]|[(? & ? & _ & _ & [=])|[[prompt Hai]|(? & ? & _ & [=])]]].
    right. by exists config, prompt, m.
  - done.
Qed.

End GenerateAnswers.

Lemma plan_answer_is_normalized_witness :
  let P := examplePlatform (fenced (jsq "{'goal':'x','phases':[]}")) in
  let request := requestOf "POST" examplePayload in
  exists config payload data iso aiText v raw,
    getConfig P exampleEnv = Ok config
    /\ new_OpenAI P (OPENAI_API_KEY config) = None
    /\ method request = js "POST"
    /\ JSON_parse P (requestBody request) = Ok payload
    /\ parse generatePlanPayloadSchema payload = Ok data
    /\ Generate.deadlineText P (deadline data) = Ok iso
    /\ responses_create P (OPENAI_MODEL config)
         {| rawUserGoal := sanitizeString (projectGoal data) defaultMaxLength;
            promptExperienceLevel := experienceLevel data;
            promptTimeAvailability := timeAvailability data;
            promptDeadline := iso |} = Ok aiText
    /\ (parseAiResponse P aiText).2 = Ok v
    /\ parse projectPlanSchema v = Ok raw
    /\ (Generate.action P exampleEnv request 1000 1000 (initialState 0)).1
       = Returned {| status := 200; headers := [];
                     body := PlanBody (normalizePlan raw) |}
    /\ planNormal (normalizePlan raw).
Proof.
  intros P request.
  apply (plan_answer_is_normalized P exampleEnv request 1000 1000 (initialState 0)).
  reflexivity.
Defined.

Lemma status_400_means_invalid_input_witness :
  let P := examplePlatform [] in
  let request :=
    requestOf "POST" (jsq "{'projectGoal':'  ','experienceLevel':'beginner','timeAvailability':'3-5'}") in
  exists payload l,
    JSON_parse P (requestBody request) = Ok payload
    /\ parse generatePlanPayloadSchema payload = Err l
    /\ existsb Generate.isInputIssue l = true
    /\ (Generate.action P exampleEnv request 1000 1000 (initialState 0)).1
       = Returned {| status := 400; headers := [];
                     body := FailureBody
                               (js "Invalid input data. Please check your form fields.")
                               (Some l) |}.
Proof.
  intros P request.
  apply (status_400_means_invalid_input P exampleEnv request 1000 1000
           (initialState 0)).
  - intros model prompt l. discriminate.
  - reflexivity.
Defined.

Lemma status_429_means_limiter_or_provider_witness :
  let P := examplePlatform [] in
  let request := requestOf "POST" examplePayload in
  let st := afterGenerateChecks 5 request 1000 (initialState 0) in
  RateLimitResult.allowed (Generate.rateLimitCheck request 6000 6000 st).1 = false
  \/ exists config prompt message,
       getConfig P exampleEnv = Ok config
       /\ responses_create P (OPENAI_MODEL config) prompt
          = Err (StatusError (Some 429) message).
Proof.
  intros P request st.
  apply (status_429_means_limiter_or_provider P exampleEnv request 6000 6000 st).
  reflexivity.
Defined.

(** ** The explanation handler *)

Section ExplainAnswers.

Context (P : Platform) (env : list (jsstring * jsstring)).

(** X19. The stream that the explanation handler sends carries the text of
    the model's delta events and nothing else: the chunks, joined, are the
    delta texts, joined; no chunk is empty; and events without a text add
    nothing. *)
Theorem relay_forwards_the_delta_texts (events : list StreamEvent) :
  concat (Explain.relay events) = concat (omap delta events)
  /\ Forall (fun chunk => chunk <> []) (Explain.relay events)
  /\ (length (Explain.relay events) <= length events)%nat.
Proof.
  unfold Explain.relay. induction events as [|event events (IH1 & IH2 & IH3)].
  - by repeat split.
  - cbn [omap list_omap]. destruct (delta event) as [[|a content]|]; cbn.
    + repeat split; [done|done|lia].
    + repeat split; [by rewrite IH1|by constructor|lia].
    + repeat split; [done|done|lia].
Qed.


End ExplainAnswers.


(** ** Requests in a row *)

Section RequestsInARow.

Context (P : Platform) (env : list (jsstring * jsstring)).

Implicit Types (st : State) (id : jsstring) (request : Request).

Lemma serve_cons handler request (t c : Z) rest st :
  serve handler ((request, (t, c)) :: rest) st
  = ((handler request t c st).1 :: (serve handler rest (handler request t c st).2).1,
     (serve handler rest (handler request t c st).2).2).
Proof.
  cbn. destruct (handler request t c st) as [outcome st1]. cbn.
  by destruct (serve handler rest st1).
Qed.

Lemma generate_action_throttled request (t c : Z) st (R : Z) :
  (Generate.rateLimitCheck request t c st).1
  = RateLimitResult.mk false 0 R (ceilSeconds (R - t)) ->
  (Generate.action P env request t c st).1 = throttledAt R t.
Proof.
  intros E. rewrite generate_action_cases. cbn [fst]. cbv zeta. by rewrite E.
Qed.

(** After [i] requests of the client in the open window. *)
Lemma serve_generate_live id (R : Z) arrivals : forall (i : nat) st,
  (1 <= i)%nat ->
  rateLimitMap st !! id = Some {| count := Z.min (Z.of_nat i) 5; resetAt := R |} ->
  Forall (fun a => getClientIdentifier (headers_get a.1) = id
                   /\ a.2.1 <= R /\ a.2.2 <= R) arrivals ->
  Forall2 (fun a outcome => outcome = throttledAt R a.2.1)
    (drop (5 - i) arrivals)
    (drop (5 - i) (serve (Generate.action P env) arrivals st).1).
Proof.
  induction arrivals as [|[request [t c]] arrivals IH]; intros i st Hi Hst Ha.
  - cbn [serve fst]. rewrite !drop_nil. constructor.
  - apply Forall_cons in Ha as [(Hid & Ht & Hc) Hrest]. cbn in Hid, Ht, Hc.
    rewrite serve_cons. cbn [fst].
    assert ((Generate.action P env request t c st).2
            = (Generate.rateLimitCheck request t c st).2) as Hstate
      by (by rewrite generate_action_cases).
    unfold Generate.rateLimitCheck in Hstate. rewrite Hid in Hstate.
    change RATE_LIMIT.GENERATE_PLAN.MAX with 5 in Hstate.
    destruct (decide (i < 5)%nat) as [Hlt|Hge].
    + replace (5 - i)%nat with (S (5 - S i)) by lia. cbn [drop].
      apply (IH (S i)); [lia| |done]. rewrite Hstate.
      destruct (checkRateLimit_live id 5 RATE_LIMIT.GENERATE_PLAN.WINDOW_MS
                  t c st _ Hst ltac:(done) ltac:(cbn; lia))
        as [_ [HS|[? _]]]; [|cbn in *; lia].
      rewrite HS. cbn. do 2 f_equal. lia.
    + replace (5 - i)%nat with 0%nat by lia. rewrite !drop_0.
      destruct (checkRateLimit_exhausted id 5 RATE_LIMIT.GENERATE_PLAN.WINDOW_MS
                  t c st _ Hst ltac:(done) ltac:(cbn; lia))
        as [E [HS|[? _]]]; [|cbn in *; lia].
      cbn in E. constructor.
      * cbn. apply generate_action_throttled.
        unfold Generate.rateLimitCheck. by rewrite Hid.
      * specialize (IH (S i) (Generate.action P env request t c st).2).
        replace (5 - S i)%nat with 0%nat in IH by lia.
        rewrite !drop_0 in IH. apply IH; [lia| |done].
        rewrite Hstate, HS. do 2 f_equal. lia.
Qed.

End RequestsInARow.

Section Throttling.

Context (P : Platform) (env : list (jsstring * jsstring)).

(** X21. Requests beyond the budget are throttled whatever the requests
    before them were: when a client without a bucket sends requests to the
    generation endpoint while the window of the first one is open, every
    request from the sixth on is answered with status 429, the headers
    [Retry-After] (the wait up to the end of that window in seconds),
    [X-RateLimit-Limit] 5, [X-RateLimit-Remaining] 0 and
    [X-RateLimit-Reset] (the end of that window in seconds), and the
    message that names the wait; this holds for every method and body of
    the requests, so those answered with 405, 400 or 500 use up the budget
    as well. *)
Theorem requests_beyond_the_budget_are_throttled (id : jsstring)
    (first : Request) (t1 c1 : Z) (rest : list (Request * (Z * Z))) (st : State) :
  let R := t1 + RATE_LIMIT.GENERATE_PLAN.WINDOW_MS in
  let arrivals := (first, (t1, c1)) :: rest in
  rateLimitMap st !! id = None ->
  Forall (fun a => getClientIdentifier (headers_get a.1) = id
                   /\ a.2.1 <= R /\ a.2.2 <= R) arrivals ->
  Forall2 (fun a outcome =>
             outcome = throttledAt R a.2.1 /\ statusOf outcome = Some 429)
    (drop 5 arrivals)
    (drop 5 (serve (Generate.action P env) arrivals st).1).
Proof.
  intros R arrivals Hfresh Ha. subst arrivals.
  apply Forall_cons in Ha as [(Hid & _ & Hc) Hrest]. cbn in Hid, Hc.
  rewrite serve_cons. cbn [fst drop].
  apply (Forall2_impl (fun a outcome => outcome = throttledAt R a.2.1));
    [|by intros a outcome ->].
  apply (serve_generate_live P env id R rest 1); [lia| |done].
  assert ((Generate.action P env first t1 c1 st).2
          = (Generate.rateLimitCheck first t1 c1 st).2) as ->
    by (by rewrite generate_action_cases).
  unfold Generate.rateLimitCheck. rewrite Hid.
  by destruct (checkRateLimit_fresh id RATE_LIMIT.GENERATE_PLAN.MAX
                 RATE_LIMIT.GENERATE_PLAN.WINDOW_MS t1 c1 st (or_introl Hfresh))
    as [_ ->].
Qed.


End Throttling.

Lemma requests_beyond_the_budget_are_throttled_witness :
  let get := requestOf "GET" [] in
  let post := requestOf "POST" examplePayload in
  let arrivals :=
    [(get, (1000, 1000)); (get, (2000, 2000)); (post, (3000, 3000));
     (get, (4000, 4000)); (requestOf "POST" (js "null"), (5000, 5000));
     (post, (6000, 6000))] in
  Forall2 (fun a outcome =>
             outcome = throttledAt 121000 a.2.1 /\ statusOf outcome = Some 429)
    (drop 5 arrivals)
    (drop 5 (serve (Generate.action (examplePlatform []) exampleEnv) arrivals
               (initialState 0)).1).
Proof.
  intros get post arrivals.
  apply (requests_beyond_the_budget_are_throttled (examplePlatform []) exampleEnv
           (js "203.0.113.7") get 1000 1000
           [(get, (2000, 2000)); (post, (3000, 3000));
            (get, (4000, 4000)); (requestOf "POST" (js "null"), (5000, 5000));
            (post, (6000, 6000))] (initialState 0)).
  - reflexivity.
  - repeat constructor; try reflexivity; by vm_compute.
Defined.


(** ** The plan view: reordering and status changes *)

Section Splice.

Context {A : Type}.

Implicit Types (l : list A) (x : A) (i j : nat).

Lemma spliceIn_delete l i x :
  l !! i = Some x -> PlanView.spliceIn i x (delete i l) = l.
Proof.
  unfold PlanView.spliceIn. revert i.
  induction l as [|y l IH]; intros [|i] H; try done.
  - cbn in H. injection H as ->. by rewrite take_0, drop_0.
  - cbn in H. cbn. f_equal. by apply IH.
Qed.

Lemma delete_spliceIn l i x :
  (i <= length l)%nat -> delete i (PlanView.spliceIn i x l) = l.
Proof.
  unfold PlanView.spliceIn. revert i.
  induction l as [|y l IH]; intros [|i] H; cbn in *; try done; try lia.
  f_equal. apply IH. lia.
Qed.

Lemma lookup_spliceIn l i x :
  (i <= length l)%nat -> PlanView.spliceIn i x l !! i = Some x.
Proof.
  unfold PlanView.spliceIn. revert i.
  induction l as [|y l IH]; intros [|i] H; cbn in *; try done; try lia.
  apply IH. lia.
Qed.

Lemma spliceIn_min l i x :
  PlanView.spliceIn i x l = PlanView.spliceIn (i `min` length l)%nat x l.
Proof.
  unfold PlanView.spliceIn. destruct (decide (i <= length l)%nat).
  - by rewrite Nat.min_l.
  - rewrite Nat.min_r by lia.
    by rewrite !take_ge, !drop_ge by lia.
Qed.

Lemma spliceIn_Permutation l i x : PlanView.spliceIn i x l ≡ₚ x :: l.
Proof.
  unfold PlanView.spliceIn. rewrite <- Permutation_middle.
  by rewrite take_drop.
Qed.

Lemma length_spliceIn l i x : length (PlanView.spliceIn i x l) = S (length l).
Proof.
  unfold PlanView.spliceIn. rewrite length_app. cbn.
  rewrite length_take, length_drop. lia.
Qed.

(** What a move is: the element is at its new place, the others keep their
    order. *)
Lemma moveItem_spec l i j x :
  l !! i = Some x ->
  exists l', PlanView.moveItem i j l = Some l'
    /\ length l' = length l
    /\ l' !! (j `min` (length l - 1))%nat = Some x
    /\ delete (j `min` (length l - 1))%nat l' = delete i l
    /\ l' ≡ₚ l.
Proof.
  intros Hi. unfold PlanView.moveItem. rewrite Hi. eexists. split; [done|].
  pose proof (lookup_lt_Some _ _ _ Hi) as Hlt.
  assert (length (delete i l) = (length l - 1)%nat) as Hlen.
  { rewrite length_delete by eauto. lia. }
  rewrite spliceIn_min, Hlen.
  split; [rewrite length_spliceIn, Hlen; lia|].
  split; [apply lookup_spliceIn; lia|].
  split; [apply delete_spliceIn; lia|].
  rewrite spliceIn_Permutation. symmetry. by apply delete_Permutation.
Qed.

Lemma moveItem_back l i j l' :
  (i < length l)%nat -> (j < length l)%nat ->
  PlanView.moveItem i j l = Some l' -> PlanView.moveItem j i l' = Some l.
Proof.
  intros Hi Hj. unfold PlanView.moveItem.
  destruct (l !! i) as [x|] eqn:Hx; [|done]. intros [= <-].
  assert (j <= length (delete i l))%nat as Hj'.
  { rewrite length_delete by eauto. lia. }
  rewrite lookup_spliceIn by done. rewrite delete_spliceIn by done.
  by rewrite spliceIn_delete.
Qed.

End Splice.

Section PlanViewFacts.

Implicit Types (plan : ProjectPlan) (phase : Phase.t) (task : Task.t).

Lemma moveItem_fmap {A B} (f : A -> B) (i j : nat) (l : list A) :
  PlanView.moveItem i j (f <$> l)
  = (fun l' : list A => f <$> l') <$> PlanView.moveItem i j l.
Proof.
  unfold PlanView.moveItem, PlanView.spliceIn. rewrite list_lookup_fmap.
  destruct (l !! i) as [x|]; [|done]. cbn. f_equal.
  rewrite fmap_app, fmap_cons, fmap_take, fmap_drop. f_equal.
  - f_equal. clear. revert i. induction l as [|y l IH]; intros [|i]; cbn; try done.
    f_equal. apply IH.
  - f_equal. f_equal. clear. revert i.
    induction l as [|y l IH]; intros [|i]; cbn; try done.
    f_equal. apply IH.
Qed.

Lemma phaseContent_renumberPhases (l : list Phase.t) :
  phaseContent <$> PlanView.renumberPhases l = phaseContent <$> l.
Proof.
  apply list_eq. intros i. unfold PlanView.renumberPhases.
  rewrite !list_lookup_fmap, list_lookup_imap. by destruct (l !! i).
Qed.

Lemma serial_renumberPhases (l : list Phase.t) :
  Phase.serial <$> PlanView.renumberPhases l = serialOf <$> seq 1 (length l).
Proof.
  apply list_eq. intros i. unfold PlanView.renumberPhases.
  rewrite !list_lookup_fmap, list_lookup_imap.
  destruct (l !! i) as [phase|] eqn:E; cbn.
  - apply lookup_lt_Some in E. rewrite lookup_seq_lt by done.
    cbn. by rewrite indexPlusOne_serialOf.
  - apply lookup_ge_None in E. by rewrite lookup_seq_ge by lia.
Qed.

Lemma renumberPhases_ext (l l' : list Phase.t) :
  phaseContent <$> l = phaseContent <$> l' ->
  PlanView.renumberPhases l = PlanView.renumberPhases l'.
Proof.
  intros H. apply list_eq. intros i. unfold PlanView.renumberPhases.
  rewrite !list_lookup_imap.
  apply (f_equal (fun x => x !! i)) in H. rewrite !list_lookup_fmap in H.
  destruct (l !! i) as [p|], (l' !! i) as [p'|]; cbn in *; try done.
  injection H as Hn Ht. by rewrite Hn, Ht.
Qed.

Lemma renumberPhases_id (l : list Phase.t) :
  Phase.serial <$> l = serialOf <$> seq 1 (length l) ->
  PlanView.renumberPhases l = l.
Proof.
  intros H. apply list_eq. intros i. unfold PlanView.renumberPhases.
  rewrite list_lookup_imap.
  apply (f_equal (fun x => x !! i)) in H. rewrite !list_lookup_fmap in H.
  destruct (l !! i) as [p|] eqn:E; [|done]. cbn in *.
  apply lookup_lt_Some in E. rewrite lookup_seq_lt in H by done. cbn in H.
  injection H as H. destruct p as [n ts s]. cbn in *.
  by rewrite indexPlusOne_serialOf, H.
Qed.

(** X23. Dragging a phase moves that phase and nothing else: for two
    different indices and a phase at [fromIndex], the handler sets a plan
    with the same goal in which the moved phase stands at [toIndex] (at the
    end when [toIndex] lies beyond it), the other phases keep their order,
    names and tasks, no phase is lost or doubled, and the serials are
    1..N in the new order. *)
Theorem phase_reorder_moves_one_phase (fromIndex toIndex : nat) plan
    (moved : Phase.t) :
  fromIndex <> toIndex ->
  phases plan !! fromIndex = Some moved ->
  exists plan',
    PlanView.handlePhaseReorder fromIndex toIndex plan = PlanView.SetPlan plan'
    /\ goal plan' = goal plan
    /\ Phase.serial <$> phases plan' = serialOf <$> seq 1 (length (phases plan))
    /\ phaseContent <$> phases plan' !! (toIndex `min` (length (phases plan) - 1))%nat
       = Some (phaseContent moved)
    /\ phaseContent <$> delete (toIndex `min` (length (phases plan) - 1))%nat (phases plan')
       = phaseContent <$> delete fromIndex (phases plan)
    /\ phaseContent <$> phases plan' ≡ₚ phaseContent <$> phases plan.
Proof.
  intros Hne Hfrom. unfold PlanView.handlePhaseReorder.
  rewrite decide_False by done.
  destruct (moveItem_spec (phases plan) fromIndex toIndex moved Hfrom)
    as (l' & -> & Hlen & Hat & Hdel & Hperm).
  eexists. split; [done|]. cbn [goal phases]. split; [done|].
  split; [by rewrite serial_renumberPhases, Hlen|].
  assert (forall i, phaseContent <$> delete i (PlanView.renumberPhases l')
                    = phaseContent <$> delete i l') as Hdelete.
  { intros i. rewrite !list_fmap_delete. by rewrite phaseContent_renumberPhases. }
  split; [|split].
  - rewrite <- list_lookup_fmap, phaseContent_renumberPhases, list_lookup_fmap.
    by rewrite Hat.
  - by rewrite Hdelete, Hdel.
  - by rewrite phaseContent_renumberPhases, Hperm.
Qed.

(** X24. Dragging a phase back undoes the drag: in a plan whose phases
    carry the serials 1..N, moving a phase from one index to another and
    then from that index back to the first sets the plan that was there
    before. *)
Theorem phase_reorder_back_restores (fromIndex toIndex : nat) plan :
  fromIndex <> toIndex ->
  (fromIndex < length (phases plan))%nat ->
  (toIndex < length (phases plan))%nat ->
  Phase.serial <$> phases plan = serialOf <$> seq 1 (length (phases plan)) ->
  exists plan',
    PlanView.handlePhaseReorder fromIndex toIndex plan = PlanView.SetPlan plan'
    /\ PlanView.handlePhaseReorder toIndex fromIndex plan' = PlanView.SetPlan plan.
Proof.
  intros Hne Hfrom Hto Hserial. unfold PlanView.handlePhaseReorder.
  rewrite !decide_False by done.
  destruct (lookup_lt_is_Some_2 _ _ Hfrom) as [moved Hmoved].
  destruct (moveItem_spec (phases plan) fromIndex toIndex moved Hmoved)
    as (l' & Hmove & Hlen & _).
  rewrite Hmove. eexists. split; [done|]. cbn [goal phases].
  pose proof (moveItem_back _ _ _ _ Hfrom Hto Hmove) as Hback.
  assert ((fun l : list Phase.t => phaseContent <$> l)
            <$> PlanView.moveItem toIndex fromIndex (PlanView.renumberPhases l')
          = Some (phaseContent <$> phases plan)) as Hcontent.
  { rewrite <- moveItem_fmap, phaseContent_renumberPhases, moveItem_fmap.
    by rewrite Hback. }
  destruct (PlanView.moveItem toIndex fromIndex (PlanView.renumberPhases l'))
    as [l''|]; [|done].
  injection Hcontent as Hcontent.
  rewrite (renumberPhases_ext _ _ Hcontent), renumberPhases_id by done.
  rewrite decide_False by done. by destruct plan.
Qed.

End PlanViewFacts.

Lemma phase_reorder_moves_one_phase_witness :
  let phase n := {| Phase.name := n; Phase.tasks := []; Phase.serial := inject_Z 9 |} in
  let plan := {| goal := js "x"; phases := [phase (js "a"); phase (js "b"); phase (js "c")] |} in
  exists plan',
    PlanView.handlePhaseReorder 0 7 plan = PlanView.SetPlan plan'
    /\ goal plan' = goal plan
    /\ Phase.serial <$> phases plan' = serialOf <$> seq 1 (length (phases plan))
    /\ phaseContent <$> phases plan' !! (7 `min` (length (phases plan) - 1))%nat
       = Some (phaseContent (phase (js "a")))
    /\ phaseContent <$> delete (7 `min` (length (phases plan) - 1))%nat (phases plan')
       = phaseContent <$> delete 0%nat (phases plan)
    /\ phaseContent <$> phases plan' ≡ₚ phaseContent <$> phases plan.
Proof.
  intros phase plan.
  apply (phase_reorder_moves_one_phase 0 7 plan (phase (js "a"))); [lia|reflexivity].
Defined.

Lemma phase_reorder_back_restores_witness :
  let phase n k := {| Phase.name := n; Phase.tasks := [];
                      Phase.serial := serialOf k |} in
  let plan := {| goal := js "x";
                 phases := [phase (js "a") 1%nat; phase (js "b") 2%nat; phase (js "c") 3%nat] |} in
  exists plan',
    PlanView.handlePhaseReorder 0 2 plan = PlanView.SetPlan plan'
    /\ PlanView.handlePhaseReorder 2 0 plan' = PlanView.SetPlan plan.
Proof.
  intros phase plan.
  apply (phase_reorder_back_restores 0 2 plan); [lia|cbn; lia|cbn; lia|reflexivity].
Defined.

Section TaskReorder.

Implicit Types (plan : ProjectPlan) (phase : Phase.t) (task : Task.t).

Lemma mapFrom_at {A} (g : A -> option A) (i : nat) (l : list A) : forall k,
  PlanView.mapFrom (fun pIdx x => if decide (pIdx = i) then g x else Some x) k l
  = if decide (k <= i < k + length l)%nat
    then match l !! (i - k)%nat with
         | Some x =>
             match g x with
             | Some y => Some (<[(i - k)%nat := y]> l)
             | None => None
             end
         | None => Some l
         end
    else Some l.
Proof.
  induction l as [|x l IH]; intros k; cbn [PlanView.mapFrom length].
  - rewrite decide_False by lia. done.
  - rewrite IH. destruct (decide (k = i)) as [->|Hne].
    + rewrite decide_False by lia. rewrite decide_True by lia.
      rewrite Nat.sub_diag. cbn. by destruct (g x).
    + destruct (decide (S k <= i < S k + length l)%nat) as [Hin|Hout].
      * rewrite decide_True by lia.
        replace (i - k)%nat with (S (i - S k)) by lia. cbn.
        destruct (l !! (i - S k)%nat) as [x'|]; [|done]. by destruct (g x').
      * by rewrite decide_False by lia.
Qed.

Lemma taskContent_renumberTasks (l : list Task.t) :
  taskContent <$> PlanView.renumberTasks l = taskContent <$> l.
Proof.
  apply list_eq. intros i. unfold PlanView.renumberTasks.
  rewrite !list_lookup_fmap, list_lookup_imap. by destruct (l !! i).
Qed.

Lemma serial_renumberTasks (l : list Task.t) :
  Task.serial <$> PlanView.renumberTasks l = serialOf <$> seq 1 (length l).
Proof.
  apply list_eq. intros i. unfold PlanView.renumberTasks.
  rewrite !list_lookup_fmap, list_lookup_imap.
  destruct (l !! i) as [task|] eqn:E; cbn.
  - apply lookup_lt_Some in E. rewrite lookup_seq_lt by done.
    cbn. by rewrite indexPlusOne_serialOf.
  - apply lookup_ge_None in E. by rewrite lookup_seq_ge by lia.
Qed.

(** X25. Dragging a task reorders the tasks of its phase and touches
    nothing else: for two different indices and a task at [fromTaskIndex]
    of the phase at [phaseIndex], the handler sets the plan in which that
    phase alone is replaced; the phase keeps its name and serial; the moved
    task stands at [toTaskIndex] (at the end when that lies beyond it), the
    other tasks keep their order; ids, titles and statuses are kept, no
    task is lost or doubled, and the serials are 1..M in the new order. *)
Theorem task_reorder_stays_in_its_phase (phaseIndex fromTaskIndex toTaskIndex : nat)
    plan phase (moved : Task.t) :
  fromTaskIndex <> toTaskIndex ->
  phases plan !! phaseIndex = Some phase ->
  Phase.tasks phase !! fromTaskIndex = Some moved ->
  let position := (toTaskIndex `min` (length (Phase.tasks phase) - 1))%nat in
  exists tasks',
    PlanView.handleTaskReorder phaseIndex fromTaskIndex toTaskIndex plan
    = PlanView.SetPlan
        {| goal := goal plan;
           phases := <[phaseIndex := {| Phase.name := Phase.name phase;
                                        Phase.serial := Phase.serial phase;
                                        Phase.tasks := tasks' |}]> (phases plan) |}
    /\ Task.serial <$> tasks' = serialOf <$> seq 1 (length (Phase.tasks phase))
    /\ taskContent <$> tasks' !! position = Some (taskContent moved)
    /\ taskContent <$> delete position tasks'
       = taskContent <$> delete fromTaskIndex (Phase.tasks phase)
    /\ taskContent <$> tasks' ≡ₚ taskContent <$> Phase.tasks phase.
Proof.
  intros Hne Hphase Hfrom position. unfold PlanView.handleTaskReorder.
  rewrite decide_False by done.
  rewrite (mapFrom_at
             (fun phase =>
                match PlanView.moveItem fromTaskIndex toTaskIndex (Phase.tasks phase) with
                | Some newTasks =>
                    Some {| Phase.name := Phase.name phase;
                            Phase.serial := Phase.serial phase;
                            Phase.tasks := PlanView.renumberTasks newTasks |}
                | None => None
                end) phaseIndex (phases plan) 0).
  pose proof (lookup_lt_Some _ _ _ Hphase) as Hlt.
  rewrite decide_True by lia. rewrite Nat.sub_0_r, Hphase.
  destruct (moveItem_spec (Phase.tasks phase) fromTaskIndex toTaskIndex moved Hfrom)
    as (l' & -> & Hlen & Hat & Hdel & Hperm).
  exists (PlanView.renumberTasks l'). split; [done|].
  split; [by rewrite serial_renumberTasks, Hlen|].
  split; [|split].
  - rewrite <- list_lookup_fmap, taskContent_renumberTasks, list_lookup_fmap.
    fold position in Hat. by rewrite Hat.
  - rewrite !list_fmap_delete, taskContent_renumberTasks, <- !list_fmap_delete.
    fold position in Hdel. by rewrite Hdel.
  - by rewrite taskContent_renumberTasks, Hperm.
Qed.

End TaskReorder.

Lemma task_reorder_stays_in_its_phase_witness :
  let task n := {| Task.id := inject_Z n; Task.title := js "t";
                   Task.status := in_progress; Task.serial := inject_Z 9 |} in
  let phase := {| Phase.name := js "p"; Phase.serial := inject_Z 1;
                  Phase.tasks := [task 10; task 20; task 30] |} in
  let plan := {| goal := js "x"; phases := [phase; phase] |} in
  exists tasks',
    PlanView.handleTaskReorder 1 2 0 plan
    = PlanView.SetPlan
        {| goal := goal plan;
           phases := <[1%nat := {| Phase.name := Phase.name phase;
                                   Phase.serial := Phase.serial phase;
                                   Phase.tasks := tasks' |}]> (phases plan) |}
    /\ Task.serial <$> tasks' = serialOf <$> seq 1 (length (Phase.tasks phase))
    /\ taskContent <$> tasks' !! (0 `min` (length (Phase.tasks phase) - 1))%nat
       = Some (taskContent (task 30))
    /\ taskContent <$> delete (0 `min` (length (Phase.tasks phase) - 1))%nat tasks'
       = taskContent <$> delete 2%nat (Phase.tasks phase)
    /\ taskContent <$> tasks' ≡ₚ taskContent <$> Phase.tasks phase.
Proof.
  intros task phase plan.
  apply (task_reorder_stays_in_its_phase 1 2 0 plan phase (task 30));
    [lia|reflexivity|reflexivity].
Defined.

Section TaskStatus.

Implicit Types (plan : ProjectPlan) (task : Task.t) (status : TaskStatus).

Lemma updateTasks_compose (p : nat) (i : number) (f g : Task.t -> Task.t) plan :
  (forall task, Task.id (g task) = Task.id task) ->
  PlanView.updateTasks p i f (PlanView.updateTasks p i g plan)
  = PlanView.updateTasks p i (fun task => f (g task)) plan.
Proof.
  intros Hid. unfold PlanView.updateTasks. cbn [goal phases]. f_equal.
  apply list_eq. intros n. rewrite !list_lookup_imap.
  destruct (phases plan !! n) as [phase|]; [|done]. cbn.
  destruct (decide (n = p)); [|done]. cbn. do 2 f_equal.
  rewrite map_map. apply map_ext. intros task.
  destruct (Qeq_bool (Task.id task) i) eqn:E; [by rewrite Hid, E|by rewrite E].
Qed.

Lemma updateTasks_id (p : nat) (i : number) (f : Task.t -> Task.t) plan :
  (forall task, f task = task) -> PlanView.updateTasks p i f plan = plan.
Proof.
  intros Hf. unfold PlanView.updateTasks. destruct plan as [g ps]. cbn. f_equal.
  apply list_eq. intros n. rewrite list_lookup_imap.
  destruct (ps !! n) as [phase|]; [|done]. cbn.
  destruct (decide (n = p)); [|done]. destruct phase as [name tasks serial]. cbn.
  do 2 f_equal. rewrite <- (map_id tasks) at 2. apply map_ext. intros task.
  destruct (Qeq_bool (Task.id task) i); [apply Hf|done].
Qed.

Lemma withoutStatuses_updateTasks (p : nat) (i : number) (f : Task.t -> Task.t) plan :
  (forall task, PlanView.withStatus not_started (f task)
                = PlanView.withStatus not_started task) ->
  withoutStatuses (PlanView.updateTasks p i f plan) = withoutStatuses plan.
Proof.
  intros Hf. unfold withoutStatuses, PlanView.updateTasks. cbn [goal phases].
  f_equal. apply list_eq. intros n.
  change (map ?h ?l) with (h <$> l).
  rewrite !list_lookup_fmap, list_lookup_imap.
  destruct (phases plan !! n) as [phase|]; [|done]. cbn.
  destruct (decide (n = p)); [|done]. cbn. do 2 f_equal.
  rewrite map_map. apply map_ext. intros task.
  destruct (Qeq_bool (Task.id task) i); [apply Hf|done].
Qed.

Lemma taskAt_updateTasks (phaseIndex : nat) (taskId : number)
    (update : Task.t -> Task.t) plan (p k : nat) :
  taskAt (PlanView.updateTasks phaseIndex taskId update plan) p k
  = (fun task =>
       if bool_decide (p = phaseIndex) && Qeq_bool (Task.id task) taskId
       then update task else task) <$> taskAt plan p k.
Proof.
  unfold taskAt, PlanView.updateTasks. cbn [phases].
  rewrite list_lookup_imap. destruct (phases plan !! p) as [phase|]; [|done].
  cbn. destruct (decide (p = phaseIndex)) as [->|Hne].
  - rewrite bool_decide_eq_true_2 by done. cbn [Phase.tasks andb].
    change (map ?h ?l) with (h <$> l). by rewrite list_lookup_fmap.
  - rewrite bool_decide_eq_false_2 by done. cbn [andb].
    by destruct (Phase.tasks phase !! k).
Qed.

(** X26. The status badge and the checkbox change the status of the task
    they belong to, and nothing else.  For the task at any position [k] of
    any phase [p]: when [p] is the phase of the event and the id of the
    task is the id of the event, a click on the badge takes the status
    from not_started to in_progress, from in_progress to completed and
    from completed to not_started, and a change of the checkbox sets
    completed when it is checked and not_started when it is not, the id,
    the title and the serial being kept; every other task is left as it
    is.  So three clicks on the same task restore the plan; a change of
    the checkbox overrides what an earlier change of the same task set;
    and both handlers keep the goal, the phases and their order, and the
    id, title and serial of every task. *)
Theorem status_changes_keep_the_plan (phaseIndex : nat) (taskId : number)
    (checked checked' : bool) plan :
  (forall (p k : nat) task,
     taskAt plan p k = Some task ->
     let hit := bool_decide (p = phaseIndex) && Qeq_bool (Task.id task) taskId in
     taskAt (PlanView.cycleTaskStatus phaseIndex taskId plan) p k
     = Some (if hit
             then {| Task.id := Task.id task; Task.title := Task.title task;
                     Task.status :=
                       match Task.status task with
                       | not_started => in_progress
                       | in_progress => completed
                       | completed => not_started
                       end;
                     Task.serial := Task.serial task |}
             else task)
     /\ taskAt (PlanView.handleStatusChange phaseIndex taskId checked plan) p k
        = Some (if hit
                then {| Task.id := Task.id task; Task.title := Task.title task;
                        Task.status := if checked then completed else not_started;
                        Task.serial := Task.serial task |}
                else task))
  /\ PlanView.cycleTaskStatus phaseIndex taskId
       (PlanView.cycleTaskStatus phaseIndex taskId
          (PlanView.cycleTaskStatus phaseIndex taskId plan)) = plan
  /\ PlanView.handleStatusChange phaseIndex taskId checked
       (PlanView.handleStatusChange phaseIndex taskId checked' plan)
     = PlanView.handleStatusChange phaseIndex taskId checked plan
  /\ withoutStatuses (PlanView.cycleTaskStatus phaseIndex taskId plan)
     = withoutStatuses plan
  /\ withoutStatuses (PlanView.handleStatusChange phaseIndex taskId checked plan)
     = withoutStatuses plan.
Proof.
  unfold PlanView.cycleTaskStatus, PlanView.handleStatusChange.
  split; [|split; [|split; [|split]]].
  - intros p k task Htask. cbv zeta. rewrite !taskAt_updateTasks, Htask.
    cbn [fmap option_fmap option_map]. split; [|done].
    destruct (bool_decide (p = phaseIndex) && Qeq_bool (Task.id task) taskId);
      [|done].
    destruct task as [i title s n]. by destruct s.
  - rewrite !updateTasks_compose by done. apply updateTasks_id.
    intros [i t s n]. by destruct s.
  - by rewrite updateTasks_compose by done.
  - by apply withoutStatuses_updateTasks.
  - by apply withoutStatuses_updateTasks.
Qed.

End TaskStatus.

Lemma status_changes_keep_the_plan_witness :
  let task id status := {| Task.id := inject_Z id; Task.title := js "t";
                           Task.status := status; Task.serial := inject_Z 1 |} in
  let phase := {| Phase.name := js "p"; Phase.serial := inject_Z 1;
                  Phase.tasks := [task 10 in_progress; task 20 completed] |} in
  let plan := {| goal := js "x"; phases := [phase; phase] |} in
  taskAt (PlanView.cycleTaskStatus 1 (inject_Z 20) plan) 1 1
  = Some (task 20 not_started)
  /\ taskAt (PlanView.cycleTaskStatus 1 (inject_Z 10) plan) 1 0
     = Some (task 10 completed)
  /\ taskAt (PlanView.cycleTaskStatus 1 (inject_Z 20) plan) 0 1
     = Some (task 20 completed)
  /\ taskAt (PlanView.handleStatusChange 1 (inject_Z 10) true plan) 1 0
     = Some (task 10 completed)
  /\ taskAt (PlanView.handleStatusChange 1 (inject_Z 10) false plan) 1 0
     = Some (task 10 not_started).
Proof.
  intros task phase plan.
  pose proof (fun i checked =>
                proj1 (status_changes_keep_the_plan 1 (inject_Z i) checked
                         checked plan)) as H.
  split; [|split; [|split; [|split]]].
  - exact (proj1 (H 20 true 1%nat 1%nat (task 20 completed) eq_refl)).
  - exact (proj1 (H 10 true 1%nat 0%nat (task 10 in_progress) eq_refl)).
  - exact (proj1 (H 20 true 0%nat 1%nat (task 20 completed) eq_refl)).
  - exact (proj2 (H 10 true 1%nat 0%nat (task 10 in_progress) eq_refl)).
  - exact (proj2 (H 10 false 1%nat 0%nat (task 10 in_progress) eq_refl)).
Defined.

(** ** The cooldown of the explanation button *)

Section Cooldown.

Import ExplainCooldown.

(** X27. The countdown of the explanation button: with an explanation
    requested at [last], the button is released exactly when the clock of
    the page has reached [last + 30000]; before that the countdown shows
    the remaining time in whole seconds, rounded up; it lies between 1 and
    30 when the clock of the page is not behind [last], and above 30 when
    it is behind (the page keeps the clock read of its mount until the
    first tick after the click). *)
Theorem cooldown_counts_the_remaining_seconds (last now : Z) :
  last <> 0 ->
  (canExplain (Some last) now = true <-> last + EXPLAIN_COOLDOWN_MS <= now)
  /\ (canExplain (Some last) now = true <-> cooldownSeconds (Some last) now = 0)
  /\ (canExplain (Some last) now = false ->
      1000 * (cooldownSeconds (Some last) now - 1)
      < last + EXPLAIN_COOLDOWN_MS - now
      <= 1000 * cooldownSeconds (Some last) now)
  /\ (last <= now -> 0 <= cooldownSeconds (Some last) now <= 30)
  /\ (now < last -> 30 < cooldownSeconds (Some last) now).
Proof.
  intros Hlast. unfold cooldownSeconds, canExplain, timeSinceLastExplain.
  destruct (Z.eqb_spec last 0); [done|]. unfold EXPLAIN_COOLDOWN_MS.
  pose proof (ceilSeconds_bounds (30000 - (now - last))) as Hceil.
  destruct (Z.geb_spec (now - last) 30000); repeat split; try done; try lia.
Qed.

End Cooldown.

Lemma cooldown_counts_the_remaining_seconds_witness :
  (ExplainCooldown.canExplain (Some 5000) 12500 = true
   <-> 5000 + ExplainCooldown.EXPLAIN_COOLDOWN_MS <= 12500)
  /\ (ExplainCooldown.canExplain (Some 5000) 12500 = true
      <-> ExplainCooldown.cooldownSeconds (Some 5000) 12500 = 0)
  /\ (ExplainCooldown.canExplain (Some 5000) 12500 = false ->
      1000 * (ExplainCooldown.cooldownSeconds (Some 5000) 12500 - 1)
      < 5000 + ExplainCooldown.EXPLAIN_COOLDOWN_MS - 12500
      <= 1000 * ExplainCooldown.cooldownSeconds (Some 5000) 12500)
  /\ (5000 <= 12500 -> 0 <= ExplainCooldown.cooldownSeconds (Some 5000) 12500 <= 30)
  /\ (12500 < 5000 -> 30 < ExplainCooldown.cooldownSeconds (Some 5000) 12500).
Proof.
  apply (cooldown_counts_the_remaining_seconds 5000 12500). lia.
Defined.

(** ** [stripMarkdown] *)

Section MarkdownFacts.

Implicit Types (s text close : jsstring) (c x : N) (n skip : nat).

Lemma lazyUpTo_sublist close s : forall text n,
  lazyUpTo close s = Some (text, n) -> text `sublist_of` take n s.
Proof.
  induction s as [|c s IH]; intros text n; cbn [lazyUpTo]; [done|].
  destruct (startsWith close (c :: s)).
  - intros [= <- <-]. apply sublist_nil_l.
  - destruct (isLineTerminator c); [done|].
    destruct (lazyUpTo close s) as [[text' n']|]; [|done].
    intros [= <- <-]. cbn. apply sublist_skip. by apply IH.
Qed.

Lemma lazyGroup_sublist close s text n :
  lazyGroup close s = Some (text, n) ->
  (1 <= n)%nat /\ text `sublist_of` take n s.
Proof.
  unfold lazyGroup. destruct s as [|c s]; [done|].
  destruct (isLineTerminator c); [done|].
  destruct (lazyUpTo close s) as [[text' n']|] eqn:E; [|done].
  intros [= <- <-]. split; [lia|]. cbn. apply sublist_skip.
  by apply (lazyUpTo_sublist close).
Qed.

Lemma sublist_take_drop text s (a n : nat) :
  text `sublist_of` take n (drop a s) -> text `sublist_of` take (a + n) s.
Proof.
  intros H. rewrite <- take_take_drop. by apply sublist_inserts_l.
Qed.

Lemma sublist_take_more text s (n m : nat) :
  text `sublist_of` take n s -> text `sublist_of` take (n + m) s.
Proof.
  intros H. etransitivity; [exact H|].
  rewrite <- (take_take_drop s n m). by apply sublist_inserts_r.
Qed.

Lemma captures_delimitedAt (open close : jsstring) :
  open <> [] -> captures (delimitedAt open close).
Proof.
  intros Hopen s text n. unfold delimitedAt.
  destruct (startsWith open s); [|done].
  destruct (lazyGroup close (drop (length open) s)) as [[text' n']|] eqn:E;
    [|done].
  intros [= <- <-]. apply lazyGroup_sublist in E as [? ?].
  split; [lia|]. by apply sublist_take_drop.
Qed.

Lemma captures_codeAt : captures codeAt.
Proof.
  intros s text n. unfold codeAt. generalize (countWhile isBacktick 3 s).
  intros open. revert text n.
  induction open as [|open IH]; intros text n; cbn [codeWith]; [done|].
  destruct (lazyGroup [96%N] (drop (S open) s)) as [[text' n']|] eqn:E;
    [|apply IH].
  set (more := countWhile isBacktick 2 (drop (S open + n') s)).
  intros [= <- <-]. apply lazyGroup_sublist in E as [? ?].
  split; [lia|].
  change (S (open + n' + more)) with (S open + n' + more)%nat.
  by apply sublist_take_more, sublist_take_drop.
Qed.

Lemma linkUpTo_sublist s : forall text n,
  linkUpTo s = Some (text, n) -> text `sublist_of` take n s.
Proof.
  induction s as [|c s IH]; intros text n; cbn [linkUpTo]; [done|].
  destruct (if startsWith [93; 40]%N (c :: s)
            then lazyGroup [41%N] (drop 2 (c :: s)) else None) as [[? m]|].
  - intros [= <- <-]. apply sublist_nil_l.
  - destruct (isLineTerminator c); [done|].
    destruct (linkUpTo s) as [[text' n']|]; [|done].
    intros [= <- <-]. cbn. apply sublist_skip. by apply IH.
Qed.

Lemma captures_linkAt : captures linkAt.
Proof.
  intros s text n. unfold linkAt.
  destruct s as [|b s]; [done|]. cbn [startsWith].
  destruct (91 =? b)%N; [|done]. cbn [andb]. change (drop 1 (b :: s)) with s.
  destruct s as [|c s]; [done|].
  destruct (isLineTerminator c); [done|].
  destruct (linkUpTo s) as [[text' n']|] eqn:E; [|done].
  intros [= <- <-]. split; [lia|]. cbn. apply sublist_cons, sublist_skip.
  by apply linkUpTo_sublist.
Qed.

Lemma replaceFrom_sublist matchAt s : forall skip,
  captures matchAt -> replaceFrom matchAt skip s `sublist_of` drop skip s.
Proof.
  intros skip Hm. revert skip.
  induction s as [|c s IH]; intros skip; cbn [replaceFrom].
  - by rewrite drop_nil.
  - destruct skip as [|skip]; [|apply IH].
    destruct (matchAt (c :: s)) as [[text n]|] eqn:E.
    + apply Hm in E as [Hn Htext]. destruct n as [|n]; [lia|].
      rewrite drop_0. rewrite <- (take_drop (S n) (c :: s)).
      apply sublist_app; [done|]. cbn. rewrite Nat.sub_0_r. apply IH.
    + rewrite drop_0. apply sublist_skip. specialize (IH 0%nat).
      by rewrite drop_0 in IH.
Qed.

Lemma replaceAll_sublist matchAt s :
  captures matchAt -> replaceAll matchAt s `sublist_of` s.
Proof.
  intros Hm. pose proof (replaceFrom_sublist matchAt s 0 Hm) as H.
  by rewrite drop_0 in H.
Qed.

Lemma removeHeadersFrom_sublist s : forall (b : bool) skip,
  removeHeadersFrom b skip s `sublist_of` s.
Proof.
  induction s as [|c s IH]; intros b skip; cbn [removeHeadersFrom]; [done|].
  destruct skip as [|skip]; [|apply sublist_cons, IH].
  destruct (if b then headerAt (c :: s) else None).
  - apply sublist_cons, IH.
  - apply sublist_skip, IH.
Qed.

Lemma dropWhile_sublist (p : N -> bool) s : dropWhile p s `sublist_of` s.
Proof.
  induction s as [|c s IH]; cbn; [done|].
  destruct (p c); [by apply sublist_cons|done].
Qed.

Lemma trim_sublist s : trim s `sublist_of` s.
Proof.
  unfold trim. etransitivity; [|apply (dropWhile_sublist isWhiteSpace)].
  fold (trimStart s).
  destruct (trimEnd_prefix (trimStart s)) as (w & Hw & _).
  rewrite Hw at 2. by apply sublist_inserts_r.
Qed.

(** X28. [stripMarkdown] only removes: its result is the text with some of
    its code units left out, in the same order; it brings in no code unit
    and never makes the text longer. *)
Theorem stripMarkdown_only_removes text :
  stripMarkdown text `sublist_of` text
  /\ (length (stripMarkdown text) <= length text)%nat.
Proof.
  assert (stripMarkdown text `sublist_of` text) as H.
  { unfold stripMarkdown. cbv zeta.
    etransitivity; [apply trim_sublist|].
    etransitivity; [apply replaceAll_sublist, captures_linkAt|].
    etransitivity; [apply removeHeadersFrom_sublist|].
    etransitivity; [apply replaceAll_sublist, captures_codeAt|].
    etransitivity; [by apply replaceAll_sublist, captures_delimitedAt|].
    etransitivity; [by apply replaceAll_sublist, captures_delimitedAt|].
    etransitivity; [by apply replaceAll_sublist, captures_delimitedAt|].
    by apply replaceAll_sublist, captures_delimitedAt. }
  split; [done|]. by apply sublist_length.
Qed.

Lemma replaceFrom_plain matchAt x s :
  startsAt x matchAt -> Forall (fun c => c <> x) s -> replaceFrom matchAt 0 s = s.
Proof.
  intros Hm. induction 1 as [|c s Hc _ IH]; cbn [replaceFrom]; [done|].
  by rewrite (Hm c s Hc), IH.
Qed.

Lemma startsAt_delimitedAt x (open close : jsstring) :
  startsAt x (delimitedAt (x :: open) close).
Proof.
  intros c s Hc. unfold delimitedAt. cbn [startsWith].
  by destruct (N.eqb_spec x c).
Qed.

Lemma startsAt_codeAt : startsAt 96 codeAt.
Proof.
  intros c s Hc. unfold codeAt. cbn [countWhile]. unfold isBacktick.
  by destruct (N.eqb_spec c 96).
Qed.

Lemma startsAt_linkAt : startsAt 91 linkAt.
Proof.
  intros c s Hc. unfold linkAt. cbn [startsWith].
  by destruct (N.eqb_spec 91 c).
Qed.

Lemma removeHeadersFrom_plain s : forall (b : bool),
  Forall (fun c => c <> 35%N) s -> removeHeadersFrom b 0 s = s.
Proof.
  induction s as [|c s IH]; intros b Hs; cbn [removeHeadersFrom]; [done|].
  apply Forall_cons in Hs as [Hc Hs].
  assert (headerAt (c :: s) = None) as E.
  { unfold headerAt. cbn [countWhile]. unfold isHash.
    by destruct (N.eqb_spec c 35). }
  rewrite E. destruct b; by rewrite IH.
Qed.

Lemma isMarker_false c :
  isMarker c = false ->
  c <> 42%N /\ c <> 95%N /\ c <> 96%N /\ c <> 35%N /\ c <> 91%N.
Proof.
  unfold isMarker. intros H.
  repeat (apply orb_false_iff in H as [H ?]).
  repeat split; intros ->; done.
Qed.

(** X29. A text without an asterisk, an underscore, a backtick, a hash and
    an opening square bracket has no markdown for [stripMarkdown] to strip:
    the result is the text with the whitespace at its ends trimmed. *)
Theorem stripMarkdown_leaves_plain_text text :
  Forall (fun c => isMarker c = false) text ->
  stripMarkdown text = trim text.
Proof.
  intros Hplain.
  assert (forall x, (forall c, isMarker c = false -> c <> x) ->
                    Forall (fun c => c <> x) text) as Hno.
  { intros x Hx. eapply Forall_impl; [exact Hplain|]. exact Hx. }
  unfold stripMarkdown, replaceAll, removeHeaders. cbv zeta.
  change (js "**") with [42; 42]%N. change (js "*") with [42%N].
  change (js "__") with [95; 95]%N. change (js "_") with [95%N].
  rewrite !(replaceFrom_plain _ 42 text) by
    (try apply startsAt_delimitedAt; apply Hno; intros c Hc;
     by apply isMarker_false in Hc as (? & ? & ? & ? & ?)).
  rewrite !(replaceFrom_plain _ 95 text) by
    (try apply startsAt_delimitedAt; apply Hno; intros c Hc;
     by apply isMarker_false in Hc as (? & ? & ? & ? & ?)).
  rewrite (replaceFrom_plain _ 96 text) by
    (try apply startsAt_codeAt; apply Hno; intros c Hc;
     by apply isMarker_false in Hc as (? & ? & ? & ? & ?)).
  rewrite removeHeadersFrom_plain by
    (apply Hno; intros c Hc;
     by apply isMarker_false in Hc as (? & ? & ? & ? & ?)).
  by rewrite (replaceFrom_plain _ 91 text) by
    (try apply startsAt_linkAt; apply Hno; intros c Hc;
     by apply isMarker_false in Hc as (? & ? & ? & ? & ?)).
Qed.

End MarkdownFacts.

Lemma stripMarkdown_leaves_plain_text_witness :
  stripMarkdown (js "  Start with the data model, then build the screens. ")
  = js "Start with the data model, then build the screens.".
Proof.
  apply (stripMarkdown_leaves_plain_text
           (js "  Start with the data model, then build the screens. ")).
  vm_compute. repeat (constructor; [reflexivity|]). constructor.
Defined.

Section MarkdownUnderscores.

Implicit Types (s u v w : jsstring) (c x : N).

Lemma plain_without x s :
  isMarker x = true -> Forall (fun c => isMarker c = false) s ->
  Forall (fun c => c <> x) s.
Proof.
  intros Hx Hs. eapply Forall_impl; [exact Hs|]. intros c Hc ->. congruence.
Qed.

(** The last three replacements find nothing in a text without markers. *)
Lemma markdown_tail_plain s :
  Forall (fun c => isMarker c = false) s ->
  trim (replaceAll linkAt (removeHeaders (replaceAll codeAt s))) = trim s.
Proof.
  intros Hs. unfold replaceAll, removeHeaders.
  rewrite (replaceFrom_plain _ 96 s) by (try apply startsAt_codeAt; by apply plain_without).
  rewrite removeHeadersFrom_plain by (by apply plain_without).
  by rewrite (replaceFrom_plain _ 91 s) by (try apply startsAt_linkAt; by apply plain_without).
Qed.

Lemma replaceFrom_app_plain matchAt x u s :
  startsAt x matchAt -> Forall (fun c => c <> x) u ->
  replaceFrom matchAt 0 (u ++ s) = u ++ replaceFrom matchAt 0 s.
Proof.
  intros Hm. induction 1 as [|c u Hc _ IH]; [done|].
  cbn [app replaceFrom]. by rewrite (Hm c _ Hc), IH.
Qed.

Lemma replaceFrom_skip matchAt u s :
  replaceFrom matchAt (length u) (u ++ s) = replaceFrom matchAt 0 s.
Proof. induction u as [|c u IH]; [done|]. cbn. apply IH. Qed.

Lemma lazyUpTo_found x v s :
  Forall (fun c => c <> x /\ isLineTerminator c = false) v ->
  lazyUpTo [x] (v ++ x :: s) = Some (v, S (length v)).
Proof.
  induction 1 as [|c v [Hc Hlt] _ IH]; cbn [app lazyUpTo startsWith length].
  - by rewrite N.eqb_refl.
  - destruct (N.eqb_spec x c) as [->|_]; [done|]. cbn [andb].
    by rewrite Hlt, IH.
Qed.

Lemma replaceFrom_miss matchAt c s :
  matchAt (c :: s) = None ->
  replaceFrom matchAt 0 (c :: s) = c :: replaceFrom matchAt 0 s.
Proof. intros H. cbn [replaceFrom]. by rewrite H. Qed.

Lemma replaceFrom_hit matchAt c s (text : jsstring) (n : nat) :
  matchAt (c :: s) = Some (text, n) ->
  replaceFrom matchAt 0 (c :: s) = text ++ replaceFrom matchAt (n - 1) s.
Proof. intros H. cbn [replaceFrom]. by rewrite H. Qed.

(** The pattern with two underscores finds nothing where no two
    underscores stand together. *)
Lemma double_underscore_absent u a v w :
  Forall (fun c => c <> 95%N) u -> a <> 95%N ->
  Forall (fun c => c <> 95%N) v -> Forall (fun c => c <> 95%N) w ->
  replaceFrom (delimitedAt [95; 95]%N [95; 95]%N) 0
    (u ++ 95%N :: (a :: v) ++ 95%N :: w)
  = u ++ 95%N :: (a :: v) ++ 95%N :: w.
Proof.
  intros Hu Ha Hv Hw.
  rewrite (replaceFrom_app_plain _ 95 u)
    by (try apply startsAt_delimitedAt; done).
  rewrite replaceFrom_miss.
  2:{ unfold delimitedAt. cbn [startsWith app]. rewrite N.eqb_refl.
      by destruct (N.eqb_spec 95 a). }
  rewrite (replaceFrom_app_plain _ 95 (a :: v))
    by (try apply startsAt_delimitedAt; by constructor).
  rewrite replaceFrom_miss.
  2:{ unfold delimitedAt. cbn [startsWith]. rewrite N.eqb_refl.
      destruct Hw as [|b w Hb _]; [done|]. by destruct (N.eqb_spec 95 b). }
  by rewrite (replaceFrom_plain _ 95 w) by (try apply startsAt_delimitedAt; done).
Qed.

(** The pattern with one underscore takes the first two. *)
Lemma single_underscores_taken u a v w :
  Forall (fun c => c <> 95%N) u ->
  isLineTerminator a = false ->
  Forall (fun c => c <> 95%N /\ isLineTerminator c = false) v ->
  Forall (fun c => c <> 95%N) w ->
  replaceFrom (delimitedAt [95%N] [95%N]) 0 (u ++ 95%N :: (a :: v) ++ 95%N :: w)
  = u ++ (a :: v) ++ w.
Proof.
  intros Hu Ha Hv Hw.
  rewrite (replaceFrom_app_plain _ 95 u)
    by (try apply startsAt_delimitedAt; done).
  rewrite (replaceFrom_hit _ _ _ (a :: v) (length ((a :: v) ++ [95%N]) + 1)).
  2:{ unfold delimitedAt. cbn [startsWith length]. rewrite N.eqb_refl. cbn [andb].
      change (drop 1 (95%N :: (a :: v) ++ 95%N :: w)) with (a :: v ++ 95%N :: w).
      cbn [lazyGroup]. rewrite Ha, (lazyUpTo_found 95 v w Hv).
      do 2 f_equal. rewrite length_app. cbn. lia. }
  replace (length ((a :: v) ++ [95%N]) + 1 - 1)%nat
    with (length ((a :: v) ++ [95%N])) by lia.
  replace ((a :: v) ++ 95%N :: w) with (((a :: v) ++ [95%N]) ++ w)
    by (by rewrite <- app_assoc).
  rewrite replaceFrom_skip.
  by rewrite (replaceFrom_plain _ 95 w) by (try apply startsAt_delimitedAt; done).
Qed.

(** X30. Two underscores with a text between them are taken for italics
    wherever they stand, inside a word as well: in a text whose only
    markers are two underscores with a non-empty text without a line break
    between them, [stripMarkdown] removes both underscores and keeps the
    rest, so a name written with underscores loses them. *)
Theorem stripMarkdown_takes_underscores_from_names u v w :
  Forall (fun c => isMarker c = false) (u ++ v ++ w) ->
  v <> [] ->
  Forall (fun c => isLineTerminator c = false) v ->
  stripMarkdown (u ++ 95%N :: v ++ 95%N :: w) = trim (u ++ v ++ w).
Proof.
  intros Hplain Hv Hline.
  rewrite <- (markdown_tail_plain (u ++ v ++ w) Hplain).
  rewrite !Forall_app in Hplain. destruct Hplain as (Hu & Hv' & Hw).
  destruct v as [|a v]; [done|].
  apply Forall_cons in Hv' as [Ha Hv']. apply Forall_cons in Hline as [Hla Hline].
  assert (a <> 95%N) as Ha95 by (intros ->; done).
  assert (Forall (fun c => c <> 42%N) (u ++ 95%N :: (a :: v) ++ 95%N :: w))
    as Hstar.
  { rewrite Forall_app, Forall_cons, Forall_app, !Forall_cons.
    repeat split; try done; try (by apply plain_without); by intros ->. }
  unfold stripMarkdown, replaceAll. cbv zeta.
  change (js "**") with [42; 42]%N. change (js "*") with [42%N].
  change (js "__") with [95; 95]%N. change (js "_") with [95%N].
  rewrite (replaceFrom_plain (delimitedAt [42; 42]%N [42; 42]%N) 42 _
             (startsAt_delimitedAt _ _ _) Hstar).
  rewrite (replaceFrom_plain (delimitedAt [42%N] [42%N]) 42 _
             (startsAt_delimitedAt _ _ _) Hstar).
  rewrite double_underscore_absent by (done || by apply plain_without).
  rewrite single_underscores_taken; [done|by apply plain_without|done| |by apply plain_without].
  apply Forall_and. split; [by apply plain_without|done].
Qed.

End MarkdownUnderscores.

Lemma stripMarkdown_takes_underscores_from_names_witness :
  stripMarkdown (js "Set max_tokens_per request.") = js "Set maxtokensper request.".
Proof.
  apply (stripMarkdown_takes_underscores_from_names
           (js "Set max") (js "tokens") (js "per request.")).
  - vm_compute. repeat (constructor; [reflexivity|]). constructor.
  - discriminate.
  - vm_compute. repeat (constructor; [reflexivity|]). constructor.
Defined.
